(** * Advanced Accordion: the frontend view script (src/view.js)

    A shallow embedding of the hydration and animation engine of
    [src/view.js]: the attribute readers, the settings resolver, the
    open and close sequences of an item with their scheduled callbacks,
    the toggle with link-group synchronisation and auto-close, the
    resize recalculation, the keyboard handler, and the bootstrap with
    its registry; and of the [data-*] props that the save components
    ([src/save.js], [src/accordion-item/save.js]) write for it to read.

    Conventions of the embedding.
    - A JavaScript number is a [number]: [NaN], a signed infinity, or a
      finite value kept as an exact rational in lowest terms (rounding
      to binary64 is not modelled; the only tests the script performs on
      numbers are [dur > 0] and the products it prints into strings).
    - An inline style ([el.style]) is a finite map from property name to
      a declaration (value and [!important] flag); assigning the empty
      string removes the declaration, as CSSOM does.  Values built by
      template literals keep their numbers as numbers ([css_px],
      [css_max_height], ...).  Assignments are recorded as written.
    - Layout measurements ([offsetHeight], [scrollHeight]) are fields of
      the content panel supplied by the environment.
    - Callbacks handed to the browser ([requestAnimationFrame],
      [setTimeout], [addEventListener]) are first-order data kept in the
      world; the browser's side is a set of events ([event]).
    - [console.log] and the reads that only feed it are left out. *)

From Stdlib Require Import QArith ZArith Ascii String.
From stdpp Require Import gmap strings list fin_maps.
Local Open Scope string_scope.
Local Open Scope list_scope.

(* ================================================================== *)
(** * Numbers and [parseFloat]                                          *)
(* ================================================================== *)

Inductive number :=
  | NaN
  | Infinity (negative : bool)
  | Finite (q : Q).

Definition num (z : Z) : number := Finite (inject_Z z).

(** [x > 0] on numbers: false for [NaN]. *)
Definition num_gt0 (x : number) : bool :=
  match x with
  | NaN => false
  | Infinity negative => negb negative
  | Finite q => (0 <? Qnum q)%Z
  end.

(** [x * y] and [x + y], with [NaN] absorbing; the script only multiplies
    and adds a number and a positive literal ([s.duration * 1000],
    [... + 100]) or an index ([s.stagger * i]). *)
Definition num_mul (x y : number) : number :=
  match x, y with
  | Finite a, Finite b => Finite (Qred (a * b)%Q)
  | NaN, _ | _, NaN => NaN
  | Infinity n, Finite b | Finite b, Infinity n =>
      if (Qnum b =? 0)%Z then NaN else Infinity (xorb n (Qnum b <? 0)%Z)
  | Infinity n, Infinity n' => Infinity (xorb n n')
  end.

Definition num_add (x y : number) : number :=
  match x, y with
  | Finite a, Finite b => Finite (Qred (a + b)%Q)
  | NaN, _ | _, NaN => NaN
  | Infinity n, Finite _ | Finite _, Infinity n => Infinity n
  | Infinity n, Infinity n' => if Bool.eqb n n' then Infinity n else NaN
  end.

Module ParseFloat.

(** The ASCII members of StrWhiteSpaceChar: TAB, LF, VT, FF, CR, SP. *)
Definition is_ws (c : ascii) : bool :=
  let n := nat_of_ascii c in
  (((9 <=? n) && (n <=? 13)) || (n =? 32))%nat.

Definition is_digit (c : ascii) : bool :=
  let n := nat_of_ascii c in ((48 <=? n) && (n <=? 57))%nat.

Definition digit_val (c : ascii) : Z := (Z.of_nat (nat_of_ascii c) - 48)%Z.

Fixpoint skip_ws (s : string) : string :=
  match s with
  | String c s' => if is_ws c then skip_ws s' else s
  | EmptyString => s
  end.

(** The longest run of decimal digits at the head of [s], accumulated
    onto [acc]: the value, how many digits were read, and the rest. *)
Fixpoint read_digits (acc : Z) (n : nat) (s : string) : Z * nat * string :=
  match s with
  | String c s' =>
      if is_digit c then read_digits (10 * acc + digit_val c)%Z (S n) s'
      else (acc, n, s)
  | EmptyString => (acc, n, s)
  end.

Definition read_sign (s : string) : bool * string :=
  match s with
  | String "-" s' => (true, s')
  | String "+" s' => (false, s')
  | _ => (false, s)
  end.

(** ExponentPart, when well formed; otherwise no exponent is consumed. *)
Definition read_exponent (s : string) : Z :=
  match s with
  | String c s' =>
      if (c =? "e")%char || (c =? "E")%char then
        let '(neg, s'') := read_sign s' in
        let '(e, n, _) := read_digits 0 0 s'' in
        match n with
        | O => 0%Z
        | S _ => if neg then (- e)%Z else e
        end
      else 0%Z
  | EmptyString => 0%Z
  end.

(** [parseFloat]: leading white space is skipped, then the longest
    prefix that is a StrDecimalLiteral is converted; [NaN] when there
    is none. *)
Definition parseFloat (raw : string) : number :=
  let '(neg, s) := read_sign (skip_ws raw) in
  if String.prefix "Infinity" s then Infinity neg
  else
    let '(ip, ni, s1) := read_digits 0 0 s in
    let '(m, nf, s2) :=
      match s1 with
      | String "." s' => read_digits ip 0 s'
      | _ => (ip, O, s1)
      end in
    match ni, nf with
    | O, O => NaN
    | _, _ =>
        let e := read_exponent s2 in
        let v := (inject_Z m * Qpower (10 # 1) (e - Z.of_nat nf)%Z)%Q in
        Finite (Qred (if neg then (- v)%Q else v))
    end.

End ParseFloat.
Export ParseFloat.

(* ================================================================== *)
(** * Attribute readers                                                 *)
(* ================================================================== *)

(** The attributes of an element, by name. *)
Abbreviation attributes := (gmap string string).

(** [el?.getAttribute(name)]: [None] stands for both [null] (attribute
    absent) and [undefined] (no element). *)
Definition getAttribute (el : option attributes) (name : string) : option string :=
  el ≫= λ a, a !! name.

Definition dataNum (el : option attributes) (attr : string) (fallback : number)
  : number :=
  match getAttribute el ("data-" +:+ attr) with
  | Some raw => parseFloat raw
  | None => fallback
  end.

Definition dataStr (el : option attributes) (attr : string) (fallback : string)
  : string :=
  match getAttribute el ("data-" +:+ attr) with
  | Some raw => raw
  | None => fallback
  end.

Definition dataBool (el : option attributes) (attr : string) (fallback : bool)
  : bool :=
  match getAttribute el ("data-" +:+ attr) with
  | None => fallback
  | Some raw => bool_decide (raw = "true")
  end.

(* ================================================================== *)
(** * Animation settings                                                *)
(* ================================================================== *)

Record settings := {
  duration : number;
  easing : string;
  contentFade : bool;
  fadeDuration : number;
  slideDistance : number;
  stagger : number
}.

(** [this.defaults] as the constructor reads it off the container. *)
Definition container_defaults (container : attributes) : settings :=
  {| duration := dataNum (Some container) "duration" (Finite (2 # 5));
     easing := dataStr (Some container) "easing" "ease";
     contentFade := dataBool (Some container) "content-fade" true;
     fadeDuration := dataNum (Some container) "fade-duration" (Finite (3 # 10));
     slideDistance := dataNum (Some container) "slide-distance" (num 10);
     stagger := dataNum (Some container) "stagger" (num 0) |}.

Definition hasAttribute (el : attributes) (name : string) : bool :=
  bool_decide (is_Some (el !! name)).

(** [_getSettings(item)], given [this.defaults] and
    [prefersReducedMotion.matches]. *)
Definition _getSettings (defaults : settings) (reduced : bool) (item : attributes)
  : settings :=
  let s := defaults in
  let s_duration :=
    if hasAttribute item "data-duration"
    then dataNum (Some item) "duration" (duration s) else duration s in
  let s_easing :=
    if hasAttribute item "data-easing"
    then dataStr (Some item) "easing" (easing s) else easing s in
  let s_contentFade :=
    if hasAttribute item "data-content-fade"
    then dataBool (Some item) "content-fade" (contentFade s) else contentFade s in
  let s_fadeDuration :=
    if hasAttribute item "data-fade-duration"
    then dataNum (Some item) "fade-duration" (fadeDuration s) else fadeDuration s in
  let s_slideDistance :=
    if hasAttribute item "data-slide-distance"
    then dataNum (Some item) "slide-distance" (slideDistance s)
    else slideDistance s in
  let s_stagger :=
    if hasAttribute item "data-stagger"
    then dataNum (Some item) "stagger" (stagger s) else stagger s in
  {| duration := if reduced then num 0 else s_duration;
     easing := s_easing;
     contentFade := s_contentFade;
     fadeDuration := if reduced then num 0 else s_fadeDuration;
     slideDistance := s_slideDistance;
     stagger := if reduced then num 0 else s_stagger |}.

(* ================================================================== *)
(** * Inline styles                                                     *)
(* ================================================================== *)

(** The strings the script assigns to style properties. *)
Inductive css_value :=
  | css_str (s : string)
      (** a literal or an attribute value: ['none'], ['hidden'], ['0'],
          ['1'], ['0px'], ['translateY(0)'], [s.easing], [''] *)
  | css_px (n : Z)
      (** [n + 'px'] for a measured height *)
  | css_seconds (d : number)
      (** [`${d}s`] *)
  | css_max_height (d : number) (ease : string)
      (** [`max-height ${d}s ${ease}`] *)
  | css_translateY (negated : bool) (n : number)
      (** [`translateY(${n}px)`] and [`translateY(-${n}px)`] *)
  | css_fade (d : number) (ease : string) (delay : option number).
      (** [`opacity ${d}s ${ease} ${delay}ms, transform ${d}s ${ease} ${delay}ms`],
          and the same without the delays *)

(** A declaration: its value and whether it carries [!important]. *)
Abbreviation style := (gmap string (css_value * bool)).

(** [el.style.prop = v] and [el.style.setProperty(prop, v)]: the empty
    string removes the declaration; otherwise the declaration is set
    without priority. *)
Definition style_set (prop : string) (v : css_value) (st : style) : style :=
  match v with
  | css_str "" => delete prop st
  | _ => <[prop := (v, false)]> st
  end.

(** [el.style.setProperty(prop, v, 'important')]. *)
Definition style_setImportant (prop : string) (v : css_value) (st : style) : style :=
  match v with
  | css_str "" => delete prop st
  | _ => <[prop := (v, true)]> st
  end.

(** [el.style.prop]: the empty string when there is no declaration. *)
Definition style_get (st : style) (prop : string) : css_value :=
  match st !! prop with
  | Some (v, _) => v
  | None => css_str ""
  end.

(** [v === lit] for a string literal [lit]; the values built by the
    templates above never spell ['none']. *)
Definition css_is (v : css_value) (lit : string) : bool :=
  match v with
  | css_str s => bool_decide (s = lit)
  | _ => false
  end.

(* ================================================================== *)
(** * Elements                                                          *)
(* ================================================================== *)

(** An element that may be animated: a direct child of the content
    panel, or an element child of a list inside it. *)
Record element := {
  tagName : string;
  el_style : style
}.

(** A direct child of the content panel, with the result of
    [child.querySelectorAll('ul, ol')]: each list as its element
    children. *)
Record child := {
  child_el : element;
  child_lists : list (list element)
}.

(** Closures registered as [transitionend] listeners.  Every call of
    [_openItem] and [_closeItem] creates its own closures; [k] names the
    call. *)
Inductive listener :=
  | onEnd (k : nat)
  | debugHandler (k : nat)
  | transitionEndHandler (k : nat) (s : settings).

(** The toggle button. *)
Record toggle_el := {
  t_id : string;
  t_attributes : attributes
}.

(** The content panel. *)
Record content_el := {
  c_id : string;
  c_attributes : attributes;
  c_hidden : bool;
  c_classList : gset string;
  c_dataset : gmap string string;
  c_style : style;
  c_children : list child;
  c_offsetHeight : Z;   (** [offsetHeight] with max-height released *)
  c_scrollHeight : Z;
  c_listeners : list (listener * bool)   (** with the capture flag *)
}.

(** A [.wp-block-accordion-item] element: [i_toggle] and [i_content] are
    [item.querySelector('.aa-toggle-button')] and
    [item.querySelector('.wp-block-accordion-content')]; [i_closest] is
    [item.closest('.wp-block-advanced-accordion')].  Items do not share
    their toggle, panel or animated elements. *)
Record item := {
  i_attributes : attributes;
  i_classList : gset string;
  i_style : style;
  i_toggle : option toggle_el;
  i_content : option content_el;
  i_closest : option nat
}.

(** ** Field updates *)

Definition with_el_style (f : style → style) (e : element) : element :=
  {| tagName := tagName e; el_style := f (el_style e) |}.

Definition with_t_attributes (f : attributes → attributes) (t : toggle_el) : toggle_el :=
  {| t_id := t_id t; t_attributes := f (t_attributes t) |}.

Definition with_t_id (x : string) (t : toggle_el) : toggle_el :=
  {| t_id := x; t_attributes := t_attributes t |}.

Definition with_c_id (x : string) (c : content_el) : content_el :=
  {| c_id := x; c_attributes := c_attributes c; c_hidden := c_hidden c;
     c_classList := c_classList c; c_dataset := c_dataset c;
     c_style := c_style c; c_children := c_children c;
     c_offsetHeight := c_offsetHeight c; c_scrollHeight := c_scrollHeight c;
     c_listeners := c_listeners c |}.

Definition with_c_attributes (f : attributes → attributes) (c : content_el) : content_el :=
  {| c_id := c_id c; c_attributes := f (c_attributes c); c_hidden := c_hidden c;
     c_classList := c_classList c; c_dataset := c_dataset c;
     c_style := c_style c; c_children := c_children c;
     c_offsetHeight := c_offsetHeight c; c_scrollHeight := c_scrollHeight c;
     c_listeners := c_listeners c |}.

Definition with_c_hidden (b : bool) (c : content_el) : content_el :=
  {| c_id := c_id c; c_attributes := c_attributes c; c_hidden := b;
     c_classList := c_classList c; c_dataset := c_dataset c;
     c_style := c_style c; c_children := c_children c;
     c_offsetHeight := c_offsetHeight c; c_scrollHeight := c_scrollHeight c;
     c_listeners := c_listeners c |}.

Definition with_c_classList (f : gset string → gset string) (c : content_el) : content_el :=
  {| c_id := c_id c; c_attributes := c_attributes c; c_hidden := c_hidden c;
     c_classList := f (c_classList c); c_dataset := c_dataset c;
     c_style := c_style c; c_children := c_children c;
     c_offsetHeight := c_offsetHeight c; c_scrollHeight := c_scrollHeight c;
     c_listeners := c_listeners c |}.

Definition with_c_dataset (f : gmap string string → gmap string string) (c : content_el)
  : content_el :=
  {| c_id := c_id c; c_attributes := c_attributes c; c_hidden := c_hidden c;
     c_classList := c_classList c; c_dataset := f (c_dataset c);
     c_style := c_style c; c_children := c_children c;
     c_offsetHeight := c_offsetHeight c; c_scrollHeight := c_scrollHeight c;
     c_listeners := c_listeners c |}.

Definition with_c_style (f : style → style) (c : content_el) : content_el :=
  {| c_id := c_id c; c_attributes := c_attributes c; c_hidden := c_hidden c;
     c_classList := c_classList c; c_dataset := c_dataset c;
     c_style := f (c_style c); c_children := c_children c;
     c_offsetHeight := c_offsetHeight c; c_scrollHeight := c_scrollHeight c;
     c_listeners := c_listeners c |}.

Definition with_c_children (f : list child → list child) (c : content_el) : content_el :=
  {| c_id := c_id c; c_attributes := c_attributes c; c_hidden := c_hidden c;
     c_classList := c_classList c; c_dataset := c_dataset c;
     c_style := c_style c; c_children := f (c_children c);
     c_offsetHeight := c_offsetHeight c; c_scrollHeight := c_scrollHeight c;
     c_listeners := c_listeners c |}.

Definition with_c_listeners (f : list (listener * bool) → list (listener * bool))
    (c : content_el) : content_el :=
  {| c_id := c_id c; c_attributes := c_attributes c; c_hidden := c_hidden c;
     c_classList := c_classList c; c_dataset := c_dataset c;
     c_style := c_style c; c_children := c_children c;
     c_offsetHeight := c_offsetHeight c; c_scrollHeight := c_scrollHeight c;
     c_listeners := f (c_listeners c) |}.

Definition with_i_classList (f : gset string → gset string) (it : item) : item :=
  {| i_attributes := i_attributes it; i_classList := f (i_classList it);
     i_style := i_style it; i_toggle := i_toggle it; i_content := i_content it;
     i_closest := i_closest it |}.

Definition with_i_style (f : style → style) (it : item) : item :=
  {| i_attributes := i_attributes it; i_classList := i_classList it;
     i_style := f (i_style it); i_toggle := i_toggle it; i_content := i_content it;
     i_closest := i_closest it |}.

Definition with_i_toggle (f : toggle_el → toggle_el) (it : item) : item :=
  {| i_attributes := i_attributes it; i_classList := i_classList it;
     i_style := i_style it; i_toggle := f <$> i_toggle it; i_content := i_content it;
     i_closest := i_closest it |}.

Definition with_i_content (f : content_el → content_el) (it : item) : item :=
  {| i_attributes := i_attributes it; i_classList := i_classList it;
     i_style := i_style it; i_toggle := i_toggle it; i_content := f <$> i_content it;
     i_closest := i_closest it |}.

(* ================================================================== *)
(** * Instances, scheduled callbacks and the world                      *)
(* ================================================================== *)

(** An [AdvancedAccordion] instance: what the constructor stores.
    Containers are named by a number; items by their position in the
    document. *)
Record instance := {
  container : nat;
  autoClose : bool;
  allowMultiple : bool;
  defaults : settings;
  items : list nat
}.

(** Callbacks passed to [requestAnimationFrame], with the variables
    they close over. *)
Inductive frame_callback :=
  | openFrame (i : nat) (dur : number) (s : settings) (targetHeight : Z)
      (instant : bool)
  | closeFrame (i : nat) (s : settings).

(** Callbacks passed to [setTimeout]: the fallback of close call [k] on
    item [i], and the two probes of the close frame that only log. *)
Inductive timer_callback :=
  | fallbackTimeout (k : nat) (i : nat) (s : settings)
  | logProbe.

Record timer := {
  callback : timer_callback;
  delay : number
}.

Record world := {
  doc : list item;                 (** every [.wp-block-accordion-item], in document order *)
  registry : gmap nat instance;    (** [AdvancedAccordion._instances] *)
  reducedMotion : bool;            (** [prefersReducedMotion.matches] *)
  frames : list frame_callback;    (** pending animation-frame callbacks *)
  timers : list timer;             (** pending timeouts *)
  hasCompleted : gset nat;         (** the close calls whose [hasCompleted] is true *)
  nextClosure : nat                (** names the next call that creates closures *)
}.

Definition with_doc (f : list item → list item) (w : world) : world :=
  {| doc := f (doc w); registry := registry w; reducedMotion := reducedMotion w;
     frames := frames w; timers := timers w; hasCompleted := hasCompleted w;
     nextClosure := nextClosure w |}.

Definition with_registry (f : gmap nat instance → gmap nat instance) (w : world) : world :=
  {| doc := doc w; registry := f (registry w); reducedMotion := reducedMotion w;
     frames := frames w; timers := timers w; hasCompleted := hasCompleted w;
     nextClosure := nextClosure w |}.

Definition with_reducedMotion (b : bool) (w : world) : world :=
  {| doc := doc w; registry := registry w; reducedMotion := b;
     frames := frames w; timers := timers w; hasCompleted := hasCompleted w;
     nextClosure := nextClosure w |}.

Definition with_frames (f : list frame_callback → list frame_callback) (w : world) : world :=
  {| doc := doc w; registry := registry w; reducedMotion := reducedMotion w;
     frames := f (frames w); timers := timers w; hasCompleted := hasCompleted w;
     nextClosure := nextClosure w |}.

Definition with_timers (f : list timer → list timer) (w : world) : world :=
  {| doc := doc w; registry := registry w; reducedMotion := reducedMotion w;
     frames := frames w; timers := f (timers w); hasCompleted := hasCompleted w;
     nextClosure := nextClosure w |}.

Definition with_hasCompleted (f : gset nat → gset nat) (w : world) : world :=
  {| doc := doc w; registry := registry w; reducedMotion := reducedMotion w;
     frames := frames w; timers := timers w; hasCompleted := f (hasCompleted w);
     nextClosure := nextClosure w |}.

Definition with_nextClosure (f : nat → nat) (w : world) : world :=
  {| doc := doc w; registry := registry w; reducedMotion := reducedMotion w;
     frames := frames w; timers := timers w; hasCompleted := hasCompleted w;
     nextClosure := f (nextClosure w) |}.

(** Mutation of item [i] in place. *)
Definition with_item (i : nat) (f : item → item) (w : world) : world :=
  with_doc (alter f i) w.

Definition requestAnimationFrame (cb : frame_callback) (w : world) : world :=
  with_frames (λ q, q ++ [cb]) w.

Definition setTimeout (cb : timer_callback) (ms : number) (w : world) : world :=
  with_timers (λ q, q ++ [{| callback := cb; delay := ms |}]) w.

Definition is_fallback (k : nat) (t : timer) : bool :=
  match callback t with
  | fallbackTimeout k' _ _ => bool_decide (k' = k)
  | logProbe => false
  end.

(** [clearTimeout(fallbackTimeout)] of close call [k]. *)
Definition clearTimeout (k : nat) (w : world) : world :=
  with_timers (List.filter (λ t, negb (is_fallback k t))) w.

(** ** Operations on an item's elements, as the script spells them *)

Definition classList_add (c : string) (cl : gset string) : gset string := {[c]} ∪ cl.
Definition classList_remove (c : string) (cl : gset string) : gset string := cl ∖ {[c]}.
Definition classList_contains (cl : gset string) (c : string) : bool :=
  bool_decide (c ∈ cl).

Definition toggle_setAttribute (name value : string) (it : item) : item :=
  with_i_toggle (with_t_attributes (<[name := value]>)) it.

Definition content_style (prop : string) (v : css_value) (it : item) : item :=
  with_i_content (with_c_style (style_set prop v)) it.

Definition content_styleImportant (prop : string) (v : css_value) (it : item) : item :=
  with_i_content (with_c_style (style_setImportant prop v)) it.

Definition listener_eqb (a b : listener) : bool :=
  match a, b with
  | onEnd k, onEnd k' => bool_decide (k = k')
  | debugHandler k, debugHandler k' => bool_decide (k = k')
  | transitionEndHandler k _, transitionEndHandler k' _ => bool_decide (k = k')
  | _, _ => false
  end.

Definition registration_eqb (a b : listener * bool) : bool :=
  listener_eqb (fst a) (fst b) && Bool.eqb (snd a) (snd b).

(** [content.addEventListener('transitionend', l, capture)]. *)
Definition addEventListener (l : listener) (capture : bool) (it : item) : item :=
  with_i_content
    (with_c_listeners (λ ls,
       if existsb (registration_eqb (l, capture)) ls then ls
       else ls ++ [(l, capture)])) it.

(** [content.removeEventListener('transitionend', l, capture)]: only a
    registration with the same capture flag is removed. *)
Definition removeEventListener (l : listener) (capture : bool) (it : item) : item :=
  with_i_content
    (with_c_listeners
       (List.filter (λ r, negb (registration_eqb (l, capture) r)))) it.

(** ** [_getAnimatableElements] *)

Definition is_LI (e : element) : bool := bool_decide (tagName e = "LI").

Definition _getAnimatableElements (content : content_el) : list element :=
  flat_map
    (λ ch, match child_lists ch with
           | [] => [child_el ch]
           | lists => flat_map (List.filter is_LI) lists
           end)
    (c_children content).

(** [this._getAnimatableElements(content).forEach((child, i) => ...)]
    where the body assigns to [child.style]: [f i] is applied to the
    style of the [i]-th element of the array, in place. *)
Fixpoint forEach_listItems (f : nat → style → style) (i : nat) (l : list element)
  : nat * list element :=
  match l with
  | [] => (i, [])
  | e :: l' =>
      if is_LI e then
        let '(j, r) := forEach_listItems f (S i) l' in
        (j, with_el_style (f i) e :: r)
      else
        let '(j, r) := forEach_listItems f i l' in (j, e :: r)
  end.

Fixpoint forEach_lists (f : nat → style → style) (i : nat) (ls : list (list element))
  : nat * list (list element) :=
  match ls with
  | [] => (i, [])
  | l :: ls' =>
      let '(j, l1) := forEach_listItems f i l in
      let '(j', r) := forEach_lists f j ls' in
      (j', l1 :: r)
  end.

Fixpoint forEach_children (f : nat → style → style) (i : nat) (cs : list child)
  : nat * list child :=
  match cs with
  | [] => (i, [])
  | ch :: cs' =>
      match child_lists ch with
      | [] =>
          let '(j, r) := forEach_children f (S i) cs' in
          (j, {| child_el := with_el_style (f i) (child_el ch);
                 child_lists := [] |} :: r)
      | lists =>
          let '(j, lists1) := forEach_lists f i lists in
          let '(j', r) := forEach_children f j cs' in
          (j', {| child_el := child_el ch; child_lists := lists1 |} :: r)
      end
  end.

Definition forEach_animatable (f : nat → style → style) (it : item) : item :=
  with_i_content (with_c_children (λ cs, snd (forEach_children f 0 cs))) it.

(* ================================================================== *)
(** * Opening and closing an item                                       *)
(* ================================================================== *)

Definition toggle_noFade (s : settings) (it : item) : item :=
  with_i_content
    (with_c_classList
       (if contentFade s then classList_remove "aa-no-fade"
        else classList_add "aa-no-fade")) it.

Definition _fadeInChildren (s : settings) (it : item) : item :=
  forEach_animatable
    (λ i st,
       let delay := num_mul (stagger s) (num (Z.of_nat i)) in
       style_set "transform" (css_str "translateY(0)")
         (style_set "opacity" (css_str "1")
            (style_set "transition"
               (css_fade (fadeDuration s) (easing s) (Some delay)) st)))
    it.

Definition _fadeOutChildren (s : settings) (it : item) : item :=
  forEach_animatable
    (λ _ st,
       style_set "transform" (css_translateY true (slideDistance s))
         (style_set "opacity" (css_str "0")
            (style_set "transition"
               (css_fade (fadeDuration s) (easing s) None) st)))
    it.

(** [_openItem(item, instant)] on instance [this]. *)
Definition _openItem (this : instance) (i : nat) (instant : bool) (w : world) : world :=
  match doc w !! i with
  | None => w
  | Some item =>
      match i_toggle item, i_content item with
      | Some _, Some content =>
          let s := _getSettings (defaults this) (reducedMotion w) (i_attributes item) in
          let dur := if instant then num 0 else duration s in
          let it := with_i_classList (classList_add "is-open") item in
          let it := toggle_setAttribute "aria-expanded" "true" it in
          let it := with_i_content (with_c_hidden false) it in
          let it := toggle_noFade s it in
          let it := with_i_style (style_set "--aa-duration" (css_seconds dur)) it in
          let it := with_i_style (style_set "--aa-easing" (css_str (easing s))) it in
          let it :=
            if contentFade s && negb instant then
              forEach_animatable
                (λ _ st,
                   style_set "transform" (css_translateY false (slideDistance s))
                     (style_set "opacity" (css_str "0") st))
                it
            else it in
          let it := content_style "transition" (css_str "none") it in
          let it := content_style "max-height" (css_str "none") it in
          let it := content_style "overflow" (css_str "hidden") it in
          let targetHeight := c_offsetHeight content in
          let it := content_style "max-height" (css_str "0") it in
          let w := with_doc (<[i := it]>) w in
          let w := requestAnimationFrame (openFrame i dur s targetHeight instant) w in
          let k := nextClosure w in
          let w := with_nextClosure S w in
          if num_gt0 dur then with_item i (addEventListener (onEnd k) false) w
          else with_item i (content_style "max-height" (css_str "none")) w
      | _, _ => w
      end
  end.

(** The frame callback of [_openItem]. *)
Definition run_openFrame (i : nat) (dur : number) (s : settings) (targetHeight : Z)
    (instant : bool) (w : world) : world :=
  with_item i
    (λ it,
       let it := content_style "transition" (css_max_height dur (easing s)) it in
       let it := content_style "max-height" (css_px targetHeight) it in
       if contentFade s && negb instant then _fadeInChildren s it else it)
    w.

(** A [transitionend] event seen at a content panel: whether the panel
    itself is [e.target] (otherwise it bubbles from a descendant), and
    [e.propertyName]. *)
Record transition_event := {
  target_is_content : bool;
  propertyName : string
}.

(** [onEnd] of [_openItem], call [k], on panel [i]. *)
Definition run_onEnd (k i : nat) (e : transition_event) (w : world) : world :=
  if negb (bool_decide (propertyName e = "max-height")) then w
  else
    with_item i
      (λ it, removeEventListener (onEnd k) false
               (content_style "max-height" (css_str "none") it))
      w.

(** [cleanup] of close call [k] on item [i]. *)
Definition cleanup (k i : nat) (s : settings) (w : world) : world :=
  if bool_decide (k ∈ hasCompleted w) then w
  else
    let w := with_hasCompleted (λ h, {[k]} ∪ h) w in
    with_item i
      (λ it,
         let it := with_i_classList (classList_remove "is-open") it in
         let it := toggle_setAttribute "aria-expanded" "false" it in
         let it := with_i_content (with_c_hidden true) it in
         let it := content_style "max-height" (css_str "") it in
         let it := content_style "transition" (css_str "") it in
         let it := content_style "overflow" (css_str "") it in
         let it := content_style "opacity" (css_str "") it in
         let it :=
           if contentFade s then
             forEach_animatable
               (λ _ st,
                  style_set "transform" (css_str "")
                    (style_set "opacity" (css_str "")
                       (style_set "transition" (css_str "") st)))
               it
           else it in
         with_i_content (with_c_dataset (<["isClosing" := "false"]>)) it)
      w.

(** [_closeItem(item)] on instance [this]. *)
Definition _closeItem (this : instance) (i : nat) (w : world) : world :=
  match doc w !! i with
  | None => w
  | Some item =>
      match i_toggle item, i_content item with
      | Some _, Some content =>
          if bool_decide (c_dataset content !! "isClosing" = Some "true") then w
          else
            let it := with_i_content (with_c_dataset (<["isClosing" := "true"]>)) item in
            let s := _getSettings (defaults this) (reducedMotion w) (i_attributes item) in
            let it :=
              with_i_style (style_set "--aa-duration" (css_seconds (duration s))) it in
            let it := with_i_style (style_set "--aa-easing" (css_str (easing s))) it in
            let it := toggle_noFade s it in
            let currentHeight := c_scrollHeight content in
            let it := content_style "transition" (css_str "none") it in
            let it := content_style "overflow" (css_str "hidden") it in
            let it := content_styleImportant "max-height" (css_px currentHeight) it in
            let w := with_doc (<[i := it]>) w in
            let k := nextClosure w in
            let w := with_nextClosure S w in
            (* let hasCompleted = false *)
            let w := with_hasCompleted (λ h, h ∖ {[k]}) w in
            if num_gt0 (duration s) then
              let w := with_item i (addEventListener (debugHandler k) true) w in
              let w := with_item i (addEventListener (transitionEndHandler k s) false) w in
              let w :=
                setTimeout (fallbackTimeout k i s)
                  (num_add (num_mul (duration s) (num 1000)) (num 100)) w in
              requestAnimationFrame (closeFrame i s) w
            else
              let w := with_item i (content_style "max-height" (css_str "0px")) w in
              cleanup k i s w
      | _, _ => w
      end
  end.

(** The frame callback of [_closeItem]. *)
Definition run_closeFrame (i : nat) (s : settings) (w : world) : world :=
  let w :=
    with_item i
      (λ it,
         let it :=
           content_style "transition" (css_max_height (duration s) (easing s)) it in
         content_styleImportant "max-height" (css_str "0px") it)
      w in
  let w := setTimeout logProbe (num 10) w in
  let w := setTimeout logProbe (num 100) w in
  if contentFade s then with_item i (_fadeOutChildren s) w else w.

(** [transitionEndHandler] of close call [k], on panel [i]. *)
Definition run_transitionEndHandler (k i : nat) (s : settings) (e : transition_event)
    (w : world) : world :=
  if negb (target_is_content e) || negb (bool_decide (propertyName e = "max-height"))
  then w
  else
    let w := with_item i (removeEventListener (transitionEndHandler k s) false) w in
    let w := with_item i (removeEventListener (debugHandler k) true) w in
    let w := clearTimeout k w in
    cleanup k i s w.

(** The fallback timeout of close call [k], once it fires. *)
Definition run_fallbackTimeout (k i : nat) (s : settings) (w : world) : world :=
  let w := with_item i (removeEventListener (transitionEndHandler k s) false) w in
  let w := with_item i (removeEventListener (debugHandler k) false) w in
  cleanup k i s w.

Definition run_frame_callback (cb : frame_callback) (w : world) : world :=
  match cb with
  | openFrame i dur s targetHeight instant => run_openFrame i dur s targetHeight instant w
  | closeFrame i s => run_closeFrame i s w
  end.

Definition run_timer_callback (cb : timer_callback) (w : world) : world :=
  match cb with
  | fallbackTimeout k i s => run_fallbackTimeout k i s w
  | logProbe => w
  end.

Definition listeners_of (i : nat) (w : world) : list (listener * bool) :=
  match doc w !! i with
  | Some it => from_option c_listeners [] (i_content it)
  | None => []
  end.

(** One listener's turn during a dispatch: a listener removed earlier
    in the same dispatch is skipped. *)
Definition run_listener (i : nat) (e : transition_event) (w : world)
    (r : listener * bool) : world :=
  if existsb (registration_eqb r) (listeners_of i w) then
    match fst r with
    | onEnd k => run_onEnd k i e w
    | debugHandler _ => w
    | transitionEndHandler k s => run_transitionEndHandler k i s e w
    end
  else w.

(** The listeners of panel [i] handle [e]: capturing ones first, each
    group in registration order, over the list as it is when the
    dispatch starts. *)
Definition dispatch_transitionend (i : nat) (e : transition_event) (w : world) : world :=
  let ls := listeners_of i w in
  foldl (run_listener i e) w
    (List.filter (λ r, snd r) ls ++ List.filter (λ r, negb (snd r)) ls).

(* ================================================================== *)
(** * Hydration                                                         *)
(* ================================================================== *)

(** [_initItem(item)]; [rand] stands for
    [Math.random().toString(36).slice(2, 10)].  The click listener it
    attaches is the [Click] event below. *)
Definition _initItem (this : instance) (rand : string) (w : world) (i : nat) : world :=
  match doc w !! i with
  | None => w
  | Some item =>
      match i_toggle item, i_content item with
      | Some _, Some _ =>
          let id :=
            match i_attributes item !! "data-item-id" with
            | Some x => if bool_decide (x = "") then "aa-" +:+ rand else x
            | None => "aa-" +:+ rand
            end in
          let toggleId := id +:+ "-toggle" in
          let contentId := id +:+ "-content" in
          let it := with_i_toggle (with_t_id toggleId) item in
          let it := with_i_content (with_c_id contentId) it in
          let it := toggle_setAttribute "aria-controls" contentId it in
          let it :=
            with_i_content (with_c_attributes (<["aria-labelledby" := toggleId]>)) it in
          let w := with_doc (<[i := it]>) w in
          let openDefault := dataBool (Some (i_attributes item)) "open-default" false in
          if openDefault then _openItem this i true w
          else
            with_item i
              (λ it,
                 let it := toggle_setAttribute "aria-expanded" "false" it in
                 let it := with_i_content (with_c_hidden true) it in
                 let it := content_style "max-height" (css_str "0") it in
                 content_style "overflow" (css_str "hidden") it)
              w
      | _, _ => w
      end
  end.

(** The constructor over a container with attributes [attrs] whose
    direct-child items are [children], followed by the registration
    that [init] performs. *)
Definition construct (c : nat) (attrs : attributes) (children : list nat) : instance :=
  {| container := c;
     autoClose := dataBool (Some attrs) "auto-close" false;
     allowMultiple := dataBool (Some attrs) "allow-multiple" true;
     defaults := container_defaults attrs;
     items := children |}.

Definition hydrate (c : nat) (attrs : attributes) (children : list nat) (rand : string)
    (w : world) : world :=
  let this := construct c attrs children in
  let w := foldl (_initItem this rand) w (items this) in
  with_registry (<[c := this]>) w.

(* ================================================================== *)
(** * Toggle, linked groups, auto-close                                 *)
(* ================================================================== *)

Definition is_open (w : world) (i : nat) : bool :=
  match doc w !! i with
  | Some it => classList_contains (i_classList it) "is-open"
  | None => false
  end.

(** [item.getAttribute('data-link-group')]. *)
Definition linkGroup (w : world) (i : nat) : option string :=
  match doc w !! i with
  | Some it => i_attributes it !! "data-link-group"
  | None => None
  end.

(** A group id as the script tests it: [null] and the empty string are
    falsy. *)
Definition truthy (g : option string) : bool :=
  match g with
  | Some x => negb (bool_decide (x = ""))
  | None => false
  end.

(** [AdvancedAccordion.instanceForItem(item)]. *)
Definition instanceForItem (w : world) (i : nat) : option instance :=
  match doc w !! i with
  | Some it =>
      match i_closest it with
      | Some c => registry w !! c
      | None => None
      end
  | None => None
  end.

Definition _openItemGlobal (this : instance) (w : world) (i : nat) : world :=
  match instanceForItem w i with
  | Some inst => _openItem inst i false w
  | None => _openItem this i false w
  end.

Definition _closeItemGlobal (this : instance) (w : world) (i : nat) : world :=
  match instanceForItem w i with
  | Some inst => _closeItem inst i w
  | None => _closeItem this i w
  end.

(** Characters that end or escape a double-quoted CSS string. *)
Definition selector_char_plain (c : ascii) : bool :=
  let n := nat_of_ascii c in
  negb ((n =? 34) || (n =? 92) || (n =? 10) || (n =? 13) || (n =? 12) || (n =? 0))%nat.

Definition selector_plain (g : string) : bool :=
  forallb selector_char_plain (list_ascii_of_string g).

(** [document.querySelectorAll(`.wp-block-accordion-item[data-link-group="${groupId}"]`)]
    for a group id that the quoted selector string denotes literally:
    the items carrying exactly that attribute value, in document order.
    For other ids (a quote, a backslash or a line break inside) what the
    selector means, or whether it parses, is outside this model: [None]. *)
Definition querySelectorAll_linkGroup (w : world) (groupId : string) : option (list nat) :=
  if selector_plain groupId then
    Some (List.filter
            (λ j, bool_decide (linkGroup w j = Some groupId))
            (seq 0 (length (doc w))))
  else None.

(** The body of the loop of [_syncLinkedGroup] for one [linkedItem]. *)
Definition syncLinked_item (this : instance) (triggerItem : nat) (shouldOpen : bool)
    (w : world) (linkedItem : nat) : world :=
  if bool_decide (linkedItem = triggerItem) then w
  else
    let isOpen := is_open w linkedItem in
    if shouldOpen && negb isOpen then _openItemGlobal this w linkedItem
    else if negb shouldOpen && isOpen then _closeItemGlobal this w linkedItem
    else w.

Definition _syncLinkedGroup (this : instance) (groupId : string) (triggerItem : nat)
    (shouldOpen : bool) (w : world) : option world :=
  allLinked ← querySelectorAll_linkGroup w groupId;
  Some (foldl (syncLinked_item this triggerItem shouldOpen) w allLinked).

(** The body of the auto-close loop for one [sibling]. *)
Definition autoClose_sibling (this : instance) (item : nat) (groupId : option string)
    (w : world) (sibling : nat) : world :=
  if negb (bool_decide (sibling = item)) && is_open w sibling then
    let siblingGroup := linkGroup w sibling in
    if truthy siblingGroup && bool_decide (siblingGroup = groupId) then w
    else _closeItem this sibling w
  else w.

(** [_toggle(item)] on instance [this]. *)
Definition _toggle (this : instance) (item : nat) (w : world) : option world :=
  let isOpen := is_open w item in
  let w := if isOpen then _closeItem this item w else _openItem this item false w in
  let groupId := linkGroup w item in
  w ← match groupId with
      | Some g =>
          if truthy groupId then _syncLinkedGroup this g item (negb isOpen) w
          else Some w
      | None => Some w
      end;
  Some (if negb isOpen && autoClose this then
          foldl (autoClose_sibling this item groupId) w (items this)
        else w).

(* ================================================================== *)
(** * Resize                                                            *)
(* ================================================================== *)

(** [item.querySelector('.wp-block-accordion-content')] for item [i]. *)
Definition content_of (w : world) (i : nat) : option content_el :=
  match doc w !! i with
  | Some it => i_content it
  | None => None
  end.

(** The body of the loop of [_recalcOpenHeights] for one item. *)
Definition recalc_item (w : world) (i : nat) : world :=
  if negb (is_open w i) then w
  else
    match content_of w i with
    | Some content =>
        if bool_decide (c_dataset content !! "isClosing" = Some "true") then w
        else if negb (css_is (style_get (c_style content) "max-height") "none") then
          with_item i (content_style "max-height" (css_px (c_scrollHeight content))) w
        else w
    | None => w
    end.

Definition _recalcOpenHeights (this : instance) (w : world) : world :=
  foldl recalc_item w (items this).

(* ================================================================== *)
(** * The browser's side                                                *)
(* ================================================================== *)

Inductive event :=
  | Hydrate (c : nat) (attrs : attributes) (children : list nat) (rand : string)
      (** a container is discovered and constructed *)
  | Click (this : instance) (i : nat)
      (** the toggle of item [i], wired by [this], is clicked *)
  | AnimationFrame
      (** the queued frame callbacks run *)
  | TransitionEnd (i : nat) (e : transition_event)
      (** a [transitionend] event reaches the panel of item [i] *)
  | Timeout (n : nat)
      (** the [n]-th pending timer fires *)
  | Resize (this : instance)
      (** the resize observer of [this] reports *)
  | MotionPreference (b : bool)
      (** the reduced-motion media query changes *)
  | Unregister (c : nat).
      (** [destroy] of the instance of container [c] *)

(** All callbacks queued for the frame run; those requested meanwhile
    wait for the next frame. *)
Definition run_frame (w : world) : world :=
  foldl (λ w cb, run_frame_callback cb w) (with_frames (λ _, []) w) (frames w).

Definition fire_timer (n : nat) (w : world) : world :=
  match timers w !! n with
  | Some t => run_timer_callback (callback t) (with_timers (delete n) w)
  | None => w
  end.

(** [None] only where [_toggle] leaves the model. *)
Definition handle (ev : event) (w : world) : option world :=
  match ev with
  | Hydrate c attrs children rand => Some (hydrate c attrs children rand w)
  | Click this i => _toggle this i w
  | AnimationFrame => Some (run_frame w)
  | TransitionEnd i e => Some (dispatch_transitionend i e w)
  | Timeout n => Some (fire_timer n w)
  | Resize this => Some (_recalcOpenHeights this w)
  | MotionPreference b => Some (with_reducedMotion b w)
  | Unregister c => Some (with_registry (delete c) w)
  end.

(** A run of events, left to right. *)
Fixpoint run (evs : list event) (w : world) : option world :=
  match evs with
  | [] => Some w
  | ev :: evs' => handle ev w ≫= run evs'
  end.

(* ================================================================== *)
(** * Keyboard navigation                                               *)
(* ================================================================== *)

(** [e.target] of a [keydown] event that reaches the container: the
    toggle button of item [i], or any other element. *)
Inductive key_target :=
  | toggle_button (i : nat)
  | other_element.

(** What [_handleKeyboard] does with the event: [e.preventDefault()],
    [next.focus()] on the toggle button of an item, [e.target.click()]
    on the toggle button of an item. *)
Record key_effect := {
  defaultPrevented : bool;
  focused : option nat;
  clicked : option nat
}.

Definition no_key_effect : key_effect :=
  {| defaultPrevented := false; focused := None; clicked := None |}.

(** [e.preventDefault(); next = ...; break] followed by [next?.focus()]. *)
Definition focus_effect (next : option nat) : key_effect :=
  {| defaultPrevented := true; focused := next; clicked := None |}.

(** [this.items.map((item) => item.querySelector('.aa-toggle-button')).filter(Boolean)]:
    a toggle button is named by its item. *)
Definition keyboard_toggles (this : instance) (w : world) : list nat :=
  List.filter
    (λ i, match doc w !! i with
          | Some it => match i_toggle it with Some _ => true | None => false end
          | None => false
          end)
    (items this).

(** [toggles.indexOf(x)], with [None] for [-1]. *)
Fixpoint indexOf (x : nat) (l : list nat) : option nat :=
  match l with
  | [] => None
  | y :: l' => if bool_decide (y = x) then Some 0%nat else S <$> indexOf x l'
  end.

(** [toggles[k]] for an integer [k]: [undefined] outside the array. *)
Definition array_get (l : list nat) (k : Z) : option nat :=
  if (k <? 0)%Z then None else l !! Z.to_nat k.

(** [_handleKeyboard(e)] with [e.target] and [e.key]. *)
Definition _handleKeyboard (this : instance) (target : key_target) (key : string)
    (w : world) : key_effect :=
  let toggles := keyboard_toggles this w in
  match target with
  | other_element => no_key_effect
  | toggle_button t =>
      match indexOf t toggles with
      | None => no_key_effect
      | Some index =>
          let index := Z.of_nat index in
          let len := Z.of_nat (length toggles) in
          if bool_decide (key = "ArrowDown") then
            focus_effect (array_get toggles (Z.rem (index + 1) len))
          else if bool_decide (key = "ArrowUp") then
            focus_effect (array_get toggles (Z.rem (index - 1 + len) len))
          else if bool_decide (key = "Home") then
            focus_effect (array_get toggles 0)
          else if bool_decide (key = "End") then
            focus_effect (array_get toggles (len - 1))
          else if bool_decide (key = "Enter") || bool_decide (key = " ") then
            {| defaultPrevented := true; focused := None; clicked := Some t |}
          else no_key_effect
      end
  end.

(** The keys that move the focus. *)
Definition navigation_key (key : string) : bool :=
  bool_decide (key = "ArrowDown") || bool_decide (key = "ArrowUp")
  || bool_decide (key = "Home") || bool_decide (key = "End").


(* ================================================================== *)
(** * Bootstrap                                                         *)
(* ================================================================== *)

(** A [.wp-block-advanced-accordion] element: its attributes
    ([dataset.aaInit] is the attribute [data-aa-init]) and its
    direct-child items, [:scope > .wp-block-accordion-item]. *)
Record container_el := {
  ce_attributes : attributes;
  ce_items : list nat
}.

(** The page: the containers in document order, a container being named
    by its position, and the world of the items. *)
Record page := {
  page_containers : list container_el;
  page_world : world
}.

(** [el.dataset.aaInit]. *)
Definition aaInit (el : container_el) : option string :=
  ce_attributes el !! "data-aa-init".

(** The body of the loop of [init], which is also what the mutation
    observer does for an added container; [rand c] stands for the random
    ids drawn while container [c] is constructed. *)
Definition init_container (rand : nat → string) (p : page) (c : nat) : page :=
  match page_containers p !! c with
  | Some el =>
      if truthy (aaInit el) then p
      else
        let attrs := <["data-aa-init" := "true"]> (ce_attributes el) in
        {| page_containers :=
             <[c := {| ce_attributes := attrs; ce_items := ce_items el |}]>
               (page_containers p);
           page_world := hydrate c attrs (ce_items el) (rand c) (page_world p) |}
  | None => p
  end.

(** [init()]. *)
Definition init (rand : nat → string) (p : page) : page :=
  foldl (init_container rand) p (seq 0 (length (page_containers p))).

(** What the mutation observer does for a removed container:
    [instance.destroy()] if an instance is registered; of [destroy],
    the removal from the registry (the removal of the click, keydown
    and resize listeners is the environment no longer sending those
    events). *)
Definition remove_container (c : nat) (p : page) : page :=
  {| page_containers := page_containers p;
     page_world := with_registry (delete c) (page_world p) |}.

(* ================================================================== *)
(** * The saved markup (src/save.js, src/accordion-item/save.js)        *)
(* ================================================================== *)

(** A [data-*] prop that a save component hands to React: a string or a
    number.  React renders no attribute for a prop whose value is
    [undefined], so the props are kept as a map that holds the defined
    ones. *)
Inductive data_prop :=
  | prop_str (s : string)
  | prop_num (n : number).

(** [props[name] = v]. *)
Definition set_prop (name : string) (v : option data_prop) (m : gmap string data_prop)
  : gmap string data_prop :=
  match v with
  | Some x => <[name := x]> m
  | None => delete name m
  end.

(** An object literal of props, its entries in source order. *)
Definition props_of (entries : list (string * option data_prop)) : gmap string data_prop :=
  foldl (λ m e, set_prop (fst e) (snd e) m) ∅ entries.

(** [b ? 'true' : 'false']. *)
Definition bool_prop (b : bool) : option data_prop :=
  Some (prop_str (if b then "true" else "false")).

(** [animationEasing === 'custom' && customEasing ? customEasing : animationEasing]. *)
Definition easingValue (animationEasing customEasing : option string) : option string :=
  if bool_decide (animationEasing = Some "custom") && truthy customEasing
  then customEasing else animationEasing.

(** The block attributes that [containerSave] destructures: a switch
    as its truthiness, the only use made of it; a duration, distance or
    delay as a number and an easing or position as a string, [None]
    when the attribute is undefined. *)
Record container_block := {
  cb_autoClose : bool;
  cb_allowMultipleOpen : bool;
  cb_animationDuration : option number;
  cb_animationEasing : option string;
  cb_customEasing : option string;
  cb_contentFade : bool;
  cb_contentFadeDuration : option number;
  cb_contentSlideDistance : option number;
  cb_staggerDelay : option number;
  cb_iconPosition : option string;
  cb_iconRotation : bool
}.

(** The [data-*] props of [containerSave]. *)
Definition containerSave (a : container_block) : gmap string data_prop :=
  let easing := easingValue (cb_animationEasing a) (cb_customEasing a) in
  props_of
    [ ("data-auto-close", bool_prop (cb_autoClose a));
      ("data-allow-multiple", bool_prop (cb_allowMultipleOpen a));
      ("data-duration", prop_num <$> cb_animationDuration a);
      ("data-easing", prop_str <$> easing);
      ("data-content-fade", bool_prop (cb_contentFade a));
      ("data-fade-duration", prop_num <$> cb_contentFadeDuration a);
      ("data-slide-distance", prop_num <$> cb_contentSlideDistance a);
      ("data-stagger", prop_num <$> cb_staggerDelay a);
      ("data-icon-position", prop_str <$> cb_iconPosition a);
      ("data-icon-rotation", bool_prop (cb_iconRotation a)) ].

(** The block attributes that [itemSave] destructures. *)
Record item_block := {
  ib_openByDefault : bool;
  ib_linkGroupId : option string;
  ib_overrideAnimationDuration : bool;
  ib_animationDuration : option number;
  ib_overrideAnimationEasing : bool;
  ib_animationEasing : option string;
  ib_customEasing : option string;
  ib_overrideContentFade : bool;
  ib_contentFade : bool;
  ib_contentFadeDuration : option number;
  ib_contentSlideDistance : option number;
  ib_staggerDelay : option number;
  ib_itemId : option string
}.

(** [dataAttrs] of [itemSave]. *)
Definition itemSave (a : item_block) : gmap string data_prop :=
  let dataAttrs :=
    props_of [ ("data-item-id", prop_str <$> ib_itemId a);
               ("data-open-default", bool_prop (ib_openByDefault a)) ] in
  let dataAttrs :=
    if truthy (ib_linkGroupId a)
    then set_prop "data-link-group" (prop_str <$> ib_linkGroupId a) dataAttrs
    else dataAttrs in
  let dataAttrs :=
    if ib_overrideAnimationDuration a
    then set_prop "data-duration" (prop_num <$> ib_animationDuration a) dataAttrs
    else dataAttrs in
  let dataAttrs :=
    if ib_overrideAnimationEasing a then
      let easing := easingValue (ib_animationEasing a) (ib_customEasing a) in
      set_prop "data-easing" (prop_str <$> easing) dataAttrs
    else dataAttrs in
  if ib_overrideContentFade a then
    let dataAttrs := set_prop "data-content-fade" (bool_prop (ib_contentFade a)) dataAttrs in
    let dataAttrs :=
      set_prop "data-fade-duration" (prop_num <$> ib_contentFadeDuration a) dataAttrs in
    let dataAttrs :=
      set_prop "data-slide-distance" (prop_num <$> ib_contentSlideDistance a) dataAttrs in
    set_prop "data-stagger" (prop_num <$> ib_staggerDelay a) dataAttrs
  else dataAttrs.

(** The attributes of the saved element, as the view script finds them:
    a string prop is the attribute value, a number prop is rendered by
    [toString], which stands for JavaScript's conversion of a number to
    a string. *)
Definition rendered (toString : number → string) (props : gmap string data_prop)
  : attributes :=
  (λ v, match v with prop_str s => s | prop_num n => toString n end) <$> props.

(* ================================================================== *)
(** * Observations, predicates and sample documents                     *)
(* ================================================================== *)

(** ** Attribute readers *)



(** ** Sample documents and observations *)

Definition sample_element (tag : string) : element :=
  {| tagName := tag; el_style := ∅ |}.

(** A panel with a paragraph and a block holding a three-element list. *)
Definition sample_content (height scroll : Z) : content_el :=
  {| c_id := ""; c_attributes := ∅; c_hidden := false; c_classList := ∅;
     c_dataset := ∅; c_style := ∅;
     c_children :=
       [ {| child_el := sample_element "P"; child_lists := [] |};
         {| child_el := sample_element "DIV";
            child_lists :=
              [[sample_element "LI"; sample_element "SPAN"; sample_element "LI"]] |} ];
     c_offsetHeight := height; c_scrollHeight := scroll; c_listeners := [] |}.

Definition sample_item (attrs : attributes) (c : nat) (height scroll : Z) : item :=
  {| i_attributes := attrs;
     i_classList := {["wp-block-accordion-item"]};
     i_style := ∅;
     i_toggle := Some {| t_id := ""; t_attributes := ∅ |};
     i_content := Some (sample_content height scroll);
     i_closest := Some c |}.

Definition sample_world (its : list item) (reduced : bool) : world :=
  {| doc := its; registry := ∅; reducedMotion := reduced; frames := [];
     timers := []; hasCompleted := ∅; nextClosure := 0 |}.

Definition max_height_event : transition_event :=
  {| target_is_content := true; propertyName := "max-height" |}.

(** [content.style.maxHeight] of item [i]. *)
Definition maxHeight_of (w : world) (i : nat) : option css_value :=
  (λ c, style_get (c_style c) "max-height") <$> content_of w i.

Definition is_closing (w : world) (i : nat) : bool :=
  match content_of w i with
  | Some c => bool_decide (c_dataset c !! "isClosing" = Some "true")
  | None => false
  end.

(** ** Resize *)

(** The test of [_recalcOpenHeights] on an item: open, with a panel
    that is not closing and whose inline max-height is not ['none']. *)
Definition needs_refresh (it : item) : bool :=
  classList_contains (i_classList it) "is-open"
  && match i_content it with
     | Some c =>
         negb (bool_decide (c_dataset c !! "isClosing" = Some "true"))
         && negb (css_is (style_get (c_style c) "max-height") "none")
     | None => false
     end.

(** Its effect: [content.style.maxHeight = content.scrollHeight + 'px']. *)
Definition refresh (it : item) : item :=
  match i_content it with
  | Some c => content_style "max-height" (css_px (c_scrollHeight c)) it
  | None => it
  end.

Definition recalc_effect (it : item) : item :=
  if needs_refresh it then refresh it else it.

(** Two Items of one Container, both open: item 0 has completed its
    open, item 1 is in the middle of its height transition. *)
Definition resize_world : world :=
  let w :=
    sample_world [sample_item ∅ 0 120 150; sample_item ∅ 0 120 150] false in
  let this := construct 0 ∅ [0; 1] in
  let w := hydrate 0 ∅ [0; 1] "r" w in
  let w := _openItem this 0 false w in
  let w := run_frame w in
  let w := dispatch_transitionend 0 max_height_event w in
  let w := _openItem this 1 false w in
  run_frame w.

(** [x !== undefined], as a boolean. *)
Definition isSome {A} (x : option A) : bool :=
  match x with Some _ => true | None => false end.

(** ** Opening under reduced motion *)

(** A Container with duration 0.4 under reduced motion, one closed Item. *)
Definition reduced_world : world :=
  hydrate 0 ∅ [0] "r" (sample_world [sample_item ∅ 0 120 120] true).

Definition reduced_settings : settings :=
  {| duration := num 0; easing := "ease"; contentFade := true;
     fadeDuration := num 0; slideDistance := num 10; stagger := num 0 |}.

(** The opacity of the first animated element of item [i]. *)
Definition first_opacity (w : world) (i : nat) : option css_value :=
  match content_of w i with
  | Some c => (λ e, style_get (el_style e) "opacity") <$> head (_getAnimatableElements c)
  | None => None
  end.

(** ** Opening without the end of the transition *)

(** A Container with the default duration 0.4, its one Item opened and
    the frame callback run: the height transition is under way. *)
Definition opening_world : world :=
  let this := construct 0 ∅ [0] in
  run_frame
    (_openItem this 0 false
       (hydrate 0 ∅ [0] "r" (sample_world [sample_item ∅ 0 120 120] false))).

(** Events that are not a user action and not the [transitionend] of
    the height transition. *)
Definition passive (ev : event) : bool :=
  match ev with
  | AnimationFrame | Timeout _ | MotionPreference _ => true
  | TransitionEnd _ e => negb (bool_decide (propertyName e = "max-height"))
  | _ => false
  end.

(** A world in which nothing is scheduled and the only listeners are
    [onEnd] closures of opens. *)
Definition quiet (w : world) : Prop :=
  frames w = [] ∧ timers w = []
  ∧ ∀ i r, r ∈ listeners_of i w → ∃ k, r = (onEnd k, false).

(** ** Locality *)

(** [w'] differs from [w] in the document at most at item [i], whose
    attributes and owning container it keeps; the registry and the
    motion preference are the same. *)
Definition touches_only (i : nat) (w w' : world) : Prop :=
  (∀ j, j ≠ i → doc w' !! j = doc w !! j)
  ∧ i_attributes <$> doc w' !! i = i_attributes <$> doc w !! i
  ∧ i_closest <$> doc w' !! i = i_closest <$> doc w !! i
  ∧ registry w' = registry w
  ∧ reducedMotion w' = reducedMotion w.

(** ** Toggle *)

(** The first step of [_toggle]. *)
Definition toggle_first (this : instance) (item : nat) (w : world) : world :=
  if is_open w item then _closeItem this item w else _openItem this item false w.

(** ** Auto-close *)

(** The close of item [j] has been started or has completed. *)
Definition closing_or_closed (w : world) (j : nat) : bool :=
  is_closing w j || negb (is_open w j).


(** Two Containers.  Container 0 auto-closes and holds A (item 0, open),
    B (1, group "g", open), C (2, group "g", closed) and E (4, group "h",
    open); Container 1 holds D (3, group "h", open). *)
Definition group_attrs (group : option string) (openDefault : bool) : attributes :=
  let a : attributes :=
    {["data-open-default" := if openDefault then "true" else "false"]} in
  match group with
  | Some g => <["data-link-group" := g]> a
  | None => a
  end.

Definition container0_attrs : attributes := {["data-auto-close" := "true"]}.

Definition group_world : world :=
  let its :=
    [ sample_item (group_attrs None true) 0 120 120;
      sample_item (group_attrs (Some "g") true) 0 120 120;
      sample_item (group_attrs (Some "g") false) 0 120 120;
      sample_item (group_attrs (Some "h") true) 1 120 120;
      sample_item (group_attrs (Some "h") true) 0 120 120 ] in
  run_frame
    (hydrate 1 ∅ [3] "s"
       (hydrate 0 container0_attrs [0; 1; 2; 4] "r" (sample_world its false))).

Definition container0 : instance := construct 0 container0_attrs [0; 1; 2; 4].

(** The world after C is toggled in [group_world]. *)
Definition group_world_C : world :=
  default group_world (_toggle container0 2 group_world).

(** ** The double-close guard *)

(** The fallback timers of closes of item [i]: one is pending for each
    animated close of [i] that has not completed. *)
Definition fallback_for (i : nat) (t : timer) : bool :=
  match callback t with
  | fallbackTimeout _ i' _ => bool_decide (i' = i)
  | logProbe => false
  end.

Definition closes_in_flight (w : world) (i : nat) : nat :=
  length (List.filter (fallback_for i) (timers w)).

(** An open of item [i] is in flight while its frame callback is queued
    or its [onEnd] listener is waiting. *)
Definition is_openFrame_of (i : nat) (cb : frame_callback) : bool :=
  match cb with
  | openFrame i' _ _ _ _ => bool_decide (i' = i)
  | closeFrame _ _ => false
  end.

Definition is_onEnd (r : listener * bool) : bool :=
  match fst r with onEnd _ => true | _ => false end.

Definition open_in_flight (w : world) (i : nat) : bool :=
  existsb (is_openFrame_of i) (frames w) || existsb is_onEnd (listeners_of i w).

Definition item_listeners (it : item) : list (listener * bool) :=
  from_option c_listeners [] (i_content it).

Definition item_closing (it : item) : bool :=
  match i_content it with
  | Some c => bool_decide (c_dataset c !! "isClosing" = Some "true")
  | None => false
  end.

(** The invariant behind the guard. *)
Record guard_inv (w : world) : Prop := {
  inv_count : ∀ i, (closes_in_flight w i ≤ 1)%nat;
  inv_flag : ∀ i, (0 < closes_in_flight w i)%nat → is_closing w i = true;
  inv_handler : ∀ i k s c,
    (transitionEndHandler k s, c) ∈ listeners_of i w →
    c = false ∧ ∃ t, t ∈ timers w ∧ callback t = fallbackTimeout k i s;
  inv_fresh : ∀ t k i s,
    t ∈ timers w → callback t = fallbackTimeout k i s → (k < nextClosure w)%nat;
  inv_unique : ∀ t t' k i i' s s',
    t ∈ timers w → t' ∈ timers w →
    callback t = fallbackTimeout k i s → callback t' = fallbackTimeout k i' s' →
    i = i'
}.

(** A step that starts and completes no close: it may move the closure
    counter on, add logging probes, and add or remove listeners other
    than the handlers of closes. *)
Definition benign (w w' : world) : Prop :=
  (nextClosure w ≤ nextClosure w')%nat
  ∧ (∃ probes, timers w' = timers w ++ probes
               ∧ Forall (λ t, callback t = logProbe) probes)
  ∧ (∀ i, is_closing w' i = is_closing w i)
  ∧ (∀ i k s c, (transitionEndHandler k s, c) ∈ listeners_of i w' →
                (transitionEndHandler k s, c) ∈ listeners_of i w).

(** A document before any script has run: no timer is pending and no
    listener is attached. *)
Definition pristine (w : world) : Prop :=
  timers w = [] ∧ ∀ i, listeners_of i w = [].

(** One Container (duration 0.4) with one Item, before hydration. *)
Definition single_world : world :=
  sample_world [sample_item ∅ 0 120 120] false.

Definition single_container : instance := construct 0 ∅ [0].

(** Hydration, then two clicks on the toggle within one frame: the
    second click closes the Item while its open is still in flight. *)
Definition double_click : list event :=
  [Hydrate 0 ∅ [0] "r"; Click single_container 0; Click single_container 0].

Definition double_click_world : world :=
  default single_world (run double_click single_world).

(** ** Open then close *)

(** [open()] then [close()] on item [i], each animation left to
    complete: the open, its frame, and (for a positive duration) the
    end of its height transition; then the close, and (for a positive
    duration) its frame and its completion, by the end of the height
    transition or, with [byTimeout], by the fallback timer. *)
Definition round_trip (this : instance) (i : nat) (byTimeout : bool) (w : world)
  : world :=
  let animated :=
    match doc w !! i with
    | Some it =>
        num_gt0 (duration (_getSettings (defaults this) (reducedMotion w)
                             (i_attributes it)))
    | None => false
    end in
  let fallback_index := length (timers w) in
  let w := _openItem this i false w in
  let w := run_frame w in
  let w := if animated then dispatch_transitionend i max_height_event w else w in
  let w := _closeItem this i w in
  if animated then
    let w := run_frame w in
    if byTimeout then fire_timer fallback_index w
    else dispatch_transitionend i max_height_event w
  else w.

(** [_openItem]: the assignments up to the frame request, then the
    listener or the immediate release. *)
Definition open_item (s : settings) (dur : number) (instant : bool) (k : nat)
    (it : item) : item :=
  let it := with_i_classList (classList_add "is-open") it in
  let it := toggle_setAttribute "aria-expanded" "true" it in
  let it := with_i_content (with_c_hidden false) it in
  let it := toggle_noFade s it in
  let it := with_i_style (style_set "--aa-duration" (css_seconds dur)) it in
  let it := with_i_style (style_set "--aa-easing" (css_str (easing s))) it in
  let it :=
    if contentFade s && negb instant then
      forEach_animatable
        (λ _ st,
           style_set "transform" (css_translateY false (slideDistance s))
             (style_set "opacity" (css_str "0") st))
        it
    else it in
  let it := content_style "transition" (css_str "none") it in
  let it := content_style "max-height" (css_str "none") it in
  let it := content_style "overflow" (css_str "hidden") it in
  let it := content_style "max-height" (css_str "0") it in
  if num_gt0 dur then addEventListener (onEnd k) false it
  else content_style "max-height" (css_str "none") it.

Definition openFrame_item (dur : number) (s : settings) (targetHeight : Z)
    (instant : bool) (it : item) : item :=
  let it := content_style "transition" (css_max_height dur (easing s)) it in
  let it := content_style "max-height" (css_px targetHeight) it in
  if contentFade s && negb instant then _fadeInChildren s it else it.

Definition onEnd_item (k : nat) (it : item) : item :=
  removeEventListener (onEnd k) false (content_style "max-height" (css_str "none") it).

(** [_closeItem] up to the branch on the duration. *)
Definition lock_item (s : settings) (currentHeight : Z) (it : item) : item :=
  let it := with_i_content (with_c_dataset (<["isClosing" := "true"]>)) it in
  let it := with_i_style (style_set "--aa-duration" (css_seconds (duration s))) it in
  let it := with_i_style (style_set "--aa-easing" (css_str (easing s))) it in
  let it := toggle_noFade s it in
  let it := content_style "transition" (css_str "none") it in
  let it := content_style "overflow" (css_str "hidden") it in
  content_styleImportant "max-height" (css_px currentHeight) it.

Definition cleanup_item (s : settings) (it : item) : item :=
  let it := with_i_classList (classList_remove "is-open") it in
  let it := toggle_setAttribute "aria-expanded" "false" it in
  let it := with_i_content (with_c_hidden true) it in
  let it := content_style "max-height" (css_str "") it in
  let it := content_style "transition" (css_str "") it in
  let it := content_style "overflow" (css_str "") it in
  let it := content_style "opacity" (css_str "") it in
  let it :=
    if contentFade s then
      forEach_animatable
        (λ _ st,
           style_set "transform" (css_str "")
             (style_set "opacity" (css_str "")
                (style_set "transition" (css_str "") st)))
        it
    else it in
  with_i_content (with_c_dataset (<["isClosing" := "false"]>)) it.

Definition closeFrame_item (s : settings) (it : item) : item :=
  let it := content_style "transition" (css_max_height (duration s) (easing s)) it in
  let it := content_styleImportant "max-height" (css_str "0px") it in
  if contentFade s then _fadeOutChildren s it else it.



(** A world seen from item [i]: [d] is the rest of the document, [r] and
    [b] the registry and the motion preference. *)
Definition at_i (i : nat) (d : list item) (r : gmap nat instance) (b : bool)
    (it : item) (F : list frame_callback) (T : list timer) (H : gset nat)
    (n : nat) : world :=
  {| doc := <[i := it]> d; registry := r; reducedMotion := b; frames := F;
     timers := T; hasCompleted := H; nextClosure := n |}.


Definition aria_expanded (it : item) : option string :=
  match i_toggle it with
  | Some t => t_attributes t !! "aria-expanded"
  | None => None
  end.

(** One Container with default settings and one Item, hydrated: the
    Item is in the Closed state in which [_initItem] leaves it. *)
Definition hydrated_single : world := hydrate 0 ∅ [0] "r" single_world.

Definition hydrated_item : item :=
  default (sample_item ∅ 0 120 120) (doc hydrated_single !! 0).

Definition hydrated_content : content_el :=
  default (sample_content 120 120) (i_content hydrated_item).




(** The grid of settings: content fade on and off, duration 0
    and 0.4, set on the Item, and both ways of completing the close. *)
Definition grid_attrs (fade instant : bool) : attributes :=
  {[ "data-content-fade" := if fade then "true" else "false";
     "data-duration" := if instant then "0" else "0.4" ]}.

Definition grid_world (fade instant : bool) : world :=
  hydrate 0 ∅ [0] "r" (sample_world [sample_item (grid_attrs fade instant) 0 120 120] false).

Definition style_free (st : style) (props : list string) : bool :=
  forallb (λ p, css_is (style_get st p) "") props.

(** Closed, hidden, and free of inline height, opacity and transform on
    the panel and on its animated elements. *)
Definition closed_clean (w : world) (i : nat) : bool :=
  negb (is_open w i)
  && match content_of w i with
     | Some c =>
         c_hidden c
         && style_free (c_style c) ["max-height"; "opacity"; "transform"]
         && forallb (λ e, style_free (el_style e) ["opacity"; "transform"])
              (_getAnimatableElements c)
     | None => false
     end.

(** ** Further observations *)

(** [this] with another value of [allowMultiple]. *)
Definition with_allowMultiple (b : bool) (this : instance) : instance :=
  {| container := container this; autoClose := autoClose this; allowMultiple := b;
     defaults := defaults this; items := items this |}.

(** A Container with auto-close off that asks for a single open Item,
    holding two Items of which the first is open by default. *)
Definition single_open_attrs : attributes :=
  {["data-auto-close" := "false"; "data-allow-multiple" := "false"]}.

Definition single_open_container : instance := construct 0 single_open_attrs [0; 1].

Definition single_open_world : world :=
  run_frame
    (hydrate 0 single_open_attrs [0; 1] "r"
       (sample_world [sample_item (group_attrs None true) 0 120 120;
                      sample_item (group_attrs None false) 0 120 120] false)).

(** The Item of [reduced_world], opened, its frame run. *)
Definition reduced_open_world : world :=
  run_frame (_openItem (construct 0 ∅ [0]) 0 false reduced_world).

(** The id that [_initItem] derives for an item with attributes [a]. *)
Definition item_id (rand : string) (a : attributes) : string :=
  match a !! "data-item-id" with
  | Some x => if bool_decide (x = "") then "aa-" +:+ rand else x
  | None => "aa-" +:+ rand
  end.

(** [_initItem] up to the branch on [data-open-default], and its branch
    for a closed item, as functions of the item. *)
Definition wire_item (id : string) (it : item) : item :=
  let toggleId := id +:+ "-toggle" in
  let contentId := id +:+ "-content" in
  let it := with_i_toggle (with_t_id toggleId) it in
  let it := with_i_content (with_c_id contentId) it in
  let it := toggle_setAttribute "aria-controls" contentId it in
  with_i_content (with_c_attributes (<["aria-labelledby" := toggleId]>)) it.

Definition init_closed_item (it : item) : item :=
  let it := toggle_setAttribute "aria-expanded" "false" it in
  let it := with_i_content (with_c_hidden true) it in
  let it := content_style "max-height" (css_str "0") it in
  content_style "overflow" (css_str "hidden") it.

(** An item that has both its toggle button and its panel. *)
Definition complete (it : item) : bool :=
  isSome (i_toggle it) && isSome (i_content it).

Definition open_default (it : item) : bool :=
  dataBool (Some (i_attributes it)) "open-default" false.

(** The toggle and the panel of an item refer to each other under the
    ids derived from [id]. *)
Definition wired (id : string) (it : item) : Prop :=
  ∃ t c, i_toggle it = Some t ∧ i_content it = Some c
    ∧ t_id t = id +:+ "-toggle" ∧ c_id c = id +:+ "-content"
    ∧ t_attributes t !! "aria-controls" = Some (c_id c)
    ∧ c_attributes c !! "aria-labelledby" = Some (t_id t).

(** The state in which [_initItem] leaves an item: wired, with
    [aria-expanded] and [hidden] as [data-open-default] says, and the
    attributes it had. *)
Definition initialised (rand : string) (a : attributes) (it : item) : Prop :=
  i_attributes it = a
  ∧ wired (item_id rand a) it
  ∧ aria_expanded it
    = Some (if dataBool (Some a) "open-default" false then "true" else "false")
  ∧ c_hidden <$> i_content it = Some (negb (dataBool (Some a) "open-default" false))
  ∧ (dataBool (Some a) "open-default" false = true →
     classList_contains (i_classList it) "is-open" = true).

(** The frame callback that [_initItem] requests for item [i]: none
    unless the item is complete and open by default. *)
Definition init_frame (this : instance) (w : world) (i : nat) : option frame_callback :=
  match doc w !! i with
  | Some it =>
      match i_toggle it, i_content it with
      | Some _, Some c =>
          if open_default it then
            Some (openFrame i (num 0)
                    (_getSettings (defaults this) (reducedMotion w) (i_attributes it))
                    (c_offsetHeight c) true)
          else None
      | _, _ => None
      end
  | None => None
  end.

(** An Item with an id of its own, open by default. *)
Definition faq_item : item :=
  sample_item {["data-item-id" := "faq-1"; "data-open-default" := "true"]} 0 120 120.

(** [elements.forEach((child, i) => ...)] over an array of elements,
    the body assigning to [child.style]: the array after the loop. *)
Definition restyle (f : nat → style → style) (i : nat) (l : list element) : list element :=
  imap (λ k e, with_el_style (f (i + k)%nat) e) l.

(** The style that [_fadeInChildren] gives the element of index [k]. *)
Definition fadeIn_style (s : settings) (k : nat) (st : style) : style :=
  style_set "transform" (css_str "translateY(0)")
    (style_set "opacity" (css_str "1")
       (style_set "transition"
          (css_fade (fadeDuration s) (easing s)
             (Some (num_mul (stagger s) (num (Z.of_nat k))))) st)).

(** Container [c] carries the mark of [init]. *)
Definition flagged (p : page) (c : nat) : bool :=
  match page_containers p !! c with
  | Some el => truthy (aaInit el)
  | None => false
  end.

(** The instance that [init] constructs for container [c]: none when
    the container is marked (or does not exist). *)
Definition built (p : page) (c : nat) : option instance :=
  match page_containers p !! c with
  | Some el =>
      if truthy (aaInit el) then None
      else Some (construct c (<["data-aa-init" := "true"]> (ce_attributes el))
                   (ce_items el))
  | None => None
  end.

(** Two Containers of one Item each, unmarked. *)
Definition two_container_page : page :=
  {| page_containers :=
       [ {| ce_attributes := container0_attrs; ce_items := [0] |};
         {| ce_attributes := ∅; ce_items := [1] |} ];
     page_world :=
       sample_world [sample_item ∅ 0 120 120; sample_item ∅ 1 120 120] false |}.

(** The Item of [opening_world] after the end of its height
    transition: open, its height released. *)
Definition open_world : world :=
  dispatch_transitionend 0 max_height_event opening_world.

(** What an item with toggle button and panel presents agrees with its
    [is-open] class: [aria-expanded] on the button, [hidden] on the
    panel. *)
Definition in_sync (it : item) : Prop :=
  ∀ t c, i_toggle it = Some t → i_content it = Some c →
    t_attributes t !! "aria-expanded"
    = Some (if classList_contains (i_classList it) "is-open" then "true" else "false")
    ∧ c_hidden c = negb (classList_contains (i_classList it) "is-open").

Definition world_in_sync (w : world) : Prop :=
  ∀ i it, doc w !! i = Some it → in_sync it.

(** An update of an item that leaves its class list, its toggle button
    and its panel's [hidden] flag alone. *)
Definition neutral (f : item → item) : Prop :=
  ∀ it, i_classList (f it) = i_classList it ∧ i_toggle (f it) = i_toggle it
        ∧ c_hidden <$> i_content (f it) = c_hidden <$> i_content it.

Definition is_Hydrate (ev : event) : bool :=
  match ev with Hydrate _ _ _ _ => true | _ => false end.

(** A click that opens the Item, the frame, the end of the height
    transition, and a click that starts the close. *)
Definition open_and_close_clicks : list event :=
  [Click single_container 0; AnimationFrame; TransitionEnd 0 max_height_event;
   Click single_container 0].

(** ** The saved markup *)

(** A numeric attribute as the view script reads it back: [parseFloat]
    of the rendered number, or the fallback when the prop was absent. *)
Definition read_number (toString : number → string) (fallback : number)
    (v : option number) : number :=
  match v with
  | Some x => parseFloat (toString x)
  | None => fallback
  end.

(** A Container block with the easing set to custom and no custom
    easing given. *)
Definition custom_easing_block : container_block :=
  {| cb_autoClose := true; cb_allowMultipleOpen := false;
     cb_animationDuration := Some (Finite (2 # 5));
     cb_animationEasing := Some "custom"; cb_customEasing := Some "";
     cb_contentFade := true; cb_contentFadeDuration := None;
     cb_contentSlideDistance := None; cb_staggerDelay := None;
     cb_iconPosition := None; cb_iconRotation := false |}.

(** The defined value that an object literal holds under [k]: that of
    the last entry written under that key. *)
Fixpoint entry_of (k : string) (entries : list (string * option data_prop))
    (acc : option data_prop) : option data_prop :=
  match entries with
  | [] => acc
  | e :: es =>
      entry_of k es
        (if String.eqb (fst e) k then snd e else acc)
  end.

(** An Item block in a link group that overrides the content fade
    only. *)
Definition pricing_item_block : item_block :=
  {| ib_openByDefault := true; ib_linkGroupId := Some "pricing-details";
     ib_overrideAnimationDuration := false; ib_animationDuration := Some (Finite (1 # 2));
     ib_overrideAnimationEasing := false; ib_animationEasing := Some "ease";
     ib_customEasing := None;
     ib_overrideContentFade := true; ib_contentFade := false;
     ib_contentFadeDuration := None; ib_contentSlideDistance := None;
     ib_staggerDelay := None; ib_itemId := Some "aa-item-1" |}.

(* ================================================================== *)
(** * Attribute readers: properties                                     *)
(* ================================================================== *)

Lemma parseFloat_empty : parseFloat "" = NaN.
Proof. reflexivity. Qed.






(** C9: [dataBool] returns the fallback exactly when the attribute is
    absent, and otherwise [true] exactly for the value ["true"]. *)
Theorem C9_dataBool (el : attributes) (attr : string) (fallback : bool) :
  (el !! ("data-" +:+ attr) = None → dataBool (Some el) attr fallback = fallback)
  ∧ (∀ raw, el !! ("data-" +:+ attr) = Some raw →
       (dataBool (Some el) attr fallback = true ↔ raw = "true"))
  ∧ dataBool (Some {["data-auto-close" := "TRUE"]}) "auto-close" true = false
  ∧ dataBool (Some {["data-auto-close" := "1"]}) "auto-close" true = false
  ∧ dataBool (Some {["data-auto-close" := "yes"]}) "auto-close" true = false.
Proof.
  unfold dataBool, getAttribute; simpl.
  split; [by intros -> |].
  split; [| by vm_compute].
  intros raw ->. apply bool_decide_eq_true.
Qed.

(** [dataBool] with no element at all. *)
Lemma dataBool_no_element (attr : string) (fallback : bool) :
  dataBool None attr fallback = fallback.
Proof. reflexivity. Qed.

(* ================================================================== *)
(** * Settings resolver: properties                                     *)
(* ================================================================== *)

Lemma hasAttribute_lookup (el : attributes) (name : string) :
  hasAttribute el name = match el !! name with Some _ => true | None => false end.
Proof.
  unfold hasAttribute. destruct (el !! name) eqn:E.
  - apply bool_decide_eq_true_2. eauto.
  - apply bool_decide_eq_false_2. by intros [? ?].
Qed.

(** Evaluates the attribute names built by [`data-${attr}`]. *)
Ltac eval_attr_names :=
  repeat match goal with
    | |- context [String.append ?a ?b] =>
        let r := eval vm_compute in (String.append a b) in
        change (String.append a b) with r
    end.

(** C8: every field of the resolved profile is the Container default,
    replaced by the reading of the Item's attribute exactly when that
    attribute is present; under reduced motion [duration],
    [fadeDuration] and [stagger] are then zero.  The resolver is a
    function of the defaults, the flag and the attributes alone. *)
Theorem C8_getSettings (d : settings) (reduced : bool) (item : attributes) :
  let s := _getSettings d reduced item in
  duration s =
    (if reduced then num 0
     else match item !! "data-duration" with
          | Some raw => parseFloat raw
          | None => duration d
          end)
  ∧ easing s =
      match item !! "data-easing" with Some raw => raw | None => easing d end
  ∧ contentFade s =
      match item !! "data-content-fade" with
      | Some raw => bool_decide (raw = "true")
      | None => contentFade d
      end
  ∧ fadeDuration s =
      (if reduced then num 0
       else match item !! "data-fade-duration" with
            | Some raw => parseFloat raw
            | None => fadeDuration d
            end)
  ∧ slideDistance s =
      match item !! "data-slide-distance" with
      | Some raw => parseFloat raw
      | None => slideDistance d
      end
  ∧ stagger s =
      (if reduced then num 0
       else match item !! "data-stagger" with
            | Some raw => parseFloat raw
            | None => stagger d
            end).
Proof.
  unfold _getSettings, dataNum, dataStr, dataBool, getAttribute; simpl.
  rewrite !hasAttribute_lookup. eval_attr_names.
  repeat split; destruct reduced; try reflexivity;
    match goal with |- context [item !! ?k] => by destruct (item !! k) end.
Qed.

(** An explicit [false] or [0] on the Item overrides a [true] or
    non-zero Container default. *)
Example getSettings_explicit_false_and_zero :
  let item : attributes :=
    {["data-content-fade" := "false"; "data-duration" := "0"]} in
  let s := _getSettings (container_defaults ∅) false item in
  contentFade s = false ∧ duration s = num 0 ∧ fadeDuration s = Finite (3 # 10).
Proof. by vm_compute. Qed.
Example parseFloat_04 : parseFloat "0.4" = Finite (2 # 5).
Proof. reflexivity. Qed.
Example parseFloat_ws : parseFloat "  -12.5e1px" = Finite (-125 # 1).
Proof. reflexivity. Qed.
Example parseFloat_dot : parseFloat "." = NaN.
Proof. reflexivity. Qed.
Example parseFloat_5dot : parseFloat "5.e3" = Finite (5000 # 1).
Proof. reflexivity. Qed.
Example parseFloat_abc : parseFloat "abc" = NaN.
Proof. reflexivity. Qed.
Example parseFloat_inf : parseFloat "-Infinityx" = Infinity true.
Proof. reflexivity. Qed.
Example parseFloat_1e : parseFloat "1e" = Finite (1 # 1).
Proof. reflexivity. Qed.

(* ================================================================== *)
(** * Resize: properties                                                *)
(* ================================================================== *)

Lemma alter_ext_at {A} (f g : A → A) (i : nat) (l : list A) :
  (∀ x, l !! i = Some x → f x = g x) → alter f i l = alter g i l.
Proof.
  intros H. apply list_eq. intros j. destruct (decide (i = j)) as [->|Hne].
  - rewrite !list_lookup_alter_eq. destruct (l !! j) eqn:E; simpl; [|done].
    f_equal. by apply H.
  - by rewrite !list_lookup_alter_ne.
Qed.

Lemma alter_id_at {A} (f : A → A) (i : nat) (l : list A) :
  (∀ x, l !! i = Some x → f x = x) → alter f i l = l.
Proof.
  intros H. apply list_eq. intros j. destruct (decide (i = j)) as [->|Hne].
  - rewrite list_lookup_alter_eq. destruct (l !! j) eqn:E; simpl; [|done].
    f_equal. by apply H.
  - by rewrite list_lookup_alter_ne.
Qed.

Lemma with_doc_same (f : list item → list item) (w : world) :
  f (doc w) = doc w → with_doc f w = w.
Proof. intros H. destruct w; unfold with_doc; simpl in *. by rewrite H. Qed.

Lemma with_item_same (i : nat) (f : item → item) (w : world) :
  (∀ x, doc w !! i = Some x → f x = x) → with_item i f w = w.
Proof. intros H. apply with_doc_same. by apply alter_id_at. Qed.

Lemma with_item_ext (i : nat) (f g : item → item) (w : world) :
  (∀ x, doc w !! i = Some x → f x = g x) → with_item i f w = with_item i g w.
Proof.
  intros H. unfold with_item, with_doc. f_equal. by apply alter_ext_at.
Qed.

Lemma recalc_item_effect (w : world) (i : nat) :
  recalc_item w i = with_item i recalc_effect w.
Proof.
  unfold recalc_item, is_open, content_of.
  destruct (doc w !! i) as [it|] eqn:Hit; simpl.
  - assert (Hlocal : ∀ g, g it = recalc_effect it →
                          with_item i g w = with_item i recalc_effect w).
    { intros g Hg. apply with_item_ext. intros x Hx. congruence. }
    assert (Hsame : it = recalc_effect it → w = with_item i recalc_effect w).
    { intros Hg. symmetry. apply with_item_same. intros x Hx. congruence. }
    unfold recalc_effect, needs_refresh, refresh in *.
    destruct (classList_contains (i_classList it) "is-open"); simpl in *; [|auto].
    destruct (i_content it) as [c|]; simpl in *; [|auto].
    destruct (bool_decide (c_dataset c !! "isClosing" = Some "true")); simpl in *;
      [auto|].
    destruct (css_is (style_get (c_style c) "max-height") "none"); simpl in *; auto.
  - symmetry. apply with_item_same. intros x Hx. congruence.
Qed.

Lemma needs_refresh_refresh (it : item) :
  needs_refresh it = true → needs_refresh (refresh it) = true.
Proof.
  unfold needs_refresh, refresh. destruct it as [a cl st t [c|] cc]; simpl; [|done].
  destruct (classList_contains cl "is-open"); simpl; [|done].
  destruct (bool_decide (c_dataset c !! "isClosing" = Some "true")); simpl; [done|].
  intros _. unfold style_get, style_set. by rewrite lookup_insert_eq.
Qed.

Lemma refresh_idem (it : item) : refresh (refresh it) = refresh it.
Proof.
  unfold refresh. destruct it as [a cl st t [c|] cc]; simpl; [|done].
  unfold content_style, with_i_content, with_c_style; simpl.
  do 2 f_equal. unfold style_set. by rewrite insert_insert_eq.
Qed.

Lemma recalc_effect_idem (it : item) :
  recalc_effect (recalc_effect it) = recalc_effect it.
Proof.
  unfold recalc_effect. destruct (needs_refresh it) eqn:H.
  - rewrite (needs_refresh_refresh _ H). apply refresh_idem.
  - by rewrite H.
Qed.

Lemma foldl_alter_lookup {A} (f : A → A) (l : list nat) (d : list A) (j : nat) :
  (∀ x, f (f x) = f x) →
  foldl (λ d i, alter f i d) d l !! j
  = if bool_decide (j ∈ l) then f <$> d !! j else d !! j.
Proof.
  intros Hf. revert d. induction l as [|a l IH]; intros d.
  - done.
  - cbn [foldl]. rewrite IH. destruct (decide (j = a)) as [->|Hne].
    + rewrite list_lookup_alter_eq.
      rewrite (bool_decide_eq_true_2 (a ∈ a :: l)); [|by left].
      case_bool_decide; [|done].
      destruct (d !! a); simpl; [|done]. by rewrite Hf.
    + rewrite list_lookup_alter_ne; [|done].
      rewrite (bool_decide_ext (j ∈ a :: l) (j ∈ l)); [done|].
      rewrite elem_of_cons. split; [by intros [?|?] | by right].
Qed.

Lemma recalcOpenHeights_doc (this : instance) (w : world) :
  _recalcOpenHeights this w
  = with_doc (λ d, foldl (λ d i, alter recalc_effect i d) d (items this)) w.
Proof.
  unfold _recalcOpenHeights. generalize (items this) as l. intros l. revert w.
  induction l as [|a l IH]; intros w; simpl.
  - symmetry. by apply with_doc_same.
  - rewrite IH, recalc_item_effect. by destruct w.
Qed.

(** C7, as stated, fails.  Item 0 is open with its height released
    (['none']) and is left alone by a resize; item 1 is open and in the
    middle of its opening transition (max-height [120px], the listener
    still waiting) and has its max-height replaced by the scroll
    height. *)
Lemma C7_counterexample :
  let this := construct 0 ∅ [0; 1] in
  let w' := _recalcOpenHeights this resize_world in
  (is_open resize_world 0 = true
   ∧ is_closing resize_world 0 = false
   ∧ maxHeight_of resize_world 0 = Some (css_str "none")
   ∧ maxHeight_of w' 0 = Some (css_str "none"))
  ∧ (is_open resize_world 1 = true
     ∧ listeners_of 1 resize_world = [(onEnd 1, false)]
     ∧ maxHeight_of resize_world 1 = Some (css_px 120)
     ∧ maxHeight_of w' 1 = Some (css_px 150)).
Proof. by vm_compute. Qed.

(** C7, amended: a resize replaces the inline max-height by the scroll
    height for exactly those Items of the Container that are open, not
    closing, and whose inline max-height is not ['none'] (a panel whose
    height is still constrained); every other Item, closed, closing or
    released to ['none'], is left unchanged, as are the pending
    callbacks. *)
Theorem C7_recalc_amended (this : instance) (w : world) (j : nat) (it : item) :
  doc w !! j = Some it →
  let w' := _recalcOpenHeights this w in
  doc w' !! j
  = Some (if bool_decide (j ∈ items this) && needs_refresh it
          then content_style "max-height"
                 (css_px (from_option c_scrollHeight 0%Z (i_content it))) it
          else it)
  ∧ frames w' = frames w ∧ timers w' = timers w.
Proof.
  intros Hit w'. unfold w'. rewrite recalcOpenHeights_doc. simpl.
  split; [|done].
  rewrite foldl_alter_lookup by apply recalc_effect_idem.
  rewrite Hit. simpl. unfold recalc_effect.
  destruct (bool_decide (j ∈ items this)); simpl; [|done].
  destruct (needs_refresh it) eqn:Hn; [|done].
  unfold refresh. unfold needs_refresh in Hn.
  destruct (i_content it); simpl; [done|].
  by rewrite andb_false_r in Hn.
Qed.

Lemma isSome_is_Some {A} (x : option A) : isSome x = true → is_Some x.
Proof. destruct x; [by eexists | done]. Qed.

Lemma default_Some {A} (d : A) (x : option A) :
  isSome x = true → x = Some (default d x).
Proof. by destruct x. Qed.

Lemma C7_recalc_amended_witness :
  let this := construct 0 ∅ [0; 1] in
  let it := default (sample_item ∅ 0 0 0) (doc resize_world !! 1) in
  doc resize_world !! 1 = Some it
  ∧ maxHeight_of (_recalcOpenHeights this resize_world) 1 = Some (css_px 150).
Proof.
  intros this it.
  assert (Hit : doc resize_world !! 1 = Some it)
    by (apply default_Some; by vm_compute).
  split; [exact Hit|].
  destruct (C7_recalc_amended this resize_world 1 it Hit) as [H _].
  unfold maxHeight_of, content_of. rewrite H. by vm_compute.
Defined.

(* ================================================================== *)
(** * Opening: what is scheduled                                        *)
(* ================================================================== *)

(** [_openItem] never sets a timer. *)
Lemma openItem_timers (this : instance) (i : nat) (instant : bool) (w : world) :
  timers (_openItem this i instant w) = timers w.
Proof.
  unfold _openItem. destruct (doc w !! i) as [it|]; [|done].
  destruct (i_toggle it), (i_content it); try done.
  by destruct (num_gt0 _).
Qed.

(** [_openItem] on an item with its two parts always requests an
    animation frame, whatever the duration. *)
Lemma openItem_frames (this : instance) (i : nat) (instant : bool) (w : world)
    (it : item) (t : toggle_el) (c : content_el) :
  doc w !! i = Some it → i_toggle it = Some t → i_content it = Some c →
  let s := _getSettings (defaults this) (reducedMotion w) (i_attributes it) in
  frames (_openItem this i instant w)
  = frames w
    ++ [openFrame i (if instant then num 0 else duration s) s (c_offsetHeight c) instant].
Proof.
  intros Hit Ht Hc s. unfold _openItem. rewrite Hit, Ht, Hc.
  by destruct (num_gt0 _).
Qed.

(** C2 at its failing input.  With a resolved duration of 0 the open
    operation still registers an animation-frame callback; at the end
    of the turn the children are at opacity 0 and the height is
    released, and the frame callback then puts a pixel max-height back.
    The close operation on the same Item does complete in its turn with
    nothing scheduled. *)
Theorem C2_open_instant_evaluation :
  let this := construct 0 ∅ [0] in
  let w1 := _openItem this 0 false reduced_world in
  let w2 := run_frame w1 in
  let w3 := _closeItem this 0 w2 in
  (frames w1 = [openFrame 0 (num 0) reduced_settings 120 false]
   ∧ listeners_of 0 w1 = [] ∧ timers w1 = []
   ∧ maxHeight_of w1 0 = Some (css_str "none")
   ∧ first_opacity w1 0 = Some (css_str "0"))
  ∧ (maxHeight_of w2 0 = Some (css_px 120)
     ∧ first_opacity w2 0 = Some (css_str "1")
     ∧ frames w2 = [] ∧ listeners_of 0 w2 = [] ∧ timers w2 = [])
  ∧ (is_open w3 0 = false ∧ frames w3 = [] ∧ listeners_of 0 w3 = []
     ∧ timers w3 = [] ∧ maxHeight_of w3 0 = Some (css_str "")).
Proof. by vm_compute. Qed.

(* ================================================================== *)
(** * Opening: no fallback                                              *)
(* ================================================================== *)

Lemma foldl_fixed {A B} (f : A → B → A) (a : A) (l : list B) :
  (∀ x, x ∈ l → f a x = a) → foldl f a l = a.
Proof.
  induction l as [|x l IH]; intros H; simpl; [done|].
  rewrite H by left. apply IH. intros y Hy. apply H. by right.
Qed.

Lemma with_reducedMotion_same (w : world) : with_reducedMotion (reducedMotion w) w = w.
Proof. by destruct w. Qed.

Lemma quiet_passive (w : world) (ev : event) :
  quiet w → passive ev = true → ∃ b, handle ev w = Some (with_reducedMotion b w).
Proof.
  intros (Hf & Ht & Hl) Hp.
  destruct ev as [| | |i e|n| |b'|]; try discriminate Hp; cbn [handle].
  - exists (reducedMotion w). rewrite with_reducedMotion_same. f_equal.
    unfold run_frame. rewrite Hf. cbn [foldl].
    destruct w; unfold with_frames; simpl in *. by rewrite Hf.
  - exists (reducedMotion w). rewrite with_reducedMotion_same. f_equal.
    unfold dispatch_transitionend. apply foldl_fixed. intros r Hr.
    assert (Hin : r ∈ listeners_of i w).
    { apply elem_of_app in Hr as [Hr|Hr];
        apply list_elem_of_In, filter_In in Hr as [Hr _];
        by apply list_elem_of_In. }
    destruct (Hl i r Hin) as [k ->]. unfold run_listener.
    destruct (existsb _ _); [|done]. cbn [fst]. unfold run_onEnd.
    cbn [passive] in Hp. by rewrite Hp.
  - exists (reducedMotion w). rewrite with_reducedMotion_same. f_equal.
    unfold fire_timer. rewrite Ht. by destruct n.
  - by exists b'.
Qed.

Lemma quiet_reducedMotion (w : world) (b : bool) :
  quiet w → quiet (with_reducedMotion b w).
Proof. by intros (Hf & Ht & Hl). Qed.

Lemma quiet_run (evs : list event) (w : world) :
  quiet w → forallb passive evs = true →
  ∃ b, run evs w = Some (with_reducedMotion b w).
Proof.
  revert w. induction evs as [|ev evs IH]; intros w Hq Hevs.
  - exists (reducedMotion w). cbn [run]. by rewrite with_reducedMotion_same.
  - cbn [forallb] in Hevs. apply andb_prop in Hevs as [Hev Hevs].
    destruct (quiet_passive w ev Hq Hev) as [b1 Hb1].
    destruct (IH (with_reducedMotion b1 w) (quiet_reducedMotion w b1 Hq) Hevs)
      as [b2 Hb2].
    exists b2. cbn [run]. rewrite Hb1. cbn [mbind option_bind]. by rewrite Hb2.
Qed.

Lemma maxHeight_of_reducedMotion (b : bool) (w : world) (i : nat) :
  maxHeight_of (with_reducedMotion b w) i = maxHeight_of w i.
Proof. reflexivity. Qed.

Lemma listeners_of_reducedMotion (b : bool) (w : world) (i : nat) :
  listeners_of i (with_reducedMotion b w) = listeners_of i w.
Proof. reflexivity. Qed.

Lemma timers_reducedMotion (b : bool) (w : world) :
  timers (with_reducedMotion b w) = timers w.
Proof. reflexivity. Qed.

Lemma opening_world_quiet : quiet opening_world.
Proof.
  split; [by vm_compute|]. split; [by vm_compute|].
  intros i r Hr. exists 0. destruct i as [|i].
  - vm_compute in Hr. apply list_elem_of_In in Hr as [<-|[]]. reflexivity.
  - vm_compute in Hr. by apply list_elem_of_In in Hr.
Qed.

(** C6 at its failing input.  While an Item is opening, nothing but the
    [transitionend] of max-height releases the height: no timer is
    pending, and every run of animation frames, timeouts, changes of the
    motion preference and [transitionend] events of other properties
    leaves the panel at its pixel max-height with [onEnd] still
    waiting. *)
Theorem C6_open_stranded (evs : list event) :
  forallb passive evs = true →
  timers opening_world = []
  ∧ ∃ w', run evs opening_world = Some w'
          ∧ maxHeight_of w' 0 = Some (css_px 120)
          ∧ listeners_of 0 w' = [(onEnd 0, false)]
          ∧ timers w' = [].
Proof.
  intros Hevs. split; [by vm_compute|].
  destruct (quiet_run evs opening_world opening_world_quiet Hevs) as [b Hb].
  exists (with_reducedMotion b opening_world). split; [exact Hb|].
  rewrite maxHeight_of_reducedMotion, listeners_of_reducedMotion,
    timers_reducedMotion.
  by vm_compute.
Qed.

Lemma C6_open_stranded_witness :
  ∃ w', run [AnimationFrame; Timeout 0;
             TransitionEnd 0 {| target_is_content := false; propertyName := "opacity" |};
             Timeout 3; AnimationFrame] opening_world = Some w'
        ∧ maxHeight_of w' 0 = Some (css_px 120).
Proof.
  destruct (C6_open_stranded
              [AnimationFrame; Timeout 0;
               TransitionEnd 0 {| target_is_content := false; propertyName := "opacity" |};
               Timeout 3; AnimationFrame] eq_refl) as [_ [w' [H1 [H2 _]]]].
  exists w'. by split.
Defined.

(* ================================================================== *)
(** * Locality of open and close                                        *)
(* ================================================================== *)

Lemma touches_only_refl (i : nat) (w : world) : touches_only i w w.
Proof. by repeat split. Qed.

Lemma touches_only_with_item (i : nat) (f : item → item) (w : world) :
  (∀ x, i_attributes (f x) = i_attributes x) →
  (∀ x, i_closest (f x) = i_closest x) →
  touches_only i w (with_item i f w).
Proof.
  intros Ha Hc. unfold touches_only, with_item; simpl.
  repeat split.
  - intros j Hj. by apply list_lookup_alter_ne.
  - rewrite list_lookup_alter_eq. destruct (doc w !! i); simpl; [|done].
    by rewrite Ha.
  - rewrite list_lookup_alter_eq. destruct (doc w !! i); simpl; [|done].
    by rewrite Hc.
Qed.

Lemma touches_only_trans (i : nat) (w1 w2 w3 : world) :
  touches_only i w1 w2 → touches_only i w2 w3 → touches_only i w1 w3.
Proof.
  intros (H1 & H2 & H3 & H4 & H5) (G1 & G2 & G3 & G4 & G5).
  repeat split; try congruence.
  intros j Hj. rewrite G1 by done. by apply H1.
Qed.

Lemma touches_only_insert (i : nat) (it it' : item) (w : world) :
  doc w !! i = Some it →
  i_attributes it' = i_attributes it → i_closest it' = i_closest it →
  touches_only i w (with_doc (<[i := it']>) w).
Proof.
  intros Hit Ha Hc. unfold touches_only; simpl.
  assert (Hlt : i < length (doc w)) by (by eapply lookup_lt_Some).
  repeat split.
  - intros j Hj. by apply list_lookup_insert_ne.
  - rewrite list_lookup_insert_eq by done. rewrite Hit. simpl. by rewrite Ha.
  - rewrite list_lookup_insert_eq by done. rewrite Hit. simpl. by rewrite Hc.
Qed.

(** World updates that leave the document alone. *)
Lemma touches_only_scheduling (i : nat) (w w' : world) :
  doc w' = doc w → registry w' = registry w → reducedMotion w' = reducedMotion w →
  touches_only i w w'.
Proof. intros Hd Hr Hm. unfold touches_only. rewrite Hd. by repeat split. Qed.

Create HintDb accordion.
#[local] Hint Resolve touches_only_refl : accordion.

Ltac world_simpl :=
  cbn [doc registry reducedMotion frames timers hasCompleted nextClosure
       with_doc with_registry with_reducedMotion with_frames with_timers
       with_hasCompleted with_nextClosure with_item requestAnimationFrame
       setTimeout clearTimeout] in *.

Ltac lookup_simpl :=
  repeat first
    [ rewrite list_lookup_alter_ne by done
    | rewrite list_lookup_insert_ne by done
    | rewrite list_lookup_alter_eq
    | rewrite list_lookup_insert_eq by (by eapply lookup_lt_Some) ].

Ltac touches_only_tac :=
  unfold touches_only; world_simpl;
  repeat split; try done;
  [ intros; by lookup_simpl | lookup_simpl .. ].

Lemma cleanup_touches_only (k i : nat) (s : settings) (w : world) :
  touches_only i w (cleanup k i s w).
Proof.
  unfold cleanup. destruct (bool_decide (k ∈ hasCompleted w)); [apply touches_only_refl|].
  touches_only_tac; destruct (doc w !! i); try done; by destruct (contentFade s).
Qed.

Lemma openItem_touches_only (this : instance) (i : nat) (instant : bool) (w : world) :
  touches_only i w (_openItem this i instant w).
Proof.
  unfold _openItem. destruct (doc w !! i) as [it|] eqn:Hit; [|apply touches_only_refl].
  destruct (i_toggle it) as [t|]; [|apply touches_only_refl].
  destruct (i_content it) as [c|]; [|apply touches_only_refl].
  destruct (num_gt0 _); touches_only_tac; rewrite Hit;
    by destruct (contentFade _ && negb instant).
Qed.

Lemma closeItem_touches_only (this : instance) (i : nat) (w : world) :
  touches_only i w (_closeItem this i w).
Proof.
  unfold _closeItem. destruct (doc w !! i) as [it|] eqn:Hit; [|apply touches_only_refl].
  destruct (i_toggle it) as [t|]; [|apply touches_only_refl].
  destruct (i_content it) as [c|]; [|apply touches_only_refl].
  destruct (bool_decide (c_dataset c !! "isClosing" = Some "true"));
    [apply touches_only_refl|].
  destruct (num_gt0 _).
  - touches_only_tac; by rewrite Hit.
  - eapply touches_only_trans; [|apply cleanup_touches_only].
    touches_only_tac; by rewrite Hit.
Qed.

(* ================================================================== *)
(** * Toggle: what it leaves alone                                      *)
(* ================================================================== *)

Lemma touches_only_linkGroup (i : nat) (w w' : world) (k : nat) :
  touches_only i w w' → linkGroup w' k = linkGroup w k.
Proof.
  intros (H1 & H2 & _). unfold linkGroup. destruct (decide (k = i)) as [->|Hne].
  - destruct (doc w' !! i), (doc w !! i); simpl in H2; try done.
    by injection H2 as ->.
  - by rewrite H1.
Qed.

Lemma touches_only_doc (i : nat) (w w' : world) (j : nat) :
  touches_only i w w' → j ≠ i → doc w' !! j = doc w !! j.
Proof. intros (H1 & _) Hj. by apply H1. Qed.

Lemma syncLinked_item_touches_only (this : instance) (trigger : nat) (shouldOpen : bool)
    (w : world) (x : nat) :
  touches_only x w (syncLinked_item this trigger shouldOpen w x).
Proof.
  unfold syncLinked_item, _openItemGlobal, _closeItemGlobal.
  destruct (bool_decide (x = trigger)); [apply touches_only_refl|].
  destruct (shouldOpen && negb (is_open w x)).
  { destruct (instanceForItem w x); apply openItem_touches_only. }
  destruct (negb shouldOpen && is_open w x); [|apply touches_only_refl].
  destruct (instanceForItem w x); apply closeItem_touches_only.
Qed.

Lemma autoClose_sibling_touches_only (this : instance) (item : nat)
    (groupId : option string) (w : world) (x : nat) :
  touches_only x w (autoClose_sibling this item groupId w x).
Proof.
  unfold autoClose_sibling.
  destruct (negb (bool_decide (x = item)) && is_open w x); [|apply touches_only_refl].
  destruct (truthy (linkGroup w x) && bool_decide (linkGroup w x = groupId));
    [apply touches_only_refl | apply closeItem_touches_only].
Qed.

(** A loop whose body for [x] touches only item [x] leaves every item
    outside the list alone. *)
Lemma foldl_untouched (f : world → nat → world) (l : list nat) (w : world) (j : nat) :
  (∀ w x, touches_only x w (f w x)) → j ∉ l →
  doc (foldl f w l) !! j = doc w !! j.
Proof.
  intros Hf. revert w. induction l as [|a l IH]; intros w Hj; [done|].
  cbn [foldl]. rewrite IH by (intros ?; apply Hj; by right).
  apply (touches_only_doc a); [apply Hf|]. intros ->. apply Hj. by left.
Qed.


Lemma querySelectorAll_linkGroup_elem (w : world) (g : string) (l : list nat) (j : nat) :
  querySelectorAll_linkGroup w g = Some l → j ∈ l → linkGroup w j = Some g.
Proof.
  unfold querySelectorAll_linkGroup. destruct (selector_plain g); [|done].
  intros [= <-] Hj. apply list_elem_of_In, filter_In in Hj as [_ Hj].
  by apply bool_decide_eq_true in Hj.
Qed.

Lemma toggle_first_touches_only (this : instance) (item : nat) (w : world) :
  touches_only item w (toggle_first this item w).
Proof.
  unfold toggle_first.
  destruct (is_open w item); [apply closeItem_touches_only | apply openItem_touches_only].
Qed.

(** [_toggle] returns whenever the group id of the item, if any, can be
    spelt inside the quoted selector. *)
Lemma toggle_returns (this : instance) (item : nat) (w : world) :
  (∀ g, linkGroup w item = Some g → selector_plain g = true) →
  ∃ w', _toggle this item w = Some w'.
Proof.
  intros Hplain. unfold _toggle. fold (toggle_first this item w).
  rewrite (touches_only_linkGroup item w) by apply toggle_first_touches_only.
  destruct (linkGroup w item) as [g|] eqn:Hg; cbn [mbind option_bind]; [|eauto].
  destruct (truthy (Some g)); cbn [mbind option_bind]; [|eauto].
  unfold _syncLinkedGroup, querySelectorAll_linkGroup.
  rewrite (Hplain g eq_refl). cbn [mbind option_bind]. eauto.
Qed.

(** C10: a toggle of [item] on instance [this] changes no Item other
    than [item] itself, the Items carrying the same (non-empty) link
    group as [item], and, when the toggle opens [item] under auto-close,
    the Items of [this].  In particular the link group of an
    auto-closed sibling, and the siblings and link groups of the Items
    opened or closed by propagation, are not touched. *)
Theorem C10_toggle_frame (this : instance) (item : nat) (w : world) (j : nat) :
  (∀ g, linkGroup w item = Some g → selector_plain g = true) →
  j ≠ item →
  ¬ (truthy (linkGroup w item) = true ∧ linkGroup w j = linkGroup w item) →
  ¬ (j ∈ items this ∧ autoClose this = true ∧ is_open w item = false) →
  ∃ w', _toggle this item w = Some w' ∧ doc w' !! j = doc w !! j.
Proof.
  intros Hplain Hj Hgroup Hsib.
  destruct (toggle_returns this item w Hplain) as [w' Hw']. exists w'.
  split; [done|]. revert Hw'. unfold _toggle. fold (toggle_first this item w).
  pose proof (toggle_first_touches_only this item w) as H1.
  rewrite (touches_only_linkGroup item w) by done.
  set (w1 := toggle_first this item w) in *.
  assert (Hj1 : doc w1 !! j = doc w !! j) by (by apply (touches_only_doc item)).
  assert (Hsync : ∀ g w2, truthy (Some g) = true → linkGroup w item = Some g →
            _syncLinkedGroup this g item (negb (is_open w item)) w1 = Some w2 →
            doc w2 !! j = doc w1 !! j).
  { intros g w2 Ht Hg. unfold _syncLinkedGroup.
    destruct (querySelectorAll_linkGroup w1 g) as [l|] eqn:Hl; [|done].
    cbn [mbind option_bind]. intros [= <-].
    apply foldl_untouched; [apply syncLinked_item_touches_only|].
    intros Hin. apply Hgroup. split; [by rewrite Hg|].
    rewrite Hg. rewrite <- (querySelectorAll_linkGroup_elem w1 g l j Hl Hin).
    symmetry. by apply (touches_only_linkGroup item). }
  assert (Hloop : ∀ w2,
            doc (if negb (is_open w item) && autoClose this
                 then foldl (autoClose_sibling this item (linkGroup w item)) w2
                        (items this)
                 else w2) !! j = doc w2 !! j).
  { intros w2. destruct (is_open w item) eqn:Hopen; [done|].
    destruct (autoClose this) eqn:Hauto; [|done]. cbn [negb andb].
    apply foldl_untouched; [apply autoClose_sibling_touches_only|].
    intros Hin. by apply Hsib. }
  destruct (linkGroup w item) as [g|] eqn:Hg; cbn [mbind option_bind].
  - destruct (truthy (Some g)) eqn:Ht; cbn [mbind option_bind].
    + destruct (_syncLinkedGroup _ _ _ _ _) as [w2|] eqn:Hw2; [|done].
      cbn [mbind option_bind]. intros [= <-].
      rewrite Hloop, (Hsync g w2 Ht eq_refl Hw2). done.
    + intros [= <-]. by rewrite Hloop.
  - intros [= <-]. by rewrite Hloop.
Qed.

(* ================================================================== *)
(** * Auto-close                                                        *)
(* ================================================================== *)

(** A close request on a panel that is already closing changes
    nothing. *)
Lemma closeItem_noop (this : instance) (j : nat) (w : world) :
  is_closing w j = true → _closeItem this j w = w.
Proof.
  unfold is_closing, content_of, _closeItem.
  destruct (doc w !! j) as [it|]; [|done].
  destruct (i_content it) as [c|]; [|done].
  intros ->. by destruct (i_toggle it).
Qed.

Lemma closeItem_closes (this : instance) (j : nat) (w : world) (it : item) :
  doc w !! j = Some it → is_Some (i_toggle it) → is_Some (i_content it) →
  closing_or_closed (_closeItem this j w) j = true.
Proof.
  intros Hit [t Ht] [c Hc].
  assert (Hlt : j < length (doc w)) by (by eapply lookup_lt_Some).
  destruct (is_closing w j) eqn:Hclosing.
  { rewrite closeItem_noop by done. unfold closing_or_closed. by rewrite Hclosing. }
  unfold is_closing, content_of in Hclosing. rewrite Hit, Hc in Hclosing.
  unfold _closeItem. rewrite Hit, Ht, Hc, Hclosing.
  destruct it as [a cl st ot oc cc]. cbn in Ht, Hc. subst ot oc.
  unfold closing_or_closed, is_closing, is_open, content_of.
  destruct (num_gt0 _).
  - world_simpl. lookup_simpl. cbn.
    rewrite lookup_insert_eq. by rewrite bool_decide_eq_true_2.
  - unfold cleanup. world_simpl.
    rewrite bool_decide_eq_false_2 by set_solver.
    world_simpl. lookup_simpl.
    apply orb_true_iff. right. apply negb_true_iff.
    destruct (contentFade _); cbn;
      unfold classList_contains, classList_remove;
      apply bool_decide_eq_false_2; set_solver.
Qed.

Lemma closing_or_closed_doc (w w' : world) (j : nat) :
  doc w' !! j = doc w !! j → closing_or_closed w' j = closing_or_closed w j.
Proof.
  intros H. unfold closing_or_closed, is_closing, is_open, content_of. by rewrite H.
Qed.






Lemma toggle_C : _toggle container0 2 group_world = Some group_world_C.
Proof. apply default_Some. by vm_compute. Qed.

(** The scenario of C5: opening C while A and B are open leaves B open
    and closes A, whose close completes when its height transition
    ends. *)
Example autoClose_three_items :
  let w' := group_world_C in
  let w'' := dispatch_transitionend 0 max_height_event (run_frame w') in
  (is_open group_world 0 = true ∧ is_open group_world 1 = true
   ∧ is_open group_world 2 = false)
  ∧ (is_open w' 2 = true ∧ is_open w' 1 = true ∧ is_closing w' 1 = false
     ∧ is_closing w' 0 = true)
  ∧ (is_open w'' 0 = false ∧ is_open w'' 1 = true ∧ is_open w'' 2 = true).
Proof. by vm_compute. Qed.


Lemma C10_toggle_frame_witness :
  ∃ w', _toggle container0 2 group_world = Some w'
    ∧ doc w' !! 3 = doc group_world !! 3.
Proof.
  apply (C10_toggle_frame container0 2 group_world 3).
  - intros g Hg. vm_compute in Hg. by injection Hg as <-.
  - lia.
  - intros [_ H]. by vm_compute in H.
  - intros [H _]. vm_compute in H.
    repeat (apply elem_of_cons in H as [H|H]; [lia|]). by apply elem_of_nil in H.
Defined.

(** In that run E (item 4, group "h") is closed by auto-close while its
    group-mate D (item 3) in the other Container stays as it was. *)
Example autoClose_does_not_propagate :
  is_open group_world 4 = true ∧ is_closing group_world_C 4 = true
  ∧ is_open group_world_C 3 = true ∧ is_closing group_world_C 3 = false.
Proof. by vm_compute. Qed.

(* ================================================================== *)
(** * The double-close guard                                            *)
(* ================================================================== *)

Lemma listeners_of_item (w : world) (i : nat) :
  listeners_of i w = from_option item_listeners [] (doc w !! i).
Proof. unfold listeners_of. by destruct (doc w !! i). Qed.

Lemma is_closing_item (w : world) (i : nat) :
  is_closing w i = from_option item_closing false (doc w !! i).
Proof. unfold is_closing, content_of. by destruct (doc w !! i). Qed.

Lemma benign_refl (w : world) : benign w w.
Proof.
  repeat split; try done. exists []. by rewrite app_nil_r.
Qed.

Lemma benign_trans (w1 w2 w3 : world) : benign w1 w2 → benign w2 w3 → benign w1 w3.
Proof.
  intros (H1 & (p1 & H2 & H2') & H3 & H4) (G1 & (p2 & G2 & G2') & G3 & G4).
  repeat split.
  - lia.
  - exists (p1 ++ p2). rewrite G2, H2, app_assoc. split; [done|].
    by apply Forall_app.
  - intros i. by rewrite G3.
  - intros i k s c Hr. by apply H4, G4.
Qed.

Lemma filter_probes (i : nat) (probes : list timer) :
  Forall (λ t, callback t = logProbe) probes →
  List.filter (fallback_for i) probes = [].
Proof.
  induction 1 as [|t l Ht _ IH]; [done|].
  cbn [List.filter]. unfold fallback_for at 1. by rewrite Ht.
Qed.

Lemma closes_in_flight_probes (w w' : world) (i : nat) (probes : list timer) :
  timers w' = timers w ++ probes →
  Forall (λ t, callback t = logProbe) probes →
  closes_in_flight w' i = closes_in_flight w i.
Proof.
  intros Ht Hp. unfold closes_in_flight.
  by rewrite Ht, List.filter_app, (filter_probes i probes Hp), app_nil_r.
Qed.

Lemma benign_inv (w w' : world) : guard_inv w → benign w w' → guard_inv w'.
Proof.
  intros [I1 I2 I3 I4 I5] (H1 & (probes & H2 & Hp) & H3 & H4).
  assert (Hin : ∀ t k i s, t ∈ timers w' → callback t = fallbackTimeout k i s →
                           t ∈ timers w).
  { intros t k i s Ht Hc. rewrite H2 in Ht. apply elem_of_app in Ht as [?|Ht]; [done|].
    rewrite Forall_forall in Hp. by rewrite (Hp t Ht) in Hc. }
  split.
  - intros i. rewrite (closes_in_flight_probes w w' i probes); auto.
  - intros i. rewrite (closes_in_flight_probes w w' i probes), H3; auto.
  - intros i k s c Hr. destruct (I3 i k s c (H4 i k s c Hr)) as [-> [t [Ht Hc]]].
    split; [done|].
    exists t. split; [|done]. rewrite H2. apply elem_of_app. by left.
  - intros t k i s Ht Hc. specialize (I4 t k i s (Hin t k i s Ht Hc) Hc). lia.
  - intros t t' k i i' s s' Ht Ht' Hc Hc'.
    by apply (I5 t t' k i i' s s'); [eapply Hin | eapply Hin | |].
Qed.

Lemma benign_with_item (i : nat) (f : item → item) (w : world) :
  (∀ it, item_closing (f it) = item_closing it) →
  (∀ it k s c, (transitionEndHandler k s, c) ∈ item_listeners (f it) →
               (transitionEndHandler k s, c) ∈ item_listeners it) →
  benign w (with_item i f w).
Proof.
  intros Hc Hl. unfold benign. world_simpl. split; [done|]. split; [|split].
  - exists []. by rewrite app_nil_r.
  - intros j. rewrite !is_closing_item. world_simpl.
    destruct (decide (j = i)) as [->|Hne]; lookup_simpl; [|done].
    destruct (doc w !! i); [apply Hc | done].
  - intros j k s c. rewrite !listeners_of_item. world_simpl.
    destruct (decide (j = i)) as [->|Hne]; lookup_simpl; [|done].
    destruct (doc w !! i); [apply Hl | done].
Qed.

Lemma benign_insert (i : nat) (it it' : item) (w : world) :
  doc w !! i = Some it →
  item_closing it' = item_closing it →
  (∀ k s c, (transitionEndHandler k s, c) ∈ item_listeners it' →
            (transitionEndHandler k s, c) ∈ item_listeners it) →
  benign w (with_doc (<[i := it']>) w).
Proof.
  intros Hit Hc Hl. unfold benign. world_simpl. split; [done|]. split; [|split].
  - exists []. by rewrite app_nil_r.
  - intros j. rewrite !is_closing_item. world_simpl.
    destruct (decide (j = i)) as [->|Hne]; lookup_simpl; [|done].
    by rewrite Hit.
  - intros j k s c. rewrite !listeners_of_item. world_simpl.
    destruct (decide (j = i)) as [->|Hne]; lookup_simpl; [|done].
    rewrite Hit. apply Hl.
Qed.

(** Updates outside the document and the timers. *)
Lemma benign_scheduling (w w' : world) :
  doc w' = doc w → timers w' = timers w → (nextClosure w ≤ nextClosure w')%nat →
  benign w w'.
Proof.
  intros Hd Ht Hn. unfold benign. split; [done|]. split; [|split].
  - exists []. by rewrite Ht, app_nil_r.
  - intros j. rewrite !is_closing_item. by rewrite Hd.
  - intros j k s c. rewrite !listeners_of_item. by rewrite Hd.
Qed.

Lemma addEventListener_listeners (l : listener) (capture : bool) (it : item)
    (r : listener * bool) :
  r ∈ item_listeners (addEventListener l capture it) →
  r ∈ item_listeners it ∨ r = (l, capture).
Proof.
  destruct it as [a cl st ot [c|] cc]; cbn; [|by left].
  destruct (existsb _ _); [by left|].
  intros [?|H]%elem_of_app; [by left|]. right. by apply list_elem_of_singleton in H.
Qed.

Lemma removeEventListener_listeners (l : listener) (capture : bool) (it : item)
    (r : listener * bool) :
  r ∈ item_listeners (removeEventListener l capture it) →
  r ∈ item_listeners it ∧ registration_eqb (l, capture) r = false.
Proof.
  destruct it as [a cl st ot [c|] cc]; cbn; [|by intros ?%elem_of_nil].
  intros H%list_elem_of_In%filter_In. destruct H as [H1 H2].
  split; [by apply list_elem_of_In | by apply negb_true_iff].
Qed.

Ltac item_cases it :=
  destruct it as [? ? ? ? [?|] ?]; cbn; try done.

Lemma openItem_benign (this : instance) (i : nat) (instant : bool) (w : world) :
  benign w (_openItem this i instant w).
Proof.
  unfold _openItem. destruct (doc w !! i) as [it|] eqn:Hit; [|apply benign_refl].
  destruct (i_toggle it) as [t|]; [|apply benign_refl].
  destruct (i_content it) as [c|] eqn:Hc; [|apply benign_refl].
  match goal with
  | |- context [with_doc (<[i := ?x]>) w] => set (it' := x)
  end.
  assert (H1 : benign w (with_doc (<[i := it']>) w)).
  { apply (benign_insert i it); [done| |]; unfold it';
      destruct (contentFade _ && negb instant); by item_cases it. }
  eapply benign_trans; [exact H1|].
  eapply (benign_trans _
            (with_nextClosure S
               (requestAnimationFrame
                  (openFrame i (if instant then num 0 else duration _) _
                     (c_offsetHeight c) instant)
                  (with_doc (<[i := it']>) w)))).
  { apply benign_scheduling; world_simpl; [done|done|lia]. }
  destruct (num_gt0 _).
  - apply benign_with_item.
    + intros x. by item_cases x.
    + intros x k s c0 [H|H]%addEventListener_listeners; [done | discriminate].
  - apply benign_with_item; intros x; by item_cases x.
Qed.

Lemma run_openFrame_benign (i : nat) (dur : number) (s : settings) (h : Z)
    (instant : bool) (w : world) :
  benign w (run_openFrame i dur s h instant w).
Proof.
  unfold run_openFrame. apply benign_with_item; intros x;
    destruct (contentFade s && negb instant); by item_cases x.
Qed.

Lemma run_closeFrame_benign (i : nat) (s : settings) (w : world) :
  benign w (run_closeFrame i s w).
Proof.
  unfold run_closeFrame.
  set (w1 := with_item i _ w).
  assert (H1 : benign w w1) by (apply benign_with_item; intros x; by item_cases x).
  set (w2 := setTimeout logProbe (num 100) (setTimeout logProbe (num 10) w1)).
  assert (H2 : benign w1 w2).
  { unfold benign, w2. world_simpl. split; [done|]. split; [|split].
    - exists [{| callback := logProbe; delay := num 10 |};
              {| callback := logProbe; delay := num 100 |}].
      split; [by rewrite <- app_assoc | by repeat constructor].
    - intros j. by rewrite !is_closing_item.
    - intros j k s0 c. by rewrite !listeners_of_item. }
  destruct (contentFade s).
  - eapply benign_trans; [exact H1|]. eapply benign_trans; [exact H2|].
    apply benign_with_item; intros x; by item_cases x.
  - eapply benign_trans; [exact H1 | exact H2].
Qed.

Lemma run_onEnd_benign (k i : nat) (e : transition_event) (w : world) :
  benign w (run_onEnd k i e w).
Proof.
  unfold run_onEnd. destruct (negb _); [apply benign_refl|].
  apply benign_with_item.
  - intros x. by item_cases x.
  - intros x k0 s c [H _]%removeEventListener_listeners. revert H. by item_cases x.
Qed.

Lemma recalc_item_benign (w : world) (i : nat) : benign w (recalc_item w i).
Proof.
  rewrite recalc_item_effect. apply benign_with_item; intros x;
    unfold recalc_effect, refresh; destruct (needs_refresh x); try done;
    by item_cases x.
Qed.

(** What a close request that passes the guard leaves behind. *)
Lemma closeItem_started (this : instance) (i : nat) (w : world) (it : item)
    (t : toggle_el) (c : content_el) :
  doc w !! i = Some it → i_toggle it = Some t → i_content it = Some c →
  item_closing it = false →
  let s := _getSettings (defaults this) (reducedMotion w) (i_attributes it) in
  let k := nextClosure w in
  let w' := _closeItem this i w in
  nextClosure w' = S k
  ∧ if num_gt0 (duration s) then
      timers w'
      = timers w
        ++ [{| callback := fallbackTimeout k i s;
               delay := num_add (num_mul (duration s) (num 1000)) (num 100) |}]
      ∧ is_closing w' i = true
      ∧ (∀ r, r ∈ listeners_of i w' →
              r ∈ listeners_of i w ∨ r = (debugHandler k, true)
              ∨ r = (transitionEndHandler k s, false))
    else
      timers w' = timers w ∧ listeners_of i w' = listeners_of i w.
Proof.
  intros Hit Ht Hc Hclosing s k w'. unfold w', _closeItem.
  unfold item_closing in Hclosing. rewrite Hc in Hclosing.
  rewrite Hit, Ht, Hc, Hclosing. fold s. fold k.
  rewrite !listeners_of_item, !is_closing_item, Hit.
  destruct (num_gt0 (duration s)).
  - world_simpl. split; [done|]. split; [done|]. lookup_simpl.
    destruct it as [a cl st ot oc cc]. cbn in Ht, Hc. subst ot oc.
    split.
    + cbn. rewrite lookup_insert_eq. by apply bool_decide_eq_true_2.
    + intros r [[H|H]%addEventListener_listeners|H]%addEventListener_listeners;
        auto.
  - unfold cleanup. world_simpl.
    rewrite bool_decide_eq_false_2 by set_solver.
    world_simpl. split; [done|]. split; [done|]. lookup_simpl.
    destruct it as [a cl st ot oc cc]. cbn in Ht, Hc. subst ot oc.
    by destruct (contentFade s).
Qed.

Lemma closes_in_flight_zero (w : world) (i : nat) :
  guard_inv w → is_closing w i = false → closes_in_flight w i = 0.
Proof.
  intros [_ I2 _ _ _] H. destruct (closes_in_flight w i) eqn:E; [done|].
  rewrite I2 in H; [done | lia].
Qed.

Lemma fallback_for_elem (w : world) (i : nat) (t : timer) (k : nat) (s : settings) :
  t ∈ timers w → callback t = fallbackTimeout k i s →
  (0 < closes_in_flight w i)%nat.
Proof.
  intros Ht Hc. unfold closes_in_flight.
  assert (Hin : In t (List.filter (fallback_for i) (timers w))).
  { apply filter_In. split; [by apply list_elem_of_In|].
    unfold fallback_for. rewrite Hc. by apply bool_decide_eq_true_2. }
  destruct (List.filter _ _); [done | cbn; lia].
Qed.

Lemma closeItem_inv (this : instance) (i : nat) (w : world) :
  guard_inv w → guard_inv (_closeItem this i w).
Proof.
  intros Hinv.
  destruct (doc w !! i) as [it|] eqn:Hit;
    [|unfold _closeItem; by rewrite Hit].
  destruct (i_toggle it) as [t|] eqn:Ht;
    [|unfold _closeItem; by rewrite Hit, Ht].
  destruct (i_content it) as [c|] eqn:Hc;
    [|unfold _closeItem; rewrite Hit, Ht, Hc; done].
  destruct (is_closing w i) eqn:Hclosing; [by rewrite closeItem_noop|].
  assert (Hzero := closes_in_flight_zero w i Hinv Hclosing).
  assert (Hitc : item_closing it = false).
  { by rewrite is_closing_item, Hit in Hclosing. }
  pose proof (closeItem_started this i w it t c Hit Ht Hc Hitc) as [Hnext Heff].
  pose proof (closeItem_touches_only this i w) as Htouch.
  set (w' := _closeItem this i w) in *.
  set (s := _getSettings _ _ _) in *.
  assert (Hother_closing : ∀ j, j ≠ i → is_closing w' j = is_closing w j).
  { intros j Hj. rewrite !is_closing_item.
    by rewrite (touches_only_doc i w w' j). }
  assert (Hother_listeners : ∀ j, j ≠ i → listeners_of j w' = listeners_of j w).
  { intros j Hj. rewrite !listeners_of_item.
    by rewrite (touches_only_doc i w w' j). }
  destruct Hinv as [I1 I2 I3 I4 I5].
  destruct (num_gt0 (duration s)).
  - destruct Heff as (Htimers & Hflag & Hls).
    assert (Hcount : ∀ j, closes_in_flight w' j
                          = (closes_in_flight w j + if decide (j = i) then 1 else 0)%nat).
    { intros j. unfold closes_in_flight. rewrite Htimers, List.filter_app, length_app.
      f_equal. cbn. unfold fallback_for. cbn.
      destruct (decide (j = i)) as [->|Hne].
      - by rewrite bool_decide_eq_true_2.
      - by rewrite bool_decide_eq_false_2. }
    assert (Hin : ∀ x, x ∈ timers w' →
              x ∈ timers w
              ∨ callback x = fallbackTimeout (nextClosure w) i s).
    { intros x Hx. rewrite Htimers in Hx. apply elem_of_app in Hx as [?|Hx]; [by left|].
      right. apply list_elem_of_singleton in Hx. by subst x. }
    split.
    + intros j. rewrite Hcount. destruct (decide (j = i)) as [->|?].
      * rewrite Hzero. lia.
      * specialize (I1 j). lia.
    + intros j. rewrite Hcount. destruct (decide (j = i)) as [->|?]; [done|].
      rewrite Hother_closing by done. intros H. apply I2. lia.
    + intros j k0 s0 c0 Hr. destruct (decide (j = i)) as [->|Hne].
      * apply Hls in Hr as [Hr|[Hr|Hr]].
        -- destruct (I3 i k0 s0 c0 Hr) as [-> [x [Hx Hcx]]]. split; [done|].
           exists x.
           split; [|done]. rewrite Htimers. apply elem_of_app. by left.
        -- discriminate.
        -- simplify_eq. split; [done|].
           exists {| callback := fallbackTimeout (nextClosure w) i s;
                     delay := num_add (num_mul (duration s) (num 1000)) (num 100) |}.
           split; [|done].
           rewrite Htimers. apply elem_of_app. right. by apply list_elem_of_singleton.
      * rewrite Hother_listeners in Hr by done.
        destruct (I3 j k0 s0 c0 Hr) as [-> [x [Hx Hcx]]]. split; [done|].
        exists x.
        split; [|done]. rewrite Htimers. apply elem_of_app. by left.
    + intros x k0 j s0 Hx Hcx. rewrite Hnext.
      apply Hin in Hx as [Hx|Hx].
      * specialize (I4 x k0 j s0 Hx Hcx). lia.
      * rewrite Hx in Hcx. simplify_eq. lia.
    + intros x x' k0 j j' s0 s0' Hx Hx' Hcx Hcx'.
      apply Hin in Hx as [Hx|Hx]; apply Hin in Hx' as [Hx'|Hx'].
      * by apply (I5 x x' k0 j j' s0 s0').
      * rewrite Hx' in Hcx'. simplify_eq.
        specialize (I4 x _ j s0 Hx Hcx). lia.
      * rewrite Hx in Hcx. simplify_eq.
        specialize (I4 x' _ j' s0' Hx' Hcx'). lia.
      * rewrite Hx in Hcx. rewrite Hx' in Hcx'. congruence.
  - destruct Heff as (Htimers & Hls).
    assert (Hcount : ∀ j, closes_in_flight w' j = closes_in_flight w j).
    { intros j. unfold closes_in_flight. by rewrite Htimers. }
    split.
    + intros j. rewrite Hcount. apply I1.
    + intros j. rewrite Hcount. destruct (decide (j = i)) as [->|?].
      * rewrite Hzero. lia.
      * rewrite Hother_closing by done. apply I2.
    + intros j k0 s0 c0 Hr. rewrite Htimers.
      destruct (decide (j = i)) as [->|Hne].
      * rewrite Hls in Hr. by apply (I3 i k0 s0 c0).
      * rewrite Hother_listeners in Hr by done. by apply (I3 j k0 s0 c0).
    + intros x k0 j s0 Hx Hcx. rewrite Hnext. rewrite Htimers in Hx.
      specialize (I4 x k0 j s0 Hx Hcx). lia.
    + intros x x' k0 j j' s0 s0'. rewrite Htimers. apply I5.
Qed.

(** ** Completing a close *)

Lemma filter_unique {A} (P : A → bool) (l : list A) (x y : A) :
  (length (List.filter P l) ≤ 1)%nat → x ∈ l → y ∈ l → P x = true → P y = true →
  x = y.
Proof.
  intros Hlen Hx Hy HPx HPy.
  assert (Hx' : x ∈ List.filter P l)
    by (apply list_elem_of_In, filter_In; split; [by apply list_elem_of_In | done]).
  assert (Hy' : y ∈ List.filter P l)
    by (apply list_elem_of_In, filter_In; split; [by apply list_elem_of_In | done]).
  destruct (List.filter P l) as [|a [|b l']]; cbn in Hlen.
  - by apply elem_of_nil in Hx'.
  - apply list_elem_of_singleton in Hx', Hy'. congruence.
  - lia.
Qed.

Lemma filter_nil_intro {A} (P : A → bool) (l : list A) :
  (∀ x, x ∈ l → P x = false) → List.filter P l = [].
Proof.
  induction l as [|a l IH]; intros H; [done|].
  cbn. rewrite H by left. apply IH. intros x Hx. apply H. by right.
Qed.

Lemma filter_filter_same {A} (P Q : A → bool) (l : list A) :
  (∀ x, x ∈ l → P x = true → Q x = true) →
  List.filter P (List.filter Q l) = List.filter P l.
Proof.
  induction l as [|a l IH]; intros H; [done|].
  assert (IH' := IH (λ x Hx, H x (list_elem_of_further _ _ _ Hx))).
  cbn. destruct (Q a) eqn:HQ; cbn; rewrite IH'; [done|].
  destruct (P a) eqn:HP; [|done].
  rewrite H in HQ; [done | by left | done].
Qed.

Lemma filter_delete_false {A} (P : A → bool) (l : list A) (n : nat) (x : A) :
  l !! n = Some x → P x = false →
  List.filter P (delete n l) = List.filter P l.
Proof.
  revert n. induction l as [|a l IH]; intros [|n] Hn HP; try done; simpl in *.
  - injection Hn as ->. by rewrite HP.
  - by rewrite (IH n Hn HP).
Qed.

Lemma filter_delete_true {A} (P : A → bool) (l : list A) (n : nat) (x : A) :
  l !! n = Some x → P x = true →
  S (length (List.filter P (delete n l))) = length (List.filter P l).
Proof.
  revert n. induction l as [|a l IH]; intros [|n] Hn HP; try done; simpl in *.
  - injection Hn as ->. by rewrite HP.
  - destruct (P a); simpl; by rewrite (IH n Hn HP).
Qed.

Lemma elem_of_delete_sub {A} (l : list A) (n : nat) (x : A) :
  x ∈ delete n l → x ∈ l.
Proof.
  revert n. induction l as [|a l IH]; intros [|n] H; simpl in *; try done.
  - by right.
  - apply elem_of_cons in H as [->|H]; [by left | right; by eapply IH].
Qed.

Lemma elem_of_delete_ne {A} (l : list A) (n : nat) (x y : A) :
  x ∈ l → l !! n = Some y → x ≠ y → x ∈ delete n l.
Proof.
  revert n. induction l as [|a l IH]; intros [|n] Hx Hn Hne; simpl in *; try done.
  - injection Hn as ->. apply elem_of_cons in Hx as [?|?]; done.
  - apply elem_of_cons in Hx as [->|Hx]; [by left | right; by eapply IH].
Qed.

(** The close of item [i] whose fallback timer is [t] completes: the
    step takes [t] off the timers, removes the handlers of that close
    from the panel and may reset the closing flag of [i]. *)
Lemma completion_inv (w w' : world) (k i : nat) (s : settings) (t : timer) :
  guard_inv w → t ∈ timers w → callback t = fallbackTimeout k i s →
  nextClosure w' = nextClosure w →
  (∀ x, x ∈ timers w' → x ∈ timers w) →
  closes_in_flight w' i = 0 →
  (∀ j, j ≠ i → closes_in_flight w' j = closes_in_flight w j) →
  (∀ x j k' s', x ∈ timers w → callback x = fallbackTimeout k' j s' → j ≠ i →
                x ∈ timers w') →
  (∀ j, j ≠ i → is_closing w' j = is_closing w j) →
  (∀ j, j ≠ i → listeners_of j w' = listeners_of j w) →
  (∀ k' s' c, (transitionEndHandler k' s', c) ∈ listeners_of i w' →
              (transitionEndHandler k' s', c) ∈ listeners_of i w
              ∧ (c = false → k' ≠ k)) →
  guard_inv w'.
Proof.
  intros [I1 I2 I3 I4 I5] Ht Hct Hnext Hsub Hzero Hcount Hkeep Hclosing Hls Hhandlers.
  split.
  - intros j. destruct (decide (j = i)) as [->|Hne]; [lia|].
    rewrite Hcount by done. apply I1.
  - intros j. destruct (decide (j = i)) as [->|Hne]; [lia|].
    rewrite Hcount, Hclosing by done. apply I2.
  - intros j k' s' c Hr. destruct (decide (j = i)) as [->|Hne].
    + apply Hhandlers in Hr as [Hr Hk].
      destruct (I3 i k' s' c Hr) as [-> [x [Hx Hcx]]]. exfalso.
      apply Hk; [done|].
      assert (x = t).
      { apply (filter_unique (fallback_for i) (timers w)); try done.
        - apply I1.
        - unfold fallback_for. rewrite Hcx. by apply bool_decide_eq_true_2.
        - unfold fallback_for. rewrite Hct. by apply bool_decide_eq_true_2. }
      subst x. congruence.
    + rewrite Hls in Hr by done.
      destruct (I3 j k' s' c Hr) as [-> [x [Hx Hcx]]]. split; [done|].
      exists x. split; [by eapply Hkeep | done].
  - intros x k' j s' Hx Hcx. rewrite Hnext. eapply I4; [by apply Hsub | done].
  - intros x x' k' j j' s0 s0' Hx Hx'. apply I5; by apply Hsub.
Qed.

Lemma cleanup_frame (k i : nat) (s : settings) (w : world) :
  let w' := cleanup k i s w in
  nextClosure w' = nextClosure w ∧ timers w' = timers w
  ∧ (∀ j, j ≠ i → doc w' !! j = doc w !! j)
  ∧ listeners_of i w' = listeners_of i w.
Proof.
  unfold cleanup. destruct (bool_decide (k ∈ hasCompleted w)); [done|].
  world_simpl. repeat split.
  - intros j Hj. by lookup_simpl.
  - rewrite !listeners_of_item. world_simpl. lookup_simpl.
    destruct (doc w !! i) as [it|]; [|done].
    destruct (contentFade s); by item_cases it.
Qed.

Lemma handler_not_removed (k k' : nat) (s s' : settings) (c : bool) :
  registration_eqb (transitionEndHandler k s, false) (transitionEndHandler k' s', c)
  = false →
  c = false → k' ≠ k.
Proof.
  unfold registration_eqb. cbn. intros H -> ->.
  by rewrite bool_decide_eq_true_2 in H.
Qed.

Lemma run_fallbackTimeout_inv (n k i : nat) (s : settings) (t : timer) (w : world) :
  guard_inv w → timers w !! n = Some t → callback t = fallbackTimeout k i s →
  guard_inv (run_fallbackTimeout k i s (with_timers (delete n) w)).
Proof.
  intros Hinv Hn Hct.
  assert (Ht : t ∈ timers w) by (by eapply list_elem_of_lookup_2).
  assert (HPt : fallback_for i t = true).
  { unfold fallback_for. rewrite Hct. by apply bool_decide_eq_true_2. }
  unfold run_fallbackTimeout.
  set (w1 := with_item i _ (with_item i _ (with_timers (delete n) w))).
  destruct (cleanup_frame k i s w1) as (Hnext & Htimers & Hdoc & Hls).
  assert (Hdoc' : ∀ j, j ≠ i → doc (cleanup k i s w1) !! j = doc w !! j).
  { intros j Hj. rewrite Hdoc by done. unfold w1. world_simpl. by lookup_simpl. }
  apply (completion_inv w _ k i s t); try done.
  - intros x. rewrite Htimers. unfold w1. world_simpl. apply elem_of_delete_sub.
  - unfold closes_in_flight. rewrite Htimers. unfold w1. world_simpl.
    pose proof (filter_delete_true (fallback_for i) _ n t Hn HPt) as Hlen.
    pose proof (inv_count w Hinv i) as Hle. unfold closes_in_flight in Hle. lia.
  - intros j Hj. unfold closes_in_flight. rewrite Htimers. unfold w1. world_simpl.
    rewrite (filter_delete_false _ _ n t); [done..|].
    unfold fallback_for. rewrite Hct. by apply bool_decide_eq_false_2.
  - intros x j k' s' Hx Hcx Hj. rewrite Htimers. unfold w1. world_simpl.
    apply (elem_of_delete_ne _ n x t); [done..|]. intros ->. congruence.
  - intros j Hj. rewrite !is_closing_item. by rewrite Hdoc'.
  - intros j Hj. rewrite !listeners_of_item. by rewrite Hdoc'.
  - intros k' s' c. rewrite Hls. unfold w1. rewrite !listeners_of_item.
    world_simpl. lookup_simpl. destruct (doc w !! i) as [it|]; [|by intros ?%elem_of_nil].
    cbn [from_option fmap option_fmap option_map].
    intros [[Hr Hne]%removeEventListener_listeners _]%removeEventListener_listeners.
    split; [done|]. by eapply handler_not_removed.
Qed.

Lemma remove_probe_inv (n : nat) (t : timer) (w : world) :
  guard_inv w → timers w !! n = Some t → callback t = logProbe →
  guard_inv (with_timers (delete n) w).
Proof.
  intros [I1 I2 I3 I4 I5] Hn Hct.
  assert (Hcount : ∀ j, closes_in_flight (with_timers (delete n) w) j
                        = closes_in_flight w j).
  { intros j. unfold closes_in_flight. world_simpl.
    rewrite (filter_delete_false _ _ n t); [done..|].
    unfold fallback_for. by rewrite Hct. }
  split.
  - intros j. rewrite Hcount. apply I1.
  - intros j. rewrite Hcount. apply I2.
  - intros j k s c Hr. destruct (I3 j k s c Hr) as [-> [x [Hx Hcx]]].
    split; [done|]. exists x. split; [|done]. world_simpl.
    apply (elem_of_delete_ne _ n x t); [done..|]. intros ->. congruence.
  - intros x k j s Hx. world_simpl. apply I4. by eapply elem_of_delete_sub.
  - intros x x' k j j' s s' Hx Hx'. world_simpl.
    apply I5; by eapply elem_of_delete_sub.
Qed.

Lemma fire_timer_inv (n : nat) (w : world) : guard_inv w → guard_inv (fire_timer n w).
Proof.
  intros Hinv. unfold fire_timer. destruct (timers w !! n) as [t|] eqn:Hn; [|done].
  destruct (callback t) as [k i s|] eqn:Hct; cbn [run_timer_callback].
  - by eapply run_fallbackTimeout_inv.
  - by eapply remove_probe_inv.
Qed.

Lemma is_fallback_callback (k : nat) (x : timer) :
  is_fallback k x = true → ∃ j s, callback x = fallbackTimeout k j s.
Proof.
  unfold is_fallback. destruct (callback x) as [k' j s|]; [|done].
  intros ->%bool_decide_eq_true. eauto.
Qed.

Lemma run_transitionEndHandler_inv (k i : nat) (s s0 : settings) (c0 : bool)
    (e : transition_event) (w : world) :
  guard_inv w → (transitionEndHandler k s0, c0) ∈ listeners_of i w →
  guard_inv (run_transitionEndHandler k i s e w).
Proof.
  intros Hinv Hreg. unfold run_transitionEndHandler.
  destruct (negb (target_is_content e) || negb (bool_decide _)); [done|].
  destruct (inv_handler w Hinv i k s0 c0 Hreg) as [-> [t [Ht Hct]]].
  assert (HPt : fallback_for i t = true).
  { unfold fallback_for. rewrite Hct. by apply bool_decide_eq_true_2. }
  assert (Hkt : is_fallback k t = true).
  { unfold is_fallback. rewrite Hct. by apply bool_decide_eq_true_2. }
  set (w1 := clearTimeout k (with_item i _ (with_item i _ w))).
  destruct (cleanup_frame k i s w1) as (Hnext & Htimers & Hdoc & Hls).
  assert (Hdoc' : ∀ j, j ≠ i → doc (cleanup k i s w1) !! j = doc w !! j).
  { intros j Hj. rewrite Hdoc by done. unfold w1. world_simpl. by lookup_simpl. }
  assert (Ht1 : timers (cleanup k i s w1)
                = List.filter (λ x, negb (is_fallback k x)) (timers w)).
  { by rewrite Htimers. }
  assert (Hsame : ∀ x j, x ∈ timers w → is_fallback k x = true →
                         fallback_for j x = true → j = i).
  { intros x j Hx [j' [s' Hcx]]%is_fallback_callback Hj.
    unfold fallback_for in Hj. rewrite Hcx in Hj. apply bool_decide_eq_true in Hj.
    subst j'. by eapply (inv_unique w Hinv x t). }
  apply (completion_inv w _ k i s0 t); try done.
  - intros x. rewrite Ht1. intros Hx%list_elem_of_In%filter_In.
    apply list_elem_of_In. tauto.
  - unfold closes_in_flight. rewrite Ht1. rewrite filter_nil_intro; [done|].
    intros x Hx%list_elem_of_In%filter_In. destruct Hx as [Hx Hk].
    apply list_elem_of_In in Hx.
    destruct (fallback_for i x) eqn:HPx; [|done].
    assert (x = t).
    { apply (filter_unique (fallback_for i) (timers w)); try done.
      apply (inv_count w Hinv). }
    subst x. by rewrite Hkt in Hk.
  - intros j Hj. unfold closes_in_flight. rewrite Ht1.
    rewrite filter_filter_same; [done|].
    intros x Hx HPx. destruct (is_fallback k x) eqn:Hk; [|done].
    by rewrite (Hsame x j Hx Hk HPx) in Hj.
  - intros x j k' s' Hx Hcx Hj. rewrite Ht1.
    apply list_elem_of_In, filter_In. split; [by apply list_elem_of_In|].
    destruct (is_fallback k x) eqn:Hk; [|done].
    exfalso. apply Hj. apply (Hsame x j Hx Hk).
    unfold fallback_for. rewrite Hcx. by apply bool_decide_eq_true_2.
  - intros j Hj. rewrite !is_closing_item. by rewrite Hdoc'.
  - intros j Hj. rewrite !listeners_of_item. by rewrite Hdoc'.
  - intros k' s' c. rewrite Hls. unfold w1. rewrite !listeners_of_item.
    world_simpl. lookup_simpl. destruct (doc w !! i) as [it|]; [|by intros ?%elem_of_nil].
    cbn [from_option fmap option_fmap option_map].
    intros [[Hr Hne]%removeEventListener_listeners _]%removeEventListener_listeners.
    split; [done|]. by eapply handler_not_removed.
Qed.

(** ** Every event keeps the invariant *)

Lemma foldl_inv {B} (f : world → B → world) (l : list B) (w : world) :
  (∀ w x, guard_inv w → guard_inv (f w x)) → guard_inv w → guard_inv (foldl f w l).
Proof.
  intros Hf. revert w. induction l as [|a l IH]; intros w Hw; [done|].
  cbn [foldl]. by apply IH, Hf.
Qed.

Lemma openItem_inv (this : instance) (i : nat) (instant : bool) (w : world) :
  guard_inv w → guard_inv (_openItem this i instant w).
Proof. intros H. eapply benign_inv; [exact H | apply openItem_benign]. Qed.

Lemma registered_handler (k : nat) (s : settings) (c : bool)
    (ls : list (listener * bool)) :
  existsb (registration_eqb (transitionEndHandler k s, c)) ls = true →
  ∃ s0 c0, (transitionEndHandler k s0, c0) ∈ ls.
Proof.
  intros [[l c0] [Hin Heq]]%existsb_exists. apply list_elem_of_In in Hin.
  unfold registration_eqb in Heq. cbn in Heq.
  destruct l as [k'|k'|k' s0]; try done.
  apply andb_prop in Heq as [Hk%bool_decide_eq_true _]. subst k'. eauto.
Qed.

Lemma run_listener_inv (i : nat) (e : transition_event) (w : world)
    (r : listener * bool) :
  guard_inv w → guard_inv (run_listener i e w r).
Proof.
  intros Hinv. unfold run_listener. destruct r as [[k|k|k s] c]; cbn [fst].
  - destruct (existsb _ _); [|done].
    eapply benign_inv; [exact Hinv | apply run_onEnd_benign].
  - by destruct (existsb _ _).
  - destruct (existsb _ _) eqn:Hreg; [|done].
    apply registered_handler in Hreg as [s0 [c0 Hreg]].
    by eapply run_transitionEndHandler_inv.
Qed.

Lemma dispatch_inv (i : nat) (e : transition_event) (w : world) :
  guard_inv w → guard_inv (dispatch_transitionend i e w).
Proof.
  intros Hinv. unfold dispatch_transitionend.
  apply foldl_inv; [|done]. intros. by apply run_listener_inv.
Qed.

Lemma run_frame_inv (w : world) : guard_inv w → guard_inv (run_frame w).
Proof.
  intros Hinv. unfold run_frame. apply foldl_inv.
  - intros w1 cb H1. eapply benign_inv; [exact H1|].
    destruct cb; [apply run_openFrame_benign | apply run_closeFrame_benign].
  - eapply benign_inv; [exact Hinv|]. by apply benign_scheduling.
Qed.

Lemma recalcOpenHeights_inv (this : instance) (w : world) :
  guard_inv w → guard_inv (_recalcOpenHeights this w).
Proof.
  intros Hinv. unfold _recalcOpenHeights. apply foldl_inv; [|done].
  intros w1 x H1. eapply benign_inv; [exact H1 | apply recalc_item_benign].
Qed.

Lemma initItem_inv (this : instance) (rand : string) (w : world) (i : nat) :
  guard_inv w → guard_inv (_initItem this rand w i).
Proof.
  intros Hinv. unfold _initItem.
  destruct (doc w !! i) as [it|] eqn:Hit; [|done].
  destruct (i_toggle it) as [t|]; [|done].
  destruct (i_content it) as [c|]; [|done].
  match goal with
  | |- context [with_doc (<[i := ?x]>) w] => set (it' := x)
  end.
  assert (H1 : guard_inv (with_doc (<[i := it']>) w)).
  { eapply benign_inv; [exact Hinv|].
    apply (benign_insert i it); [done| |]; unfold it'; by item_cases it. }
  destruct (dataBool _ _ _).
  - by apply openItem_inv.
  - eapply benign_inv; [exact H1|].
    apply benign_with_item; intros x; by item_cases x.
Qed.

Lemma hydrate_inv (c : nat) (attrs : attributes) (children : list nat) (rand : string)
    (w : world) :
  guard_inv w → guard_inv (hydrate c attrs children rand w).
Proof.
  intros Hinv. unfold hydrate.
  set (w1 := foldl _ w _).
  assert (H1 : guard_inv w1).
  { apply foldl_inv; [|done]. intros. by apply initItem_inv. }
  eapply benign_inv; [exact H1 | by apply benign_scheduling].
Qed.

Lemma toggle_inv (this : instance) (i : nat) (w w' : world) :
  guard_inv w → _toggle this i w = Some w' → guard_inv w'.
Proof.
  intros Hinv. unfold _toggle. fold (toggle_first this i w).
  assert (H1 : guard_inv (toggle_first this i w)).
  { unfold toggle_first. destruct (is_open w i);
      [by apply closeItem_inv | by apply openItem_inv]. }
  set (w1 := toggle_first this i w) in *.
  assert (Hsync : ∀ g w2, _syncLinkedGroup this g i (negb (is_open w i)) w1 = Some w2 →
                          guard_inv w2).
  { intros g w2. unfold _syncLinkedGroup.
    destruct (querySelectorAll_linkGroup w1 g) as [l|]; [|done].
    cbn [mbind option_bind]. intros [= <-]. apply foldl_inv; [|done].
    intros w3 x H3. unfold syncLinked_item, _openItemGlobal, _closeItemGlobal.
    destruct (bool_decide (x = i)); [done|].
    destruct (negb (is_open w i) && negb (is_open w3 x)).
    { destruct (instanceForItem w3 x); by apply openItem_inv. }
    destruct (negb (negb (is_open w i)) && is_open w3 x); [|done].
    destruct (instanceForItem w3 x); by apply closeItem_inv. }
  assert (Hloop : ∀ w2, guard_inv w2 →
            guard_inv (if negb (is_open w i) && autoClose this
                       then foldl (autoClose_sibling this i (linkGroup w1 i)) w2
                              (items this)
                       else w2)).
  { intros w2 H2. destruct (negb (is_open w i) && autoClose this); [|done].
    apply foldl_inv; [|done]. intros w3 x H3. unfold autoClose_sibling.
    destruct (negb (bool_decide (x = i)) && is_open w3 x); [|done].
    destruct (truthy (linkGroup w3 x) && bool_decide _); [done|].
    by apply closeItem_inv. }
  destruct (linkGroup w1 i) as [g|]; cbn [mbind option_bind].
  - destruct (truthy (Some g)); cbn [mbind option_bind].
    + destruct (_syncLinkedGroup _ _ _ _ _) as [w2|] eqn:Hw2; [|done].
      cbn [mbind option_bind]. intros [= <-]. apply Hloop. by eapply Hsync.
    + intros [= <-]. by apply Hloop.
  - intros [= <-]. by apply Hloop.
Qed.

Lemma handle_inv (ev : event) (w w' : world) :
  guard_inv w → handle ev w = Some w' → guard_inv w'.
Proof.
  intros Hinv. destruct ev; cbn [handle].
  - intros [= <-]. by apply hydrate_inv.
  - by apply toggle_inv.
  - intros [= <-]. by apply run_frame_inv.
  - intros [= <-]. by apply dispatch_inv.
  - intros [= <-]. by apply fire_timer_inv.
  - intros [= <-]. by apply recalcOpenHeights_inv.
  - intros [= <-]. eapply benign_inv; [exact Hinv | by apply benign_scheduling].
  - intros [= <-]. eapply benign_inv; [exact Hinv | by apply benign_scheduling].
Qed.

Lemma run_inv (evs : list event) (w w' : world) :
  guard_inv w → run evs w = Some w' → guard_inv w'.
Proof.
  revert w. induction evs as [|ev evs IH]; intros w Hinv; cbn [run].
  - by intros [= <-].
  - destruct (handle ev w) as [w1|] eqn:H1; [|done]. cbn [mbind option_bind].
    apply IH. by eapply handle_inv.
Qed.

Lemma pristine_inv (w : world) : pristine w → guard_inv w.
Proof.
  intros [Ht Hl]. split.
  - intros i. unfold closes_in_flight. rewrite Ht. cbn. lia.
  - intros i. unfold closes_in_flight. rewrite Ht. cbn. lia.
  - intros i k s c. rewrite Hl. by intros ?%elem_of_nil.
  - intros t k i s. rewrite Ht. by intros ?%elem_of_nil.
  - intros t t' k i i' s s'. rewrite Ht. by intros ?%elem_of_nil.
Qed.

(** C4, as stated, fails in its conclusion: after the second click the
    open of the Item (its frame callback queued, its [onEnd] listener
    waiting) and its close (flag set, fallback timer pending) are both
    in flight. *)
Lemma C4_counterexample :
  run double_click single_world = Some double_click_world
  ∧ open_in_flight double_click_world 0 = true
  ∧ is_closing double_click_world 0 = true
  ∧ closes_in_flight double_click_world 0 = 1
  ∧ length (frames double_click_world) = 2.
Proof.
  split; [apply default_Some; by vm_compute | by vm_compute].
Qed.

(** C4, amended: a close request on an Item whose panel is flagged as
    closing changes nothing; and in every world reached from a pristine
    document at most one close of an Item is in flight, the flag being
    set whenever one is. *)
Theorem C4_close_guard (w0 : world) (evs : list event) (w : world) (this : instance)
    (i : nat) :
  pristine w0 → run evs w0 = Some w →
  (is_closing w i = true → _closeItem this i w = w)
  ∧ (closes_in_flight w i ≤ 1)%nat
  ∧ ((0 < closes_in_flight w i)%nat → is_closing w i = true).
Proof.
  intros Hp Hrun.
  pose proof (run_inv evs w0 w (pristine_inv w0 Hp) Hrun) as [I1 I2 _ _ _].
  split; [apply closeItem_noop|]. split; [apply I1 | apply I2].
Qed.

Lemma single_world_pristine : pristine single_world.
Proof. split; [done|]. by intros [|[|i]]. Qed.

Lemma C4_close_guard_witness :
  run double_click single_world = Some double_click_world
  ∧ _closeItem single_container 0 double_click_world = double_click_world
  ∧ (closes_in_flight double_click_world 0 ≤ 1)%nat.
Proof.
  assert (Hrun : run double_click single_world = Some double_click_world)
    by (apply default_Some; by vm_compute).
  destruct (C4_close_guard single_world double_click double_click_world
              single_container 0 single_world_pristine Hrun) as (H1 & H2 & _).
  split; [done|]. split; [|done]. apply H1. by vm_compute.
Defined.

(* ================================================================== *)
(** * Open then close                                                   *)
(* ================================================================== *)

Lemma list_alter_insert_eq {A} (f : A → A) (i : nat) (x : A) (l : list A) :
  alter f i (<[i := x]> l) = <[i := f x]> l.
Proof.
  apply list_eq. intros j. destruct (decide (i = j)) as [->|Hne].
  - rewrite list_lookup_alter_eq. destruct (decide (j < length l)).
    + by rewrite !list_lookup_insert_eq.
    + rewrite !list_insert_ge by lia. by rewrite lookup_ge_None_2 by lia.
  - by rewrite list_lookup_alter_ne, !list_lookup_insert_ne.
Qed.

Ltac doc_simpl :=
  repeat first
    [ rewrite list_alter_insert_eq
    | rewrite list_insert_insert_eq ].

Ltac item_simpl :=
  cbn [i_attributes i_classList i_style i_toggle i_content i_closest
       c_id c_attributes c_hidden c_classList c_dataset c_style c_children
       c_offsetHeight c_scrollHeight c_listeners t_id t_attributes
       with_i_classList with_i_style with_i_toggle with_i_content
       with_c_id with_c_attributes with_c_hidden with_c_classList with_c_dataset
       with_c_style with_c_children with_c_listeners with_t_attributes with_t_id
       toggle_setAttribute content_style content_styleImportant toggle_noFade
       addEventListener removeEventListener forEach_animatable
       _fadeInChildren _fadeOutChildren
       fmap option_fmap option_map from_option item_listeners item_closing].

(** ** The effect of each step on the item, as a function of the item *)

Lemma world_eq (w w' : world) :
  doc w = doc w' → registry w = registry w' → reducedMotion w = reducedMotion w' →
  frames w = frames w' → timers w = timers w' → hasCompleted w = hasCompleted w' →
  nextClosure w = nextClosure w' → w = w'.
Proof. destruct w, w'; cbn. by intros -> -> -> -> -> -> ->. Qed.

Ltac world_norm := apply world_eq; world_simpl; doc_simpl; cbn beta.

Section OneItem.

(** A world seen from item [i]: the rest of the document [d] and of the
    world stays as it is. *)
Context (this : instance) (i : nat) (d : list item) (r : gmap nat instance)
        (b : bool).
Hypothesis Hi : i < length d.

Lemma openItem_at (instant : bool) (it : item) (t : toggle_el) (c : content_el)
    (F : list frame_callback) (T : list timer) (H : gset nat) (n : nat) :
  i_toggle it = Some t → i_content it = Some c →
  let s := _getSettings (defaults this) b (i_attributes it) in
  let dur := if instant then num 0 else duration s in
  _openItem this i instant (at_i i d r b it F T H n)
  = at_i i d r b (open_item s dur instant n it)
      (F ++ [openFrame i dur s (c_offsetHeight c) instant]) T H (S n).
Proof using Hi.
  intros Ht Hc s dur. subst dur s. unfold _openItem, at_i, open_item. world_simpl.
  rewrite list_lookup_insert_eq by done. rewrite Ht, Hc.
  set (s := _getSettings (defaults this) b (i_attributes it)).
  set (dur := if instant then num 0 else duration s).
  destruct (num_gt0 dur); world_norm; reflexivity.
Qed.

Lemma run_openFrame_at (dur : number) (s : settings) (h : Z) (instant : bool)
    (it : item) (T : list timer) (H : gset nat) (n : nat) :
  run_frame (at_i i d r b it [openFrame i dur s h instant] T H n)
  = at_i i d r b (openFrame_item dur s h instant it) [] T H n.
Proof using Hi.
  unfold run_frame, at_i, openFrame_item. world_simpl.
  cbn [foldl run_frame_callback]. unfold run_openFrame. world_norm; reflexivity.
Qed.

Lemma run_closeFrame_at (s : settings) (it : item) (T : list timer) (H : gset nat)
    (n : nat) :
  run_frame (at_i i d r b it [closeFrame i s] T H n)
  = at_i i d r b (closeFrame_item s it) []
      (T ++ [{| callback := logProbe; delay := num 10 |};
             {| callback := logProbe; delay := num 100 |}]) H n.
Proof using Hi.
  unfold run_frame, at_i, closeFrame_item. world_simpl.
  cbn [foldl run_frame_callback]. unfold run_closeFrame.
  destruct (contentFade s); world_norm; try reflexivity; by rewrite <- app_assoc.
Qed.

Lemma cleanup_at (k : nat) (s : settings) (it : item) (F : list frame_callback)
    (T : list timer) (H : gset nat) (n : nat) :
  k ∉ H →
  cleanup k i s (at_i i d r b it F T H n) = at_i i d r b (cleanup_item s it) F T ({[k]} ∪ H) n.
Proof using Hi.
  intros Hk. unfold cleanup, at_i, cleanup_item. world_simpl.
  rewrite bool_decide_eq_false_2 by done. world_norm; reflexivity.
Qed.

Lemma closeItem_at (it : item) (h : Z)
    (F : list frame_callback) (T : list timer) (H : gset nat) (n : nat) :
  isSome (i_toggle it) = true → c_scrollHeight <$> i_content it = Some h →
  item_closing it = false →
  let s := _getSettings (defaults this) b (i_attributes it) in
  let locked := lock_item s h it in
  _closeItem this i (at_i i d r b it F T H n)
  = if num_gt0 (duration s) then
      at_i i d r b (addEventListener (transitionEndHandler n s) false
              (addEventListener (debugHandler n) true locked))
        (F ++ [closeFrame i s])
        (T ++ [{| callback := fallbackTimeout n i s;
                  delay := num_add (num_mul (duration s) (num 1000)) (num 100) |}])
        (H ∖ {[n]}) (S n)
    else
      at_i i d r b (cleanup_item s (content_style "max-height" (css_str "0px") locked))
        F T ({[n]} ∪ H ∖ {[n]}) (S n).
Proof using Hi.
  intros Ht Hc Hclosing s locked. subst locked s. unfold _closeItem, at_i.
  world_simpl.
  rewrite list_lookup_insert_eq by done.
  destruct (i_toggle it) as [t|]; [|done].
  destruct (i_content it) as [c|] eqn:Hc'; [|done].
  cbn in Hc. injection Hc as <-.
  unfold item_closing in Hclosing. rewrite Hc' in Hclosing. rewrite Hclosing.
  set (s := _getSettings (defaults this) b (i_attributes it)).
  fold (lock_item s (c_scrollHeight c) it).
  destruct (num_gt0 (duration s)).
  - world_norm; reflexivity.
  - fold (at_i i d r b (cleanup_item s
                  (content_style "max-height" (css_str "0px")
                     (lock_item s (c_scrollHeight c) it)))
               F T ({[n]} ∪ H ∖ {[n]}) (S n)).
    rewrite <- (cleanup_at n s _ F T (H ∖ {[n]}) (S n)) by set_solver.
    f_equal. unfold at_i. world_norm; reflexivity.
Qed.

Lemma registration_eqb_refl (x : listener * bool) : registration_eqb x x = true.
Proof.
  destruct x as [[k|k|k s] []]; unfold registration_eqb; cbn;
    by rewrite bool_decide_eq_true_2.
Qed.

Lemma listeners_of_at (it : item) (F : list frame_callback) (T : list timer)
    (H : gset nat) (n : nat) :
  listeners_of i (at_i i d r b it F T H n) = item_listeners it.
Proof using Hi.
  rewrite listeners_of_item. unfold at_i. world_simpl.
  by rewrite list_lookup_insert_eq.
Qed.


Lemma dispatch_close_at (k : nat) (s : settings) (it : item)
    (F : list frame_callback) (T : list timer) (H : gset nat) (n : nat) :
  item_listeners it = [(debugHandler k, true); (transitionEndHandler k s, false)] →
  k ∉ H →
  dispatch_transitionend i max_height_event (at_i i d r b it F T H n)
  = at_i i d r b (cleanup_item s
            (removeEventListener (debugHandler k) true
               (removeEventListener (transitionEndHandler k s) false it)))
      F (List.filter (λ t, negb (is_fallback k t)) T) ({[k]} ∪ H) n.
Proof using Hi.
  intros Hls Hk. unfold dispatch_transitionend. rewrite listeners_of_at, Hls.
  cbn [List.filter snd negb app foldl]. unfold run_listener at 2.
  rewrite listeners_of_at, Hls. cbn [existsb].
  rewrite registration_eqb_refl. cbn [orb fst].
  unfold run_listener.
  rewrite listeners_of_at, Hls. cbn [existsb].
  rewrite registration_eqb_refl, orb_true_r. cbn [orb fst].
  unfold run_transitionEndHandler. cbn [propertyName target_is_content max_height_event].
  rewrite bool_decide_eq_true_2 by done. cbn [negb orb].
  rewrite <- cleanup_at by done. f_equal.
  unfold at_i. world_norm; reflexivity.
Qed.

Lemma fire_fallback_at (k : nat) (s : settings) (dl : number) (it : item)
    (F : list frame_callback) (T1 T2 : list timer) (H : gset nat) (n : nat) :
  k ∉ H →
  fire_timer (length T1)
    (at_i i d r b it F (T1 ++ {| callback := fallbackTimeout k i s; delay := dl |} :: T2) H n)
  = at_i i d r b (cleanup_item s
            (removeEventListener (debugHandler k) false
               (removeEventListener (transitionEndHandler k s) false it)))
      F (T1 ++ T2) ({[k]} ∪ H) n.
Proof using Hi.
  intros Hk. unfold fire_timer. unfold at_i at 1. world_simpl.
  rewrite list_lookup_middle by done. cbn [callback run_timer_callback].
  unfold run_fallbackTimeout. rewrite <- cleanup_at by done. f_equal.
  unfold at_i. world_norm; try reflexivity. by rewrite delete_middle.
Qed.


End OneItem.

(** ** What [forEach] leaves on the animated elements *)

Lemma with_el_style_is_LI (f : style → style) (e : element) :
  is_LI (with_el_style f e) = is_LI e.
Proof. done. Qed.



Lemma forEach_lists_nonempty (f : nat → style → style) (ls : list (list element))
    (i : nat) :
  ls ≠ [] → snd (forEach_lists f i ls) ≠ [].
Proof.
  destruct ls as [|l ls]; [done|]. intros _. cbn [forEach_lists].
  destruct (forEach_listItems f i l), (forEach_lists f _ ls). done.
Qed.





(** ** The round trip *)


(** ** On a hydrated Item *)



Lemma round_trip_grid (fade instant byTimeout : bool) :
  closed_clean (round_trip single_container 0 byTimeout (grid_world fade instant)) 0
  = true.
Proof. destruct fade, instant, byTimeout; by vm_compute. Qed.

(* ================================================================== *)
(** * Keyboard navigation: properties                                   *)
(* ================================================================== *)

Lemma indexOf_lookup (x : nat) (l : list nat) (k : nat) :
  indexOf x l = Some k → l !! k = Some x.
Proof.
  revert k. induction l as [|y l IH]; intros k; cbn [indexOf]; [done|].
  case_bool_decide as Hy.
  - intros [= <-]. by subst.
  - destruct (indexOf x l) as [k'|]; [|done]. cbn. intros [= <-]. by apply IH.
Qed.

Lemma indexOf_elem (x : nat) (l : list nat) :
  x ∈ l → ∃ k, indexOf x l = Some k.
Proof.
  induction l as [|y l IH]; [by intros ?%elem_of_nil|].
  intros Hin. cbn [indexOf]. case_bool_decide as Hy; [by eexists|].
  apply elem_of_cons in Hin as [->|Hin]; [done|].
  destruct (IH Hin) as [k ->]. by eexists.
Qed.

Lemma indexOf_not_elem (x : nat) (l : list nat) :
  x ∉ l → indexOf x l = None.
Proof.
  induction l as [|y l IH]; [done|]. intros Hin. cbn [indexOf].
  rewrite bool_decide_eq_false_2 by (intros ->; apply Hin; by left).
  rewrite IH; [done|]. intros ?. apply Hin. by right.
Qed.

Lemma indexOf_NoDup (x : nat) (l : list nat) (k : nat) :
  NoDup l → l !! k = Some x → indexOf x l = Some k.
Proof.
  intros Hnd Hk. destruct (indexOf_elem x l) as [k' Hk'].
  { by eapply list_elem_of_lookup_2. }
  rewrite Hk'. f_equal. eapply NoDup_lookup; [done| |done].
  by apply indexOf_lookup.
Qed.

Lemma keyboard_toggles_NoDup (this : instance) (w : world) :
  NoDup (items this) → NoDup (keyboard_toggles this w).
Proof.
  intros H. unfold keyboard_toggles.
  apply NoDup_ListNoDup, List.NoDup_filter. by apply NoDup_ListNoDup.
Qed.

Lemma array_get_nat (l : list nat) (k : nat) : array_get l (Z.of_nat k) = l !! k.
Proof.
  unfold array_get. rewrite (proj2 (Z.ltb_ge _ _)) by lia. by rewrite Nat2Z.id.
Qed.

(** The index arithmetic of the arrow keys, on natural numbers. *)
Lemma array_get_next (l : list nat) (k : nat) :
  (k < length l)%nat →
  array_get l (Z.rem (Z.of_nat k + 1) (Z.of_nat (length l)))
  = l !! (if decide (S k = length l) then 0 else S k)%nat.
Proof.
  intros Hk. rewrite Z.rem_mod_nonneg by lia.
  destruct (decide (S k = length l)) as [He|Hne].
  - replace (Z.of_nat k + 1)%Z with (Z.of_nat (length l)) by lia.
    rewrite Z_mod_same_full. apply (array_get_nat l 0).
  - rewrite Z.mod_small by lia.
    replace (Z.of_nat k + 1)%Z with (Z.of_nat (S k)) by lia. apply array_get_nat.
Qed.

Lemma array_get_previous (l : list nat) (k : nat) :
  (k < length l)%nat →
  array_get l (Z.rem (Z.of_nat k - 1 + Z.of_nat (length l)) (Z.of_nat (length l)))
  = l !! (if decide (k = 0) then length l - 1 else k - 1)%nat.
Proof.
  intros Hk. rewrite Z.rem_mod_nonneg by lia.
  destruct (decide (k = 0)%nat) as [->|Hne].
  - rewrite Z.mod_small by lia.
    replace (Z.of_nat 0 - 1 + Z.of_nat (length l))%Z
      with (Z.of_nat (length l - 1)) by lia.
    apply array_get_nat.
  - replace (Z.of_nat k - 1 + Z.of_nat (length l))%Z
      with (Z.of_nat (k - 1) + 1 * Z.of_nat (length l))%Z by lia.
    rewrite Z.mod_add by lia. rewrite Z.mod_small by lia. apply array_get_nat.
Qed.

Lemma handleKeyboard_at (this : instance) (t : nat) (key : string) (w : world)
    (k : nat) :
  indexOf t (keyboard_toggles this w) = Some k →
  let toggles := keyboard_toggles this w in
  _handleKeyboard this (toggle_button t) key w
  = if bool_decide (key = "ArrowDown") then
      focus_effect (toggles !! (if decide (S k = length toggles) then 0 else S k)%nat)
    else if bool_decide (key = "ArrowUp") then
      focus_effect (toggles !! (if decide (k = 0) then length toggles - 1 else k - 1)%nat)
    else if bool_decide (key = "Home") then focus_effect (toggles !! 0%nat)
    else if bool_decide (key = "End") then focus_effect (toggles !! (length toggles - 1)%nat)
    else if bool_decide (key = "Enter") || bool_decide (key = " ") then
      {| defaultPrevented := true; focused := None; clicked := Some t |}
    else no_key_effect.
Proof.
  intros Hk toggles. unfold _handleKeyboard. rewrite Hk. fold toggles.
  assert (Hlt : (k < length toggles)%nat).
  { eapply lookup_lt_Some. by apply indexOf_lookup. }
  rewrite array_get_next, array_get_previous by done.
  change 0%Z with (Z.of_nat 0). rewrite (array_get_nat toggles 0).
  replace (Z.of_nat (length toggles) - 1)%Z with (Z.of_nat (length toggles - 1)) by lia.
  by rewrite array_get_nat.
Qed.

Ltac key_cases :=
  repeat first
    [ rewrite bool_decide_eq_true_2 by done
    | rewrite bool_decide_eq_false_2 by done ];
  cbn [orb].

(** X1.  A navigation key (ArrowDown, ArrowUp, Home, End) pressed on a
    toggle button of the Container always moves the focus to a toggle
    button of the same Container: the index computed is never out of
    range, the default action is prevented and nothing is clicked. *)
Theorem X1_keyboard_focus_stays_inside (this : instance) (t : nat) (key : string)
    (w : world) :
  t ∈ keyboard_toggles this w → navigation_key key = true →
  let e := _handleKeyboard this (toggle_button t) key w in
  ∃ t', focused e = Some t' ∧ t' ∈ keyboard_toggles this w
        ∧ defaultPrevented e = true ∧ clicked e = None.
Proof.
  intros Hin Hkey e. subst e.
  destruct (indexOf_elem _ _ Hin) as [k Hk].
  rewrite (handleKeyboard_at this t key w k Hk). cbn zeta.
  set (toggles := keyboard_toggles this w) in *.
  assert (Hlt : (k < length toggles)%nat).
  { eapply lookup_lt_Some. by apply indexOf_lookup. }
  assert (Hget : ∀ n, (n < length toggles)%nat →
            ∃ t', toggles !! n = Some t' ∧ t' ∈ toggles).
  { intros n Hn. destruct (lookup_lt_is_Some_2 toggles n Hn) as [t' Ht'].
    exists t'. split; [done|]. by eapply list_elem_of_lookup_2. }
  unfold navigation_key in Hkey.
  repeat (apply orb_prop in Hkey as [Hkey|Hkey]);
    apply bool_decide_eq_true in Hkey; subst key; key_cases;
    cbn [focus_effect focused defaultPrevented clicked].
  - destruct (Hget (if decide (S k = length toggles) then 0 else S k)%nat)
      as (t' & -> & ?); [case_decide; lia | by exists t'].
  - destruct (Hget (if decide (k = 0) then length toggles - 1 else k - 1)%nat)
      as (t' & -> & ?); [case_decide; lia | by exists t'].
  - destruct (Hget 0%nat) as (t' & -> & ?); [lia | by exists t'].
  - destruct (Hget (length toggles - 1)%nat) as (t' & -> & ?); [lia | by exists t'].
Qed.

Lemma X1_keyboard_focus_stays_inside_witness :
  ∃ t', focused (_handleKeyboard container0 (toggle_button 4) "ArrowDown" group_world)
        = Some t'
        ∧ t' ∈ keyboard_toggles container0 group_world
        ∧ defaultPrevented
            (_handleKeyboard container0 (toggle_button 4) "ArrowDown" group_world) = true
        ∧ clicked (_handleKeyboard container0 (toggle_button 4) "ArrowDown" group_world)
          = None.
Proof.
  apply (X1_keyboard_focus_stays_inside container0 4 "ArrowDown" group_world).
  - apply list_elem_of_In. vm_compute. auto.
  - reflexivity.
Defined.

Lemma focused_next (this : instance) (t : nat) (w : world) (k : nat) :
  indexOf t (keyboard_toggles this w) = Some k →
  focused (_handleKeyboard this (toggle_button t) "ArrowDown" w)
  = keyboard_toggles this w
    !! (if decide (S k = length (keyboard_toggles this w)) then 0 else S k)%nat.
Proof. intros Hk. rewrite (handleKeyboard_at this t _ w k Hk). by key_cases. Qed.

Lemma focused_previous (this : instance) (t : nat) (w : world) (k : nat) :
  indexOf t (keyboard_toggles this w) = Some k →
  focused (_handleKeyboard this (toggle_button t) "ArrowUp" w)
  = keyboard_toggles this w
    !! (if decide (k = 0) then length (keyboard_toggles this w) - 1 else k - 1)%nat.
Proof. intros Hk. rewrite (handleKeyboard_at this t _ w k Hk). by key_cases. Qed.

(** X2.  ArrowDown and ArrowUp undo each other: from the toggle button
    that ArrowDown focuses, ArrowUp focuses the button the user came
    from, and the other way round (the Items of a Container being
    distinct elements). *)
Theorem X2_keyboard_arrows_inverse (this : instance) (t t' : nat) (w : world) :
  NoDup (items this) → t ∈ keyboard_toggles this w →
  (focused (_handleKeyboard this (toggle_button t) "ArrowDown" w) = Some t' →
   focused (_handleKeyboard this (toggle_button t') "ArrowUp" w) = Some t)
  ∧ (focused (_handleKeyboard this (toggle_button t) "ArrowUp" w) = Some t' →
     focused (_handleKeyboard this (toggle_button t') "ArrowDown" w) = Some t).
Proof.
  intros Hnd Hin. apply (keyboard_toggles_NoDup this w) in Hnd.
  destruct (indexOf_elem _ _ Hin) as [k Hk].
  pose proof (indexOf_lookup _ _ _ Hk) as Hlook.
  assert (Hlt : (k < length (keyboard_toggles this w))%nat)
    by (by eapply lookup_lt_Some).
  rewrite (focused_next this t w k Hk), (focused_previous this t w k Hk).
  set (toggles := keyboard_toggles this w) in *.
  split; intros Ht'.
  - rewrite (focused_previous this t' w _ (indexOf_NoDup _ _ _ Hnd Ht')).
    fold toggles. rewrite <- Hlook. f_equal. repeat case_decide; lia.
  - rewrite (focused_next this t' w _ (indexOf_NoDup _ _ _ Hnd Ht')).
    fold toggles. rewrite <- Hlook. f_equal. repeat case_decide; lia.
Qed.

Lemma X2_keyboard_arrows_inverse_witness :
  focused (_handleKeyboard container0 (toggle_button 4) "ArrowDown" group_world) = Some 0%nat
  ∧ focused (_handleKeyboard container0 (toggle_button 0) "ArrowUp" group_world)
    = Some 4%nat.
Proof.
  assert (H : focused (_handleKeyboard container0 (toggle_button 4) "ArrowDown" group_world)
              = Some 0%nat) by (by vm_compute).
  split; [exact H|].
  assert (Hnd : NoDup (items container0)).
  { apply NoDup_ListNoDup. vm_compute. repeat constructor; cbn; intuition lia. }
  assert (Hin : 4%nat ∈ keyboard_toggles container0 group_world).
  { apply list_elem_of_In. vm_compute. auto. }
  destruct (X2_keyboard_arrows_inverse container0 4 0 group_world Hnd Hin)
    as [Hdown _].
  exact (Hdown H).
Defined.

(** X3.  The arrows wrap around: ArrowDown on the last toggle button of
    the Container focuses the first, as Home does, and ArrowUp on the
    first focuses the last, as End does. *)
Theorem X3_keyboard_wraps (this : instance) (t : nat) (w : world) :
  NoDup (items this) →
  (last (keyboard_toggles this w) = Some t →
   focused (_handleKeyboard this (toggle_button t) "ArrowDown" w)
   = head (keyboard_toggles this w)
   ∧ focused (_handleKeyboard this (toggle_button t) "Home" w)
     = head (keyboard_toggles this w))
  ∧ (head (keyboard_toggles this w) = Some t →
     focused (_handleKeyboard this (toggle_button t) "ArrowUp" w)
     = last (keyboard_toggles this w)
     ∧ focused (_handleKeyboard this (toggle_button t) "End" w)
       = last (keyboard_toggles this w)).
Proof.
  intros Hnd. apply (keyboard_toggles_NoDup this w) in Hnd.
  set (toggles := keyboard_toggles this w) in *.
  split; intros Ht.
  - rewrite last_lookup in Ht.
    pose proof (indexOf_NoDup _ _ _ Hnd Ht) as Hk.
    assert (Hlen : (0 < length toggles)%nat).
    { destruct toggles; [done | cbn; lia]. }
    rewrite (focused_next this t w _ Hk), (handleKeyboard_at this t "Home" w _ Hk).
    fold toggles. key_cases. cbn [focus_effect focused].
    rewrite head_lookup. split; [|done]. f_equal. case_decide; lia.
  - rewrite head_lookup in Ht.
    pose proof (indexOf_NoDup _ _ _ Hnd Ht) as Hk.
    rewrite (focused_previous this t w _ Hk), (handleKeyboard_at this t "End" w _ Hk).
    fold toggles. key_cases. cbn [focus_effect focused].
    rewrite last_lookup. split; [|f_equal; lia]. f_equal. case_decide; lia.
Qed.

Lemma X3_keyboard_wraps_witness :
  focused (_handleKeyboard container0 (toggle_button 4) "ArrowDown" group_world)
  = head (keyboard_toggles container0 group_world)
  ∧ focused (_handleKeyboard container0 (toggle_button 4) "Home" group_world)
    = head (keyboard_toggles container0 group_world).
Proof.
  apply (X3_keyboard_wraps container0 4 group_world).
  - apply NoDup_ListNoDup. vm_compute. repeat constructor; cbn; intuition lia.
  - by vm_compute.
Defined.

(** X4.  The handler is inert outside its keys and its buttons: a key
    other than ArrowDown, ArrowUp, Home, End, Enter and Space, or a
    target that is not a toggle button of this Container (whatever the
    key), prevents no default action and focuses and clicks nothing;
    Enter and Space click the button they are pressed on and move no
    focus. *)
Theorem X4_keyboard_inert (this : instance) (target : key_target) (key : string)
    (w : world) :
  let e := _handleKeyboard this target key w in
  ((∀ t, target = toggle_button t → t ∉ keyboard_toggles this w) → e = no_key_effect)
  ∧ (navigation_key key = false → key ≠ "Enter" → key ≠ " " → e = no_key_effect)
  ∧ (∀ t, target = toggle_button t → t ∈ keyboard_toggles this w →
          key = "Enter" ∨ key = " " →
          e = {| defaultPrevented := true; focused := None; clicked := Some t |}).
Proof.
  cbn zeta. split; [|split].
  - intros Hout. destruct target as [t|]; [|done].
    unfold _handleKeyboard. by rewrite indexOf_not_elem by by apply Hout.
  - intros Hnav Henter Hspace. unfold navigation_key in Hnav.
    apply orb_false_elim in Hnav as [Hnav Hend].
    apply orb_false_elim in Hnav as [Hnav Hhome].
    apply orb_false_elim in Hnav as [Hdown Hup].
    destruct target as [t|]; [|done]. unfold _handleKeyboard.
    destruct (indexOf t _); [|done].
    rewrite Hdown, Hup, Hhome, Hend. by key_cases.
  - intros t -> Hin Hkey. destruct (indexOf_elem _ _ Hin) as [k Hk].
    rewrite (handleKeyboard_at this t key w k Hk).
    destruct Hkey as [->| ->]; by key_cases.
Qed.

(* ================================================================== *)
(** * Toggle: what it brings about                                      *)
(* ================================================================== *)

(** [_toggle] on an item without a link group. *)
Lemma toggle_ungrouped (this : instance) (item : nat) (w : world) :
  truthy (linkGroup w item) = false →
  _toggle this item w
  = Some (if negb (is_open w item) && autoClose this
          then foldl (autoClose_sibling this item (linkGroup w item))
                 (toggle_first this item w) (items this)
          else toggle_first this item w).
Proof.
  intros Hg. unfold _toggle. fold (toggle_first this item w).
  rewrite (touches_only_linkGroup item w) by apply toggle_first_touches_only.
  destruct (linkGroup w item) as [g|]; [|done]. by rewrite Hg.
Qed.

(** [_toggle] on an item of link group [g]. *)
Lemma toggle_grouped (this : instance) (item : nat) (w : world) (g : string) :
  linkGroup w item = Some g → g ≠ "" → selector_plain g = true →
  let w1 := toggle_first this item w in
  let allLinked :=
    List.filter (λ j, bool_decide (linkGroup w1 j = Some g)) (seq 0 (length (doc w1))) in
  let w2 := foldl (syncLinked_item this item (negb (is_open w item))) w1 allLinked in
  _toggle this item w
  = Some (if negb (is_open w item) && autoClose this
          then foldl (autoClose_sibling this item (Some g)) w2 (items this)
          else w2).
Proof.
  intros Hg Hne Hplain w1 allLinked w2. unfold _toggle. fold (toggle_first this item w).
  rewrite (touches_only_linkGroup item w) by apply toggle_first_touches_only.
  rewrite Hg. cbn [truthy]. rewrite bool_decide_eq_false_2 by done. cbn [negb].
  unfold _syncLinkedGroup, querySelectorAll_linkGroup. rewrite Hplain. done.
Qed.


(** A loop whose body keeps [P], for every index, and establishes it
    when run for [j] on a world satisfying [Q], with [Q] kept by the
    body for the other indices. *)
Lemma foldl_establishes (f : world → nat → world) (P Q : world → Prop) (j : nat)
    (l : list nat) (w : world) :
  (∀ w x, P w → P (f w x)) →
  (∀ w x, x ≠ j → Q w → Q (f w x)) →
  (∀ w, Q w → P (f w j)) →
  j ∈ l → Q w → P (foldl f w l).
Proof.
  intros HP HQ Hj. revert w. induction l as [|a l IH]; intros w Hin Hw.
  { by apply elem_of_nil in Hin. }
  cbn [foldl]. destruct (decide (a = j)) as [->|Hne].
  - clear IH Hin. assert (H : P (f w j)) by (by apply Hj).
    revert H. generalize (f w j). induction l as [|b l IH]; intros w' H; [done|].
    cbn [foldl]. apply IH. by apply HP.
  - apply IH; [|by apply HQ].
    apply elem_of_cons in Hin as [?|?]; [congruence | done].
Qed.

Lemma is_open_doc (w w' : world) (j : nat) :
  doc w' !! j = doc w !! j → is_open w' j = is_open w j.
Proof. intros H. unfold is_open. by rewrite H. Qed.

Lemma openItem_opens (this : instance) (j : nat) (instant : bool) (w : world)
    (it : item) :
  doc w !! j = Some it → is_Some (i_toggle it) → is_Some (i_content it) →
  is_open (_openItem this j instant w) j = true.
Proof.
  intros Hit [t Ht] [c Hc].
  assert (Hlt : j < length (doc w)) by (by eapply lookup_lt_Some).
  unfold _openItem. rewrite Hit, Ht, Hc.
  destruct it as [a cl st ot oc cc]. cbn in Ht, Hc. subst ot oc.
  unfold is_open.
  destruct (num_gt0 _); world_simpl; lookup_simpl;
    destruct (contentFade _ && negb instant); cbn;
    unfold classList_contains, classList_add; apply bool_decide_eq_true_2; set_solver.
Qed.











(** The loop of [_syncLinkedGroup] skips the trigger item. *)
Lemma foldl_preserved_trigger (this : instance) (trigger : nat) (shouldOpen : bool)
    (l : list nat) (w : world) :
  doc (foldl (syncLinked_item this trigger shouldOpen) w l) !! trigger
  = doc w !! trigger.
Proof.
  revert w. induction l as [|a l IH]; intros w; [done|].
  cbn [foldl]. rewrite IH. destruct (decide (a = trigger)) as [->|Hne].
  - unfold syncLinked_item. by rewrite bool_decide_eq_true_2.
  - apply (touches_only_doc a); [apply syncLinked_item_touches_only | done].
Qed.

(** X7.  While the close of an Item is under way (its panel flagged as
    closing, the Item still classed open), a click on its toggle is
    ignored for that Item: the Item is left exactly as it is, neither
    reopened nor closed again; and if the Item has no link group the
    whole world is left as it is. *)
Theorem X7_toggle_while_closing (this : instance) (item : nat) (w : world) :
  is_open w item = true → is_closing w item = true →
  (∀ g, linkGroup w item = Some g → selector_plain g = true) →
  ∃ w', _toggle this item w = Some w'
    ∧ doc w' !! item = doc w !! item
    ∧ (truthy (linkGroup w item) = false → w' = w).
Proof.
  intros Hopen Hclosing Hplain.
  assert (H1 : toggle_first this item w = w).
  { unfold toggle_first. rewrite Hopen. by apply closeItem_noop. }
  destruct (truthy (linkGroup w item)) eqn:Hg.
  - destruct (linkGroup w item) as [g|] eqn:Hgroup; [|done].
    cbn [truthy] in Hg. apply negb_true_iff, bool_decide_eq_false in Hg.
    eexists. split; [apply (toggle_grouped this item w g); auto|].
    split; [|done]. rewrite Hopen, H1. cbn [negb andb].
    apply foldl_preserved_trigger.
  - exists w. rewrite toggle_ungrouped by done.
    by rewrite Hopen, H1.
Qed.

Lemma X7_toggle_while_closing_witness :
  ∃ w', _toggle single_container 0 double_click_world = Some w'
    ∧ doc w' !! 0%nat = doc double_click_world !! 0%nat
    ∧ (truthy (linkGroup double_click_world 0) = false → w' = double_click_world).
Proof.
  apply (X7_toggle_while_closing single_container 0 double_click_world).
  - by vm_compute.
  - by vm_compute.
  - intros g Hg. exfalso. revert Hg. by vm_compute.
Defined.

(** X8.  [data-allow-multiple] reaches nothing but the [allowMultiple]
    field of the instance, and that field is consulted by nothing: the
    instance built from a Container whose attribute is changed differs
    in that field only, and a toggle, a resize and a key press give the
    same result on two instances that differ only in it. *)
Theorem X8_allowMultiple_unused (c : nat) (attrs : attributes) (children : list nat)
    (v : string) (b : bool) (this : instance) (item : nat) (w : world)
    (target : key_target) (key : string) :
  construct c (<["data-allow-multiple" := v]> attrs) children
  = with_allowMultiple (bool_decide (v = "true")) (construct c attrs children)
  ∧ _toggle (with_allowMultiple b this) item w = _toggle this item w
  ∧ _recalcOpenHeights (with_allowMultiple b this) w = _recalcOpenHeights this w
  ∧ _handleKeyboard (with_allowMultiple b this) target key w
    = _handleKeyboard this target key w.
Proof.
  split; [|done].
  unfold construct, with_allowMultiple, container_defaults, dataNum, dataStr, dataBool,
    getAttribute.
  cbn [container autoClose allowMultiple defaults items mbind option_bind].
  eval_attr_names. rewrite lookup_insert_eq.
  by rewrite !lookup_insert_ne by done.
Qed.

(** With auto-close off, a toggle that opens an Item without link group
    leaves the other open Item open, also when the Container asks for a
    single open Item. *)
Example allowMultiple_false_not_enforced :
  allowMultiple single_open_container = false
  ∧ is_open single_open_world 0 = true
  ∧ is_open single_open_world 1 = false
  ∧ is_open (default single_open_world
               (_toggle single_open_container 1 single_open_world)) 0 = true
  ∧ is_open (default single_open_world
               (_toggle single_open_container 1 single_open_world)) 1 = true.
Proof. by vm_compute. Qed.

(* ================================================================== *)
(** * Close and open: how they complete                                 *)
(* ================================================================== *)

Lemma world_at_item (w : world) (i : nat) (it : item) :
  doc w !! i = Some it →
  w = at_i i (doc w) (registry w) (reducedMotion w) it (frames w) (timers w)
        (hasCompleted w) (nextClosure w).
Proof.
  intros Hit. destruct w as [d r b F T H n]. unfold at_i. cbn. f_equal.
  symmetry. by apply list_insert_id.
Qed.

Lemma getSettings_reduced (d : settings) (a : attributes) :
  num_gt0 (duration (_getSettings d true a)) = false.
Proof. done. Qed.

(** X9.  With a resolved duration that is not positive (zero, as under
    reduced motion, negative, or not a number) a close completes inside
    the call: the Item is closed and hidden, the closing flag is down
    again, the inline max-height is cleared, and no frame callback,
    timer or listener has been added; no other Item changes. *)
Theorem X9_close_without_animation (this : instance) (i : nat) (w : world) (it : item)
    (c : content_el) :
  doc w !! i = Some it → isSome (i_toggle it) = true → i_content it = Some c →
  item_closing it = false →
  num_gt0 (duration (_getSettings (defaults this) (reducedMotion w) (i_attributes it)))
  = false →
  let w' := _closeItem this i w in
  frames w' = frames w ∧ timers w' = timers w
  ∧ listeners_of i w' = listeners_of i w
  ∧ is_open w' i = false ∧ is_closing w' i = false
  ∧ c_hidden <$> content_of w' i = Some true
  ∧ maxHeight_of w' i = Some (css_str "")
  ∧ ∀ j, j ≠ i → doc w' !! j = doc w !! j.
Proof.
  intros Hit Ht Hc Hclosing Hdur w'.
  assert (Hi : i < length (doc w)) by (by eapply lookup_lt_Some).
  set (s := _getSettings _ _ _) in Hdur.
  assert (Hw' : w' = at_i i (doc w) (registry w) (reducedMotion w)
                       (cleanup_item s
                          (content_style "max-height" (css_str "0px")
                             (lock_item s (c_scrollHeight c) it)))
                       (frames w) (timers w)
                       ({[nextClosure w]} ∪ hasCompleted w ∖ {[nextClosure w]})
                       (S (nextClosure w))).
  { unfold w'. rewrite (world_at_item w i it Hit) at 1.
    rewrite (closeItem_at this i (doc w) (registry w) (reducedMotion w) Hi it
               (c_scrollHeight c)); [|done|by rewrite Hc|done].
    fold s. by rewrite Hdur. }
  rewrite Hw'. clear Hw' w'.
  split; [done|]. split; [done|].
  split.
  { rewrite listeners_of_at by done. rewrite listeners_of_item, Hit. cbn [from_option].
    destruct it as [a cl st ot oc cc]. cbn [i_content] in Hc. subst oc.
    unfold cleanup_item, lock_item. by destruct (contentFade s). }
  unfold is_open, is_closing, maxHeight_of, content_of, at_i. cbn [doc].
  rewrite list_lookup_insert_eq by done.
  destruct it as [a cl st ot oc cc]. cbn [i_content] in Hc. subst oc.
  unfold cleanup_item, lock_item.
  split.
  { destruct (contentFade s); item_simpl;
      unfold classList_contains, classList_remove;
      apply bool_decide_eq_false_2; set_solver. }
  split.
  { destruct (contentFade s); item_simpl; by rewrite lookup_insert_eq. }
  split.
  { by destruct (contentFade s). }
  split.
  { destruct (contentFade s); item_simpl; unfold style_get;
      cbn [style_set style_setImportant];
      by repeat first [ rewrite lookup_delete_eq | rewrite lookup_delete_ne by done ]. }
  intros j Hj. by rewrite list_lookup_insert_ne.
Qed.

Lemma X9_close_without_animation_witness :
  frames (_closeItem (construct 0 ∅ [0]) 0 reduced_open_world) = frames reduced_open_world
  ∧ timers (_closeItem (construct 0 ∅ [0]) 0 reduced_open_world)
    = timers reduced_open_world
  ∧ is_open reduced_open_world 0 = true
  ∧ is_open (_closeItem (construct 0 ∅ [0]) 0 reduced_open_world) 0 = false.
Proof.
  destruct (X9_close_without_animation (construct 0 ∅ [0]) 0 reduced_open_world
              (default (sample_item ∅ 0 0 0) (doc reduced_open_world !! 0%nat))
              (default (sample_content 0 0)
                 (i_content
                    (default (sample_item ∅ 0 0 0) (doc reduced_open_world !! 0%nat)))))
    as (H1 & H2 & _ & H4 & _).
  - apply default_Some. by vm_compute.
  - by vm_compute.
  - apply default_Some. by vm_compute.
  - by vm_compute.
  - by vm_compute.
  - split; [exact H1|]. split; [exact H2|]. split; [by vm_compute | exact H4].
Defined.

Lemma dispatch_onEnd_any (i : nat) (d : list item) (r : gmap nat instance) (b : bool)
    (e : transition_event) (k : nat) (it : item) (F : list frame_callback)
    (T : list timer) (H : gset nat) (n : nat) :
  i < length d → propertyName e = "max-height" →
  item_listeners it = [(onEnd k, false)] →
  dispatch_transitionend i e (at_i i d r b it F T H n)
  = at_i i d r b (onEnd_item k it) F T H n.
Proof.
  intros Hi He Hls. unfold dispatch_transitionend. rewrite listeners_of_at, Hls by done.
  cbn [List.filter snd negb app foldl]. unfold run_listener.
  rewrite listeners_of_at, Hls by done. cbn [existsb].
  rewrite registration_eqb_refl. cbn [orb fst].
  unfold run_onEnd. rewrite bool_decide_eq_true_2 by done. cbn [negb].
  unfold at_i, onEnd_item. world_norm; reflexivity.
Qed.

(** X10.  An animated open completes on the end of the height
    transition: once the frame callback has run, a [transitionend]
    event for [max-height] that reaches the panel (from the panel
    itself or bubbling from a descendant: the listener does not look at
    the target) releases the height to ['none'] and removes the
    listener; the Item stays open and shown, and no frame or timer is
    left over from the open. *)
Theorem X10_open_completes (this : instance) (i : nat) (w : world) (it : item)
    (c : content_el) (e : transition_event) :
  doc w !! i = Some it → isSome (i_toggle it) = true → i_content it = Some c →
  c_listeners c = [] → frames w = [] →
  num_gt0 (duration (_getSettings (defaults this) (reducedMotion w) (i_attributes it)))
  = true →
  propertyName e = "max-height" →
  let w' := dispatch_transitionend i e (run_frame (_openItem this i false w)) in
  maxHeight_of w' i = Some (css_str "none")
  ∧ listeners_of i w' = []
  ∧ is_open w' i = true
  ∧ c_hidden <$> content_of w' i = Some false
  ∧ frames w' = [] ∧ timers w' = timers w.
Proof.
  intros Hit Ht Hc Hls Hfr Hdur He w'.
  assert (Hi : i < length (doc w)) by (by eapply lookup_lt_Some).
  set (s := _getSettings _ _ _) in Hdur.
  destruct (i_toggle it) as [t|] eqn:Ht'; [|done].
  assert (Hw' : w' = at_i i (doc w) (registry w) (reducedMotion w)
                       (onEnd_item (nextClosure w)
                          (openFrame_item (duration s) s (c_offsetHeight c) false
                             (open_item s (duration s) false (nextClosure w) it)))
                       [] (timers w) (hasCompleted w) (S (nextClosure w))).
  { unfold w'. rewrite (world_at_item w i it Hit) at 1. rewrite Hfr.
    rewrite (openItem_at this i (doc w) (registry w) (reducedMotion w) Hi false it t c)
      by done.
    cbn [app]. fold s. rewrite run_openFrame_at by done.
    apply dispatch_onEnd_any; [done | done |].
    destruct it as [a cl st ot oc cc]. cbn [i_content] in Hc. subst oc.
    destruct c as [cid cattr chid ccl cds cst cch coh csh cls].
    cbn [c_listeners] in Hls. subst cls.
    unfold openFrame_item, open_item. rewrite Hdur.
    by destruct (contentFade s). }
  rewrite Hw'. clear Hw' w'.
  split.
  { unfold maxHeight_of, content_of, at_i. cbn [doc].
    rewrite list_lookup_insert_eq by done.
    destruct it as [a cl st ot oc cc]. cbn [i_content] in Hc. subst oc.
    unfold onEnd_item, openFrame_item, open_item. rewrite Hdur.
    destruct (contentFade s); cbn [andb negb]; item_simpl; unfold style_get; cbn [style_set];
      by rewrite lookup_insert_eq. }
  split.
  { rewrite listeners_of_at by done.
    destruct it as [a cl st ot oc cc]. cbn [i_content] in Hc. subst oc.
    destruct c as [cid cattr chid ccl cds cst cch coh csh cls].
    cbn [c_listeners] in Hls. subst cls.
    unfold onEnd_item, openFrame_item, open_item. rewrite Hdur.
    destruct (contentFade s); cbn -[registration_eqb];
      by rewrite registration_eqb_refl. }
  unfold is_open, content_of, at_i. cbn [doc frames timers].
  rewrite list_lookup_insert_eq by done.
  destruct it as [a cl st ot oc cc]. cbn [i_content] in Hc. subst oc.
  unfold onEnd_item, openFrame_item, open_item. rewrite Hdur.
  split.
  { destruct (contentFade s); cbn [andb negb]; item_simpl;
      unfold classList_contains, classList_add; apply bool_decide_eq_true_2; set_solver. }
  split; [by destruct (contentFade s)|done].
Qed.

Lemma X10_open_completes_witness :
  maxHeight_of
    (dispatch_transitionend 0
       {| target_is_content := false; propertyName := "max-height" |}
       (run_frame (_openItem single_container 0 false hydrated_single))) 0
  = Some (css_str "none")
  ∧ listeners_of 0
      (dispatch_transitionend 0
         {| target_is_content := false; propertyName := "max-height" |}
         (run_frame (_openItem single_container 0 false hydrated_single))) = [].
Proof.
  destruct (X10_open_completes single_container 0 hydrated_single hydrated_item
              hydrated_content
              {| target_is_content := false; propertyName := "max-height" |})
    as (H1 & H2 & _).
  - apply (default_Some (sample_item ∅ 0 120 120) (doc hydrated_single !! 0%nat)).
    by vm_compute.
  - by vm_compute.
  - apply (default_Some (sample_content 120 120) (i_content hydrated_item)).
    by vm_compute.
  - by vm_compute.
  - by vm_compute.
  - by vm_compute.
  - done.
  - split; [exact H1 | exact H2].
Defined.

(** X11.  A [transitionend] event that is not for [max-height] changes
    nothing at all; neither does one that bubbles from a descendant of
    the panel, unless an open of the Item is waiting for its end: the
    handlers of a close look at the target and ignore it. *)
Theorem X11_transitionend_ignored (i : nat) (e : transition_event) (w : world) :
  (propertyName e ≠ "max-height" → dispatch_transitionend i e w = w)
  ∧ (target_is_content e = false →
     (∀ r, r ∈ listeners_of i w → is_onEnd r = false) →
     dispatch_transitionend i e w = w).
Proof.
  assert (Hin : ∀ r, r ∈ List.filter (λ r, snd r) (listeners_of i w)
                         ++ List.filter (λ r, negb (snd r)) (listeners_of i w) →
                r ∈ listeners_of i w).
  { intros r [Hr|Hr]%elem_of_app;
      apply list_elem_of_In, filter_In in Hr as [Hr _]; by apply list_elem_of_In. }
  split.
  - intros He. unfold dispatch_transitionend. apply foldl_fixed. intros r _.
    unfold run_listener. destruct (existsb _ _); [|done].
    destruct (fst r) as [k|k|k s]; [|done|].
    + unfold run_onEnd. by rewrite bool_decide_eq_false_2.
    + unfold run_transitionEndHandler. rewrite (bool_decide_eq_false_2 _ He).
      by rewrite orb_true_r.
  - intros Ht Hno. unfold dispatch_transitionend. apply foldl_fixed. intros r Hr.
    apply Hin, Hno in Hr. unfold run_listener. destruct (existsb _ _); [|done].
    unfold is_onEnd in Hr. destruct (fst r) as [k|k|k s]; [done|done|].
    unfold run_transitionEndHandler. by rewrite Ht.
Qed.

(* ================================================================== *)
(** * Hydration: properties                                             *)
(* ================================================================== *)

Lemma initItem_at (this : instance) (rand : string) (i : nat) (d : list item)
    (r : gmap nat instance) (b : bool) (it : item) (t : toggle_el) (c : content_el)
    (F : list frame_callback) (T : list timer) (H : gset nat) (n : nat) :
  i < length d → i_toggle it = Some t → i_content it = Some c →
  let s := _getSettings (defaults this) b (i_attributes it) in
  let wired_it := wire_item (item_id rand (i_attributes it)) it in
  _initItem this rand (at_i i d r b it F T H n) i
  = if open_default it then
      at_i i d r b (open_item s (num 0) true n wired_it)
        (F ++ [openFrame i (num 0) s (c_offsetHeight c) true]) T H (S n)
    else at_i i d r b (init_closed_item wired_it) F T H n.
Proof.
  intros Hi Ht Hc s wired_it. unfold _initItem.
  unfold at_i at 1. cbn [doc]. rewrite list_lookup_insert_eq by done.
  rewrite Ht, Hc. fold (item_id rand (i_attributes it)). fold (open_default it).
  destruct (open_default it).
  - change (with_doc _ _) with
      (with_doc (<[i := wired_it]>) (at_i i d r b it F T H n)).
    replace (with_doc (<[i := wired_it]>) (at_i i d r b it F T H n))
      with (at_i i d r b wired_it F T H n)
      by (unfold at_i; world_norm; reflexivity).
    destruct it as [a cl st ot oc cc]. cbn [i_toggle i_content] in Ht, Hc. subst ot oc.
    destruct t as [tid ta], c as [cid cattr chid ccl cds cst cch coh csh cls].
    by rewrite (openItem_at this i d r b Hi true wired_it
                  (with_t_attributes
                     (<["aria-controls" := item_id rand a +:+ "-content"]>)
                     (with_t_id (item_id rand a +:+ "-toggle")
                        {| t_id := tid; t_attributes := ta |}))
                  (with_c_attributes
                     (<["aria-labelledby" := item_id rand a +:+ "-toggle"]>)
                     (with_c_id (item_id rand a +:+ "-content")
                        {| c_id := cid; c_attributes := cattr; c_hidden := chid;
                           c_classList := ccl; c_dataset := cds; c_style := cst;
                           c_children := cch; c_offsetHeight := coh;
                           c_scrollHeight := csh; c_listeners := cls |}))
                  F T H n eq_refl eq_refl).
  - unfold at_i, init_closed_item. world_norm; reflexivity.
Qed.

Lemma initItem_skips (this : instance) (rand : string) (w : world) (i : nat) :
  from_option complete false (doc w !! i) = false → _initItem this rand w i = w.
Proof.
  unfold _initItem, complete. destruct (doc w !! i) as [it|]; [|done]. cbn.
  by destruct (i_toggle it), (i_content it).
Qed.

(** [_initItem] on a complete item, seen from that item. *)
Lemma initItem_effect (this : instance) (rand : string) (w : world) (i : nat)
    (it : item) :
  doc w !! i = Some it → complete it = true →
  ∃ it' n',
    _initItem this rand w i
    = at_i i (doc w) (registry w) (reducedMotion w) it'
        (frames w ++ option_list (init_frame this w i)) (timers w) (hasCompleted w) n'
    ∧ initialised rand (i_attributes it) it'
    ∧ complete it' = true
    ∧ item_listeners it' = item_listeners it
    ∧ c_offsetHeight <$> i_content it' = c_offsetHeight <$> i_content it.
Proof.
  intros Hit Hcomplete.
  assert (Hi : i < length (doc w)) by (by eapply lookup_lt_Some).
  unfold init_frame. rewrite Hit.
  assert (Hw : _initItem this rand w i
               = _initItem this rand
                   (at_i i (doc w) (registry w) (reducedMotion w) it (frames w)
                      (timers w) (hasCompleted w) (nextClosure w)) i)
    by (by rewrite <- (world_at_item w i it Hit)).
  rewrite Hw. clear Hw.
  destruct it as [a cl st [t|] [c|] cc]; try done.
  rewrite (initItem_at this rand i (doc w) (registry w) (reducedMotion w) _ t c)
    by done.
  cbn [i_toggle i_content i_attributes].
  destruct t as [tid ta], c as [cid cattr chid ccl cds cst cch coh csh cls].
  unfold initialised, wired, open_default. cbn [i_attributes].
  destruct (dataBool (Some a) "open-default" false) eqn:Hopen.
  - eexists _, _. split; [reflexivity|].
    unfold open_item, wire_item. replace (num_gt0 (num 0)) with false by done.
    cbn [andb negb].
    split; [|by destruct (contentFade _)].
    split; [by destruct (contentFade _)|].
    split.
    { destruct (contentFade _); eexists _, _; (split; [reflexivity|]);
        (split; [reflexivity|]); cbn; rewrite lookup_insert_ne by done;
        by rewrite !lookup_insert_eq. }
    split.
    { unfold aria_expanded. destruct (contentFade _); cbn; by rewrite lookup_insert_eq. }
    split; [by destruct (contentFade _)|].
    intros _. destruct (contentFade _); cbn;
      unfold classList_contains, classList_add; apply bool_decide_eq_true_2; set_solver.
  - eexists _, _. rewrite app_nil_r. split; [reflexivity|].
    unfold init_closed_item, wire_item.
    split; [|done].
    split; [done|].
    split.
    { eexists _, _. split; [reflexivity|]. split; [reflexivity|]. cbn.
      rewrite lookup_insert_ne by done. by rewrite !lookup_insert_eq. }
    split; [|done].
    unfold aria_expanded. cbn. by rewrite lookup_insert_eq.
Qed.

Lemma initialised_complete (rand : string) (a : attributes) (it : item) :
  initialised rand a it → complete it = true ∧ i_attributes it = a.
Proof.
  intros (Ha & (t & c & Ht & Hc & _) & _). unfold complete. by rewrite Ht, Hc.
Qed.

Lemma initItem_elsewhere (this : instance) (rand : string) (w : world) (i j : nat) :
  j ≠ i → doc (_initItem this rand w i) !! j = doc w !! j.
Proof.
  intros Hj. destruct (doc w !! i) as [it|] eqn:Hit.
  - destruct (complete it) eqn:Hc.
    + destruct (initItem_effect this rand w i it Hit Hc) as (it' & n' & -> & _).
      unfold at_i. cbn [doc]. by rewrite list_lookup_insert_ne.
    + rewrite initItem_skips; [done|]. by rewrite Hit.
  - rewrite initItem_skips; [done|]. by rewrite Hit.
Qed.

(** X12.  Hydration wires every Item of the Container that has its
    toggle button and its panel: the ids of the two are derived from
    [data-item-id] (from the random fallback when it is missing or
    empty), [aria-controls] of the button names the panel and
    [aria-labelledby] of the panel names the button; [aria-expanded] and
    the [hidden] flag say what [data-open-default] says, and an Item
    open by default is classed open.  The Item keeps its attributes. *)
Theorem X12_hydrate_wires (c : nat) (attrs : attributes) (children : list nat)
    (rand : string) (w : world) (j : nat) (it : item) :
  j ∈ children → doc w !! j = Some it → complete it = true →
  ∃ it', doc (hydrate c attrs children rand w) !! j = Some it'
         ∧ initialised rand (i_attributes it) it'.
Proof.
  intros Hin Hit Hc. unfold hydrate. cbn [doc with_registry items construct].
  set (this := construct c attrs children).
  apply (foldl_establishes (_initItem this rand)
           (λ w, ∃ it', doc w !! j = Some it' ∧ initialised rand (i_attributes it) it')
           (λ w, ∃ it0, doc w !! j = Some it0 ∧ complete it0 = true
                        ∧ i_attributes it0 = i_attributes it) j).
  - intros w0 x (it' & H0 & Hinit). destruct (decide (x = j)) as [->|Hne].
    + destruct (initialised_complete _ _ _ Hinit) as [Hc' Ha'].
      destruct (initItem_effect this rand w0 j it' H0 Hc')
        as (it2 & n' & -> & Hinit2 & _).
      exists it2. unfold at_i. cbn [doc].
      rewrite list_lookup_insert_eq by (by eapply lookup_lt_Some).
      split; [done|]. by rewrite <- Ha'.
    + exists it'. by rewrite initItem_elsewhere.
  - intros w0 x Hx (it0 & H0 & ?). exists it0. by rewrite initItem_elsewhere.
  - intros w0 (it0 & H0 & Hc0 & Ha0).
    destruct (initItem_effect this rand w0 j it0 H0 Hc0) as (it2 & n' & -> & Hinit2 & _).
    exists it2. unfold at_i. cbn [doc].
    rewrite list_lookup_insert_eq by (by eapply lookup_lt_Some).
    split; [done|]. by rewrite <- Ha0.
  - done.
  - by exists it.
Qed.

Lemma X12_hydrate_wires_witness :
  ∃ it', doc (hydrate 0 ∅ [0] "r" (sample_world [faq_item] false)) !! 0%nat = Some it'
         ∧ initialised "r" (i_attributes faq_item) it'.
Proof.
  apply (X12_hydrate_wires 0 ∅ [0] "r" (sample_world [faq_item] false) 0 faq_item).
  - apply list_elem_of_here.
  - reflexivity.
  - reflexivity.
Defined.

Example hydrate_wires_faq_item :
  let w := hydrate 0 ∅ [0] "r" (sample_world [faq_item] false) in
  (t_id <$> (doc w !! 0%nat ≫= i_toggle)) = Some "faq-1-toggle"
  ∧ (c_id <$> content_of w 0) = Some "faq-1-content"
  ∧ (doc w !! 0%nat ≫= aria_expanded) = Some "true"
  ∧ is_open w 0 = true.
Proof. by vm_compute. Qed.

(** One call of [_initItem]: what it schedules, and what it keeps. *)
Lemma initItem_step (this : instance) (rand : string) (w : world) (i : nat) :
  let w1 := _initItem this rand w i in
  frames w1 = frames w ++ option_list (init_frame this w i)
  ∧ timers w1 = timers w
  ∧ (∀ j, listeners_of j w1 = listeners_of j w)
  ∧ registry w1 = registry w
  ∧ reducedMotion w1 = reducedMotion w
  ∧ (∀ j, init_frame this w1 j = init_frame this w j).
Proof.
  cbn zeta. destruct (from_option complete false (doc w !! i)) eqn:Hcomplete.
  - destruct (doc w !! i) as [it|] eqn:Hit; [|done]. cbn [from_option] in Hcomplete.
    assert (Hi : i < length (doc w)) by (by eapply lookup_lt_Some).
    destruct (initItem_effect this rand w i it Hit Hcomplete)
      as (it' & n' & -> & Hinit & Hc' & Hls & Hoh).
    unfold at_i at 1 2 4 5. cbn [frames timers registry reducedMotion].
    split; [done|]. split; [done|].
    split.
    { intros j. rewrite !listeners_of_item. unfold at_i. cbn [doc].
      destruct (decide (j = i)) as [->|Hne].
      - rewrite list_lookup_insert_eq by done. by rewrite Hit.
      - by rewrite list_lookup_insert_ne. }
    split; [done|]. split; [done|].
    intros j. unfold init_frame, at_i. cbn [doc reducedMotion].
    destruct (decide (j = i)) as [->|Hne]; [|by rewrite list_lookup_insert_ne].
    rewrite list_lookup_insert_eq, Hit by done.
    destruct Hinit as (Ha & _). unfold open_default. rewrite Ha.
    unfold complete in Hc', Hcomplete.
    destruct (i_toggle it'), (i_toggle it); try done.
    destruct (i_content it') as [c'|], (i_content it) as [c0|]; try done.
    cbn in Hoh. by injection Hoh as ->.
  - rewrite initItem_skips by done.
    assert (Hnone : init_frame this w i = None).
    { unfold init_frame. destruct (doc w !! i) as [it|]; [|done].
      cbn in Hcomplete. unfold complete in Hcomplete.
      by destruct (i_toggle it), (i_content it). }
    rewrite Hnone. cbn [option_list]. by rewrite app_nil_r.
Qed.

Lemma initItems_schedule (this : instance) (rand : string) (l : list nat) (w : world) :
  let w' := foldl (_initItem this rand) w l in
  frames w' = frames w ++ omap (init_frame this w) l
  ∧ timers w' = timers w
  ∧ (∀ j, listeners_of j w' = listeners_of j w)
  ∧ (∀ j, j ∉ l → doc w' !! j = doc w !! j)
  ∧ registry w' = registry w.
Proof.
  cbn zeta. revert w. induction l as [|a l IH]; intros w.
  { cbn. by rewrite app_nil_r. }
  cbn [foldl].
  destruct (initItem_step this rand w a) as (Hf & Ht & Hl & Hr & _ & Hframe).
  destruct (IH (_initItem this rand w a)) as (Hf' & Ht' & Hl' & Hd' & Hr').
  split.
  { rewrite Hf', Hf, <- app_assoc. f_equal. cbn [omap list_omap].
    rewrite (list_omap_ext _ (init_frame this w) l l)
      by (apply Forall2_same_length_lookup_2; [done|];
          intros k x y Hx Hy; rewrite Hx in Hy; injection Hy as <-; apply Hframe).
    by destruct (init_frame this w a). }
  split; [congruence|].
  split; [intros j; by rewrite Hl', Hl|].
  split; [|congruence].
  intros j Hj. rewrite Hd' by (intros ?; apply Hj; by right).
  apply initItem_elsewhere. intros ->. apply Hj. by left.
Qed.

(** X13.  Hydration of a Container schedules nothing but the opening
    frames: it requests exactly one animation frame for each of its
    Items that has toggle and panel and is open by default, in order;
    it sets no timer and registers no [transitionend] listener; it
    leaves every Item outside the Container as it is, and registers the
    instance under the Container. *)
Theorem X13_hydrate_schedules (c : nat) (attrs : attributes) (children : list nat)
    (rand : string) (w : world) :
  let this := construct c attrs children in
  let w' := hydrate c attrs children rand w in
  frames w' = frames w ++ omap (init_frame this w) children
  ∧ timers w' = timers w
  ∧ (∀ j, listeners_of j w' = listeners_of j w)
  ∧ (∀ j, j ∉ children → doc w' !! j = doc w !! j)
  ∧ registry w' = <[c := this]> (registry w).
Proof.
  cbn zeta. unfold hydrate. cbn [items construct].
  destruct (initItems_schedule (construct c attrs children) rand children w)
    as (Hf & Ht & Hl & Hd & Hr).
  cbn [frames timers doc registry with_registry].
  split; [done|]. split; [done|].
  split; [intros j; rewrite <- Hl; by rewrite !listeners_of_item|].
  split; [done|]. by rewrite Hr.
Qed.

(* ================================================================== *)
(** * The animated elements                                             *)
(* ================================================================== *)

Lemma restyle_app (f : nat → style → style) (i : nat) (l1 l2 : list element) :
  restyle f i (l1 ++ l2) = restyle f i l1 ++ restyle f (i + length l1) l2.
Proof.
  unfold restyle. rewrite imap_app. f_equal. apply imap_ext. intros k e _. cbn.
  by rewrite Nat.add_assoc.
Qed.

Lemma restyle_cons (f : nat → style → style) (i : nat) (e : element) (l : list element) :
  restyle f i (e :: l) = with_el_style (f i) e :: restyle f (S i) l.
Proof.
  unfold restyle. rewrite imap_cons, Nat.add_0_r. f_equal.
  apply imap_ext. intros k x _. cbn. f_equal. f_equal. lia.
Qed.

Lemma restyle_length (f : nat → style → style) (i : nat) (l : list element) :
  length (restyle f i l) = length l.
Proof. apply length_imap. Qed.

Lemma forEach_listItems_restyle (f : nat → style → style) (l : list element) (i : nat) :
  List.filter is_LI (snd (forEach_listItems f i l)) = restyle f i (List.filter is_LI l)
  ∧ fst (forEach_listItems f i l) = (i + length (List.filter is_LI l))%nat.
Proof.
  revert i. induction l as [|x l IH]; intros i; cbn [forEach_listItems List.filter].
  { cbn. split; [done | lia]. }
  destruct (is_LI x) eqn:Hx.
  - destruct (IH (S i)) as [IH1 IH2]. destruct (forEach_listItems f (S i) l) as [j r].
    cbn [fst snd List.filter length] in *. rewrite with_el_style_is_LI, Hx.
    rewrite restyle_cons, IH1. split; [done | lia].
  - destruct (IH i) as [IH1 IH2]. destruct (forEach_listItems f i l) as [j r].
    cbn [fst snd List.filter] in *. by rewrite Hx.
Qed.

Lemma forEach_lists_restyle (f : nat → style → style) (ls : list (list element))
    (i : nat) :
  flat_map (List.filter is_LI) (snd (forEach_lists f i ls))
  = restyle f i (flat_map (List.filter is_LI) ls)
  ∧ fst (forEach_lists f i ls) = (i + length (flat_map (List.filter is_LI) ls))%nat.
Proof.
  revert i. induction ls as [|l ls IH]; intros i; cbn [forEach_lists flat_map].
  { cbn. split; [done | lia]. }
  destruct (forEach_listItems_restyle f l i) as [H1 H2].
  destruct (forEach_listItems f i l) as [j l1]. cbn [fst snd] in H1, H2.
  destruct (IH j) as [IH1 IH2]. destruct (forEach_lists f j ls) as [j' r].
  cbn [fst snd flat_map] in *. rewrite restyle_app, length_app, H1, IH1, H2.
  split; [done | lia].
Qed.

Lemma forEach_children_restyle (f : nat → style → style) (cs : list child) (i : nat) :
  let animatable :=
    flat_map (λ ch, match child_lists ch with
                    | [] => [child_el ch]
                    | lists => flat_map (List.filter is_LI) lists
                    end) in
  animatable (snd (forEach_children f i cs)) = restyle f i (animatable cs)
  ∧ fst (forEach_children f i cs) = (i + length (animatable cs))%nat.
Proof.
  cbn zeta. revert i. induction cs as [|ch cs IH]; intros i;
    cbn [forEach_children flat_map].
  { cbn. split; [done | lia]. }
  destruct (child_lists ch) as [|l ls] eqn:Hch.
  - destruct (IH (S i)) as [IH1 IH2]. destruct (forEach_children f (S i) cs) as [j r].
    cbn [fst snd flat_map child_lists child_el app length] in *.
    rewrite restyle_cons, IH1. split; [done | lia].
  - destruct (forEach_lists_restyle f (l :: ls) i) as [H1 H2].
    pose proof (forEach_lists_nonempty f (l :: ls) i) as Hne.
    destruct (forEach_lists f i (l :: ls)) as [j lists1]. cbn [fst snd] in H1, H2, Hne.
    destruct (IH j) as [IH1 IH2]. destruct (forEach_children f j cs) as [j' r].
    cbn [fst snd flat_map child_lists child_el] in *.
    destruct lists1 as [|l1 lists1]; [by destruct Hne|].
    cbn [flat_map] in *.
    rewrite restyle_app, H1, IH1, H2. rewrite !length_app in *.
    split; [done | lia].
Qed.

(** X14.  [_fadeInChildren] staggers over the animated elements as
    [_getAnimatableElements] lists them: the element of index [k] in
    that array (list items counted one by one, a block that contains a
    list not counted) gets the transition delay [stagger * k], opacity
    1 and no offset, and nothing else changes: the array keeps its
    length, its order and its tag names. *)
Theorem X14_fadeIn_stagger (s : settings) (it : item) (c : content_el) :
  i_content it = Some c →
  ∃ c', i_content (_fadeInChildren s it) = Some c'
    ∧ _getAnimatableElements c'
      = imap (λ k e, with_el_style (fadeIn_style s k) e) (_getAnimatableElements c).
Proof.
  intros Hc. unfold _fadeInChildren, forEach_animatable, with_i_content.
  cbn [i_content]. rewrite Hc. cbn [fmap option_fmap option_map].
  eexists. split; [reflexivity|].
  unfold _getAnimatableElements. cbn [c_children with_c_children].
  destruct (forEach_children_restyle (fadeIn_style s) (c_children c) 0) as [H _].
  exact H.
Qed.

Lemma X14_fadeIn_stagger_witness :
  ∃ c', i_content (_fadeInChildren reduced_settings (sample_item ∅ 0 120 120)) = Some c'
    ∧ _getAnimatableElements c'
      = imap (λ k e, with_el_style (fadeIn_style reduced_settings k) e)
          (_getAnimatableElements (sample_content 120 120)).
Proof.
  apply (X14_fadeIn_stagger reduced_settings (sample_item ∅ 0 120 120)). reflexivity.
Defined.

(* ================================================================== *)
(** * Resize: repeated and concurrent reports                           *)
(* ================================================================== *)

Lemma recalcOpenHeights_lookup (this : instance) (w : world) (j : nat) :
  doc (_recalcOpenHeights this w) !! j
  = if bool_decide (j ∈ items this) then recalc_effect <$> doc w !! j else doc w !! j.
Proof.
  rewrite recalcOpenHeights_doc. cbn [doc with_doc].
  apply foldl_alter_lookup, recalc_effect_idem.
Qed.

Lemma recalcOpenHeights_rest (this : instance) (w : world) :
  registry (_recalcOpenHeights this w) = registry w
  ∧ reducedMotion (_recalcOpenHeights this w) = reducedMotion w
  ∧ frames (_recalcOpenHeights this w) = frames w
  ∧ timers (_recalcOpenHeights this w) = timers w
  ∧ hasCompleted (_recalcOpenHeights this w) = hasCompleted w
  ∧ nextClosure (_recalcOpenHeights this w) = nextClosure w.
Proof. by rewrite recalcOpenHeights_doc. Qed.

(** X15.  A resize report is idempotent and reports of different
    Containers commute: recalculating twice gives what recalculating
    once gives (the layout being the same), and the order in which two
    instances recalculate does not matter, also when they share
    Items. *)
Theorem X15_recalc_idempotent_commutes (this other : instance) (w : world) :
  _recalcOpenHeights this (_recalcOpenHeights this w) = _recalcOpenHeights this w
  ∧ _recalcOpenHeights this (_recalcOpenHeights other w)
    = _recalcOpenHeights other (_recalcOpenHeights this w).
Proof.
  split; apply world_eq;
    try (destruct (recalcOpenHeights_rest this w) as (? & ? & ? & ? & ? & ?);
         destruct (recalcOpenHeights_rest other w) as (? & ? & ? & ? & ? & ?);
         destruct (recalcOpenHeights_rest this (_recalcOpenHeights this w))
           as (? & ? & ? & ? & ? & ?);
         destruct (recalcOpenHeights_rest this (_recalcOpenHeights other w))
           as (? & ? & ? & ? & ? & ?);
         destruct (recalcOpenHeights_rest other (_recalcOpenHeights this w))
           as (? & ? & ? & ? & ? & ?);
         congruence).
  - apply list_eq. intros j. rewrite !recalcOpenHeights_lookup.
    case_bool_decide; [|done]. destruct (doc w !! j); [|done]. cbn.
    by rewrite recalc_effect_idem.
  - apply list_eq. intros j. rewrite !recalcOpenHeights_lookup.
    by repeat case_bool_decide.
Qed.

(* ================================================================== *)
(** * Bootstrap: properties                                             *)
(* ================================================================== *)

Lemma hydrate_registry (c : nat) (attrs : attributes) (children : list nat)
    (rand : string) (w : world) :
  registry (hydrate c attrs children rand w)
  = <[c := construct c attrs children]> (registry w).
Proof.
  unfold hydrate. cbn [items construct registry with_registry].
  by destruct (initItems_schedule (construct c attrs children) rand children w)
    as (_ & _ & _ & _ & ->).
Qed.

Lemma init_container_length (rand : nat → string) (p : page) (c : nat) :
  length (page_containers (init_container rand p c)) = length (page_containers p).
Proof.
  unfold init_container. destruct (page_containers p !! c) as [el|]; [|done].
  destruct (truthy (aaInit el)); [done|]. cbn. by rewrite length_insert.
Qed.

Lemma init_container_elsewhere (rand : nat → string) (p : page) (c c' : nat) :
  c' ≠ c →
  page_containers (init_container rand p c) !! c' = page_containers p !! c'
  ∧ registry (page_world (init_container rand p c)) !! c'
    = registry (page_world p) !! c'.
Proof.
  intros Hne. unfold init_container. destruct (page_containers p !! c) as [el|]; [|done].
  destruct (truthy (aaInit el)); [done|]. cbn [page_containers page_world].
  rewrite list_lookup_insert_ne by done. split; [done|].
  rewrite hydrate_registry. by rewrite lookup_insert_ne.
Qed.

Lemma init_container_here (rand : nat → string) (p : page) (c : nat) :
  (c < length (page_containers p) → flagged (init_container rand p c) c = true)
  ∧ built (init_container rand p c) c = None
  ∧ registry (page_world (init_container rand p c)) !! c
    = match built p c with
      | Some inst => Some inst
      | None => registry (page_world p) !! c
      end.
Proof.
  unfold init_container, built, flagged.
  destruct (page_containers p !! c) as [el|] eqn:Hel.
  - assert (Hlt : c < length (page_containers p)) by (by eapply lookup_lt_Some).
    destruct (truthy (aaInit el)) eqn:Hflag.
    + rewrite Hel, Hflag. done.
    + cbn [page_containers page_world]. rewrite list_lookup_insert_eq by done.
      unfold aaInit. cbn [ce_attributes]. rewrite lookup_insert_eq.
      change (truthy (Some "true")) with true. cbn iota.
      split; [done|]. split; [done|].
      rewrite hydrate_registry. by rewrite lookup_insert_eq.
  - rewrite Hel. split; [|done]. intros Hlt. apply lookup_ge_None_1 in Hel. lia.
Qed.

Lemma flagged_kept (rand : nat → string) (p : page) (c c' : nat) :
  flagged p c' = true → flagged (init_container rand p c) c' = true.
Proof.
  intros H. destruct (decide (c' = c)) as [->|Hne].
  - apply init_container_here. unfold flagged in H.
    destruct (page_containers p !! c) eqn:Hel; [|done]. by eapply lookup_lt_Some.
  - unfold flagged. by rewrite (proj1 (init_container_elsewhere rand p c c' Hne)).
Qed.

Lemma init_loop_flags (rand : nat → string) (l : list nat) (p : page) :
  let p' := foldl (init_container rand) p l in
  length (page_containers p') = length (page_containers p)
  ∧ (∀ c, flagged p c = true → flagged p' c = true)
  ∧ (∀ c, c ∈ l → c < length (page_containers p) → flagged p' c = true).
Proof.
  cbn zeta. revert p. induction l as [|a l IH]; intros p.
  { split; [done|]. split; [done|]. by intros c ?%elem_of_nil. }
  cbn [foldl]. destruct (IH (init_container rand p a)) as (Hlen & Hkeep & Hnew).
  rewrite init_container_length in Hlen, Hnew.
  split; [done|].
  split; [intros c Hc; by apply Hkeep, flagged_kept|].
  intros c [->|Hin]%elem_of_cons Hlt.
  - by apply Hkeep, init_container_here.
  - by apply Hnew.
Qed.

Lemma init_container_flagged (rand : nat → string) (p : page) (c : nat) :
  flagged p c = true → init_container rand p c = p.
Proof.
  unfold flagged, init_container. destruct (page_containers p !! c); [|done].
  by intros ->.
Qed.

Lemma init_loop_registry (rand : nat → string) (l : list nat) (p : page) (c : nat) :
  registry (page_world (foldl (init_container rand) p l)) !! c
  = match (if bool_decide (c ∈ l) then built p c else None) with
    | Some inst => Some inst
    | None => registry (page_world p) !! c
    end.
Proof.
  revert p. induction l as [|a l IH]; intros p.
  { by rewrite bool_decide_eq_false_2 by (by intros ?%elem_of_nil). }
  cbn [foldl]. rewrite IH. destruct (decide (a = c)) as [->|Hne].
  - rewrite (bool_decide_eq_true_2 (c ∈ c :: l)) by (by left).
    destruct (init_container_here rand p c) as (_ & -> & ->).
    by destruct (bool_decide (c ∈ l)).
  - destruct (init_container_elsewhere rand p a c) as [Hc Hr]; [done|].
    rewrite Hr. unfold built at 1. rewrite Hc. fold (built p c).
    rewrite (bool_decide_ext (c ∈ a :: l) (c ∈ l)); [done|].
    rewrite elem_of_cons. split; [intros [?|?]; [congruence | done] | by right].
Qed.

Lemma init_flagged (rand : nat → string) (p : page) (c : nat) :
  length (page_containers (init rand p)) = length (page_containers p)
  ∧ (c < length (page_containers p) → flagged (init rand p) c = true).
Proof.
  unfold init.
  destruct (init_loop_flags rand (seq 0 (length (page_containers p))) p)
    as (Hlen & _ & Hnew).
  split; [done|]. intros Hlt. apply Hnew; [|done].
  apply list_elem_of_In, in_seq. lia.
Qed.

(** X16.  [init] is idempotent: the mark it leaves on a Container
    ([data-aa-init]) makes a second run, with whatever random ids,
    construct nothing and change nothing. *)
Theorem X16_init_idempotent (rand rand' : nat → string) (p : page) :
  init rand' (init rand p) = init rand p.
Proof.
  unfold init at 1. apply foldl_fixed. intros c Hc.
  apply list_elem_of_In, in_seq in Hc.
  apply init_container_flagged, init_flagged.
  destruct (init_flagged rand p c) as [Hlen _]. lia.
Qed.

(** X17.  After [init] the registry holds, for every Container that was
    not marked, the instance constructed from its attributes and Items,
    and for a marked Container what it held before.  So a Container
    that has been destroyed is not revived: once its instance is
    unregistered, a later [init] (or its re-insertion into the page,
    which runs the same guarded construction) leaves it without
    instance. *)
Theorem X17_init_registry (rand rand' : nat → string) (p : page) (c : nat) :
  registry (page_world (init rand p)) !! c
  = match built p c with
    | Some inst => Some inst
    | None => registry (page_world p) !! c
    end
  ∧ registry (page_world (init rand' (remove_container c (init rand p)))) !! c = None
  ∧ registry (page_world
                (init_container rand' (remove_container c (init rand p)) c)) !! c = None.
Proof.
  assert (Hinit : ∀ r q, registry (page_world (init r q)) !! c
                         = match built q c with
                           | Some inst => Some inst
                           | None => registry (page_world q) !! c
                           end).
  { intros r q. unfold init. rewrite init_loop_registry.
    case_bool_decide as Hin; [done|].
    unfold built. destruct (page_containers q !! c) eqn:Hel; [|done].
    exfalso. apply Hin, list_elem_of_In, in_seq.
    apply lookup_lt_Some in Hel. lia. }
  assert (Hbuilt : built (remove_container c (init rand p)) c = None).
  { unfold built, remove_container. cbn [page_containers].
    destruct (page_containers (init rand p) !! c) as [el|] eqn:Hel; [|done].
    destruct (init_flagged rand p c) as [Hlen Hflag].
    unfold flagged in Hflag. rewrite Hel in Hflag. rewrite Hflag; [done|].
    apply lookup_lt_Some in Hel. lia. }
  split; [apply Hinit|]. split.
  - rewrite Hinit, Hbuilt. unfold remove_container. cbn [page_world registry with_registry].
    apply lookup_delete_eq.
  - destruct (init_container_here rand' (remove_container c (init rand p)) c)
      as (_ & _ & ->).
    rewrite Hbuilt. unfold remove_container. cbn [page_world registry with_registry].
    apply lookup_delete_eq.
Qed.

Example init_two_containers :
  let p := init (λ _, "r") two_container_page in
  (autoClose <$> registry (page_world p) !! 0%nat) = Some true
  ∧ (items <$> registry (page_world p) !! 1%nat) = Some [1%nat]
  ∧ flagged p 0 = true ∧ flagged p 1 = true
  ∧ is_open (page_world p) 0 = false.
Proof. by vm_compute. Qed.

(* ================================================================== *)
(** * Toggle: the toggled Item                                          *)
(* ================================================================== *)

Lemma autoClose_loop_skips_item (this : instance) (item : nat) (g : option string)
    (l : list nat) (w : world) :
  doc (foldl (autoClose_sibling this item g) w l) !! item = doc w !! item.
Proof.
  revert w. induction l as [|a l IH]; intros w; [done|].
  cbn [foldl]. rewrite IH. destruct (decide (a = item)) as [->|Hne].
  - unfold autoClose_sibling. by rewrite bool_decide_eq_true_2.
  - apply (touches_only_doc a); [apply autoClose_sibling_touches_only | done].
Qed.

Lemma toggle_item_state (this : instance) (item : nat) (w : world) :
  (∀ g, linkGroup w item = Some g → selector_plain g = true) →
  ∃ w', _toggle this item w = Some w'
        ∧ doc w' !! item = doc (toggle_first this item w) !! item.
Proof.
  intros Hplain. destruct (truthy (linkGroup w item)) eqn:Hg.
  - destruct (linkGroup w item) as [g|] eqn:Hgroup; [|done].
    cbn [truthy] in Hg. apply negb_true_iff, bool_decide_eq_false in Hg.
    eexists. split; [apply (toggle_grouped this item w g); auto|].
    destruct (negb (is_open w item) && autoClose this).
    + rewrite autoClose_loop_skips_item. apply foldl_preserved_trigger.
    + apply foldl_preserved_trigger.
  - eexists. split; [by apply toggle_ungrouped|].
    destruct (negb (is_open w item) && autoClose this); [|done].
    apply autoClose_loop_skips_item.
Qed.

(** X18.  A toggle flips the toggled Item and nothing in the toggle
    undoes it: the Item ends the toggle exactly as its own open or close
    left it (the group synchronisation and the auto-close loop pass it
    over), so a closed Item with toggle button and panel is open
    afterwards, and an open one has its close started or completed. *)
Theorem X18_toggle_flips (this : instance) (i : nat) (w : world) (it : item) :
  (∀ g, linkGroup w i = Some g → selector_plain g = true) →
  doc w !! i = Some it → complete it = true →
  ∃ w', _toggle this i w = Some w'
    ∧ doc w' !! i = doc (toggle_first this i w) !! i
    ∧ (if is_open w i then closing_or_closed w' i = true
       else is_open w' i = true).
Proof.
  intros Hplain Hit Hc. destruct (toggle_item_state this i w Hplain) as (w' & Hw' & Hd).
  exists w'. split; [done|]. split; [done|].
  unfold complete in Hc. apply andb_prop in Hc as [Ht Hc].
  apply isSome_is_Some in Ht, Hc.
  unfold toggle_first in Hd. destruct (is_open w i) eqn:Hopen.
  - rewrite (closing_or_closed_doc _ _ _ Hd). by eapply closeItem_closes.
  - rewrite (is_open_doc _ _ _ Hd). by eapply openItem_opens.
Qed.

Lemma X18_toggle_flips_witness :
  ∃ w', _toggle single_container 0 hydrated_single = Some w'
    ∧ doc w' !! 0%nat = doc (toggle_first single_container 0 hydrated_single) !! 0%nat
    ∧ is_open w' 0 = true.
Proof.
  destruct (X18_toggle_flips single_container 0 hydrated_single hydrated_item)
    as (w' & H1 & H2 & H3).
  - intros g Hg. exfalso. revert Hg. by vm_compute.
  - apply (default_Some (sample_item ∅ 0 120 120) (doc hydrated_single !! 0%nat)).
    by vm_compute.
  - by vm_compute.
  - exists w'. split; [done|]. split; [done|].
    replace (is_open hydrated_single 0) with false in H3 by (by vm_compute). exact H3.
Defined.

(* ================================================================== *)
(** * Open without animation                                            *)
(* ================================================================== *)

(** X19.  An open without animation (instant, as for an Item that is
    open by default, or with a resolved duration that is not positive)
    releases the height to ['none'] inside the call and registers no
    listener and no timer; the frame callback it has requested all the
    same then sets the inline max-height to the pixel height measured
    during the call, and nothing is left pending that would release it
    again. *)
Theorem X19_unanimated_open_pins_height (this : instance) (i : nat) (instant : bool)
    (w : world) (it : item) (c : content_el) :
  doc w !! i = Some it → isSome (i_toggle it) = true → i_content it = Some c →
  frames w = [] →
  num_gt0 (if instant then num 0
           else duration (_getSettings (defaults this) (reducedMotion w)
                            (i_attributes it))) = false →
  let w1 := _openItem this i instant w in
  let w2 := run_frame w1 in
  (maxHeight_of w1 i = Some (css_str "none")
   ∧ listeners_of i w1 = listeners_of i w ∧ timers w1 = timers w
   ∧ length (frames w1) = 1%nat)
  ∧ (maxHeight_of w2 i = Some (css_px (c_offsetHeight c))
     ∧ listeners_of i w2 = listeners_of i w ∧ timers w2 = timers w
     ∧ frames w2 = [] ∧ is_open w2 i = true).
Proof.
  intros Hit Ht Hc Hfr Hdur w1 w2.
  assert (Hi : i < length (doc w)) by (by eapply lookup_lt_Some).
  set (s := _getSettings _ _ _) in Hdur.
  set (dur := if instant then num 0 else duration s) in Hdur.
  destruct (i_toggle it) as [t|] eqn:Ht'; [|done].
  assert (Hw1 : w1 = at_i i (doc w) (registry w) (reducedMotion w)
                       (open_item s dur instant (nextClosure w) it)
                       [openFrame i dur s (c_offsetHeight c) instant]
                       (timers w) (hasCompleted w) (S (nextClosure w))).
  { unfold w1.
    assert (Hw : _openItem this i instant w
                 = _openItem this i instant
                     (at_i i (doc w) (registry w) (reducedMotion w) it []
                        (timers w) (hasCompleted w) (nextClosure w))).
    { rewrite <- Hfr. by rewrite <- (world_at_item w i it Hit). }
    rewrite Hw.
    by rewrite (openItem_at this i (doc w) (registry w) (reducedMotion w) Hi
                  instant it t c). }
  assert (Hw2 : w2 = at_i i (doc w) (registry w) (reducedMotion w)
                       (openFrame_item dur s (c_offsetHeight c) instant
                          (open_item s dur instant (nextClosure w) it))
                       [] (timers w) (hasCompleted w) (S (nextClosure w))).
  { unfold w2. rewrite Hw1. by apply run_openFrame_at. }
  rewrite Hw2, Hw1. clear Hw1 Hw2 w1 w2.
  rewrite !listeners_of_at by done. rewrite listeners_of_item, Hit. cbn [from_option].
  unfold maxHeight_of, is_open, content_of, at_i. cbn [doc frames timers].
  rewrite !list_lookup_insert_eq by done.
  destruct it as [a cl st ot oc cc]. cbn [i_content] in Hc. subst oc.
  unfold openFrame_item, open_item. rewrite Hdur.
  split.
  - split.
    { destruct (contentFade s && negb instant); item_simpl; unfold style_get;
        cbn [style_set]; by rewrite lookup_insert_eq. }
    split; [by destruct (contentFade s && negb instant)|done].
  - split.
    { destruct (contentFade s && negb instant); item_simpl; unfold style_get;
        cbn [style_set]; rewrite lookup_insert_eq; done. }
    split; [by destruct (contentFade s && negb instant)|].
    split; [done|]. split; [done|].
    destruct (contentFade s && negb instant); item_simpl;
      unfold classList_contains, classList_add; apply bool_decide_eq_true_2; set_solver.
Qed.

Lemma X19_unanimated_open_pins_height_witness :
  maxHeight_of (_openItem (construct 0 ∅ [0]) 0 false reduced_world) 0
  = Some (css_str "none")
  ∧ maxHeight_of (run_frame (_openItem (construct 0 ∅ [0]) 0 false reduced_world)) 0
    = Some (css_px 120).
Proof.
  destruct (X19_unanimated_open_pins_height (construct 0 ∅ [0]) 0 false reduced_world
              (default (sample_item ∅ 0 0 0) (doc reduced_world !! 0%nat))
              (default (sample_content 0 0)
                 (i_content (default (sample_item ∅ 0 0 0) (doc reduced_world !! 0%nat)))))
    as ((H1 & _) & (H2 & _)).
  - apply default_Some. by vm_compute.
  - by vm_compute.
  - apply default_Some. by vm_compute.
  - by vm_compute.
  - by vm_compute.
  - split; [exact H1|]. rewrite H2. by vm_compute.
Defined.

(* ================================================================== *)
(** * Animated close: how it completes                                  *)
(* ================================================================== *)

Lemma cleanup_item_closed (s : settings) (it : item) (c : content_el) :
  i_content it = Some c →
  classList_contains (i_classList (cleanup_item s it)) "is-open" = false
  ∧ item_closing (cleanup_item s it) = false
  ∧ c_hidden <$> i_content (cleanup_item s it) = Some true
  ∧ item_listeners (cleanup_item s it) = item_listeners it.
Proof.
  intros Hc. destruct it as [a cl st ot oc cc]. cbn [i_content] in Hc. subst oc.
  unfold cleanup_item.
  split.
  { destruct (contentFade s); item_simpl;
      unfold classList_contains, classList_remove;
      apply bool_decide_eq_false_2; set_solver. }
  split.
  { destruct (contentFade s); item_simpl; by rewrite lookup_insert_eq. }
  split; by destruct (contentFade s).
Qed.

(** X20.  An animated close, once its frame callback has run, completes
    either way: by the [transitionend] of [max-height] on the panel,
    which also cancels the fallback timer and removes both listeners, or
    by the fallback timer, which leaves the capturing logging listener
    registered (it removes it without the capture flag).  In both cases
    the Item is closed, hidden and no longer flagged as closing, and a
    [transitionend] that arrives after the fallback changes nothing. *)
Theorem X20_close_completes (this : instance) (i : nat) (w : world) (it : item)
    (c : content_el) :
  doc w !! i = Some it → isSome (i_toggle it) = true → i_content it = Some c →
  item_closing it = false → c_listeners c = [] → frames w = [] →
  num_gt0 (duration (_getSettings (defaults this) (reducedMotion w) (i_attributes it)))
  = true →
  let w1 := run_frame (_closeItem this i w) in
  let by_event := dispatch_transitionend i max_height_event w1 in
  let by_timer := fire_timer (length (timers w)) w1 in
  (is_closing w1 i = true
   ∧ listeners_of i w1
     = [(debugHandler (nextClosure w), true);
        (transitionEndHandler (nextClosure w)
           (_getSettings (defaults this) (reducedMotion w) (i_attributes it)), false)])
  ∧ (is_open by_event i = false ∧ is_closing by_event i = false
     ∧ c_hidden <$> content_of by_event i = Some true
     ∧ listeners_of i by_event = []
     ∧ (∀ t, t ∈ timers by_event → is_fallback (nextClosure w) t = false))
  ∧ (is_open by_timer i = false ∧ is_closing by_timer i = false
     ∧ c_hidden <$> content_of by_timer i = Some true
     ∧ listeners_of i by_timer = [(debugHandler (nextClosure w), true)]
     ∧ dispatch_transitionend i max_height_event by_timer = by_timer).
Proof.
  intros Hit Ht Hc Hclosing Hls Hfr Hdur w1 by_event by_timer.
  assert (Hi : i < length (doc w)) by (by eapply lookup_lt_Some).
  set (s := _getSettings _ _ _) in *.
  set (n := nextClosure w) in *.
  set (closing :=
         closeFrame_item s
           (addEventListener (transitionEndHandler n s) false
              (addEventListener (debugHandler n) true
                 (lock_item s (c_scrollHeight c) it)))).
  set (fb := {| callback := fallbackTimeout n i s;
                delay := num_add (num_mul (duration s) (num 1000)) (num 100) |}).
  set (probes := [{| callback := logProbe; delay := num 10 |};
                  {| callback := logProbe; delay := num 100 |}]).
  assert (Hw1 : w1 = at_i i (doc w) (registry w) (reducedMotion w) closing []
                       (timers w ++ fb :: probes) (hasCompleted w ∖ {[n]}) (S n)).
  { unfold w1.
    assert (Hw : _closeItem this i w
                 = _closeItem this i
                     (at_i i (doc w) (registry w) (reducedMotion w) it []
                        (timers w) (hasCompleted w) (nextClosure w))).
    { rewrite <- Hfr. by rewrite <- (world_at_item w i it Hit). }
    rewrite Hw.
    rewrite (closeItem_at this i (doc w) (registry w) (reducedMotion w) Hi it
               (c_scrollHeight c)); [|done|by rewrite Hc|done].
    fold s. rewrite Hdur. cbn [app]. rewrite run_closeFrame_at by done.
    by rewrite <- app_assoc. }
  assert (Hcontent : ∃ c', i_content closing = Some c').
  { destruct it as [a cl st ot oc cc]. cbn [i_content] in Hc. subst oc.
    unfold closing, closeFrame_item, lock_item. destruct (contentFade s); by eexists. }
  assert (Hlisteners : item_listeners closing
                       = [(debugHandler n, true); (transitionEndHandler n s, false)]).
  { destruct it as [a cl st ot oc cc]. cbn [i_content] in Hc. subst oc.
    destruct c as [cid cattr chid ccl cds cst cch coh csh cls].
    cbn [c_listeners] in Hls. subst cls.
    unfold closing, closeFrame_item, lock_item.
    destruct (contentFade s); cbn -[registration_eqb];
      unfold registration_eqb; by cbn. }
  assert (Hflag : item_closing closing = true).
  { destruct it as [a cl st ot oc cc]. cbn [i_content] in Hc. subst oc.
    unfold closing, closeFrame_item, lock_item.
    destruct (contentFade s); item_simpl; by rewrite lookup_insert_eq. }
  assert (Hevent : by_event
                   = at_i i (doc w) (registry w) (reducedMotion w)
                       (cleanup_item s
                          (removeEventListener (debugHandler n) true
                             (removeEventListener (transitionEndHandler n s) false
                                closing)))
                       [] (List.filter (λ t, negb (is_fallback n t))
                             (timers w ++ fb :: probes))
                       ({[n]} ∪ hasCompleted w ∖ {[n]}) (S n)).
  { unfold by_event. rewrite Hw1.
    apply dispatch_close_at; [done | done | set_solver]. }
  assert (Htimer : by_timer
                   = at_i i (doc w) (registry w) (reducedMotion w)
                       (cleanup_item s
                          (removeEventListener (debugHandler n) false
                             (removeEventListener (transitionEndHandler n s) false
                                closing)))
                       [] (timers w ++ probes)
                       ({[n]} ∪ hasCompleted w ∖ {[n]}) (S n)).
  { unfold by_timer. rewrite Hw1. apply fire_fallback_at; [done | set_solver]. }
  destruct Hcontent as [c' Hc'].
  assert (Hremoved : ∀ capture,
            item_listeners
              (removeEventListener (debugHandler n) capture
                 (removeEventListener (transitionEndHandler n s) false closing))
            = if capture then [] else [(debugHandler n, true)]).
  { intros capture. unfold removeEventListener, item_listeners, with_i_content.
    unfold item_listeners in Hlisteners. rewrite Hc' in *.
    cbn [i_content fmap option_fmap option_map from_option with_c_listeners
         c_listeners] in *.
    rewrite Hlisteners. cbn -[registration_eqb].
    unfold registration_eqb. cbn. rewrite !bool_decide_eq_true_2 by done.
    by destruct capture. }
  assert (Hdone : ∀ capture,
            let it' :=
              cleanup_item s
                (removeEventListener (debugHandler n) capture
                   (removeEventListener (transitionEndHandler n s) false closing)) in
            classList_contains (i_classList it') "is-open" = false
            ∧ item_closing it' = false
            ∧ c_hidden <$> i_content it' = Some true
            ∧ item_listeners it' = if capture then [] else [(debugHandler n, true)]).
  { intros capture. cbn zeta. rewrite <- Hremoved.
    eapply cleanup_item_closed.
    unfold removeEventListener, with_i_content. cbn [i_content]. by rewrite Hc'. }
  split.
  { rewrite Hw1. rewrite listeners_of_at by done. rewrite is_closing_item.
    unfold at_i. cbn [doc]. rewrite list_lookup_insert_eq by done. done. }
  split.
  - rewrite Hevent. rewrite listeners_of_at by done. rewrite is_closing_item.
    unfold is_open, content_of, at_i. cbn [doc timers].
    rewrite !list_lookup_insert_eq by done. cbn [from_option].
    destruct (Hdone true) as (H1 & H2 & H3 & H4).
    split; [done|]. split; [done|]. split; [done|]. split; [done|].
    intros t Hin. apply list_elem_of_In, filter_In in Hin as [_ Hin].
    by apply negb_true_iff.
  - rewrite Htimer.
    assert (Hl : listeners_of i
                   (at_i i (doc w) (registry w) (reducedMotion w)
                      (cleanup_item s
                         (removeEventListener (debugHandler n) false
                            (removeEventListener (transitionEndHandler n s) false
                               closing)))
                      [] (timers w ++ probes)
                      ({[n]} ∪ hasCompleted w ∖ {[n]}) (S n))
                 = [(debugHandler n, true)]).
    { rewrite listeners_of_at by done. by destruct (Hdone false) as (_ & _ & _ & ->). }
    rewrite is_closing_item.
    unfold is_open, content_of. unfold at_i at 1 2 3. cbn [doc].
    rewrite !list_lookup_insert_eq by done. cbn [from_option].
    destruct (Hdone false) as (H1 & H2 & H3 & H4).
    split; [done|]. split; [done|]. split; [done|]. split; [done|].
    unfold dispatch_transitionend. rewrite Hl.
    cbn [List.filter snd negb app foldl]. unfold run_listener. rewrite Hl.
    cbn [existsb]. rewrite registration_eqb_refl. done.
Qed.

Lemma X20_close_completes_witness :
  let w1 := run_frame (_closeItem single_container 0 open_world) in
  is_open open_world 0 = true
  ∧ is_open (dispatch_transitionend 0 max_height_event w1) 0 = false
  ∧ listeners_of 0 (dispatch_transitionend 0 max_height_event w1) = []
  ∧ is_open (fire_timer (length (timers open_world)) w1) 0 = false
  ∧ listeners_of 0 (fire_timer (length (timers open_world)) w1)
    = [(debugHandler (nextClosure open_world), true)].
Proof.
  destruct (X20_close_completes single_container 0 open_world
              (default (sample_item ∅ 0 0 0) (doc open_world !! 0%nat))
              (default (sample_content 0 0)
                 (i_content (default (sample_item ∅ 0 0 0) (doc open_world !! 0%nat)))))
    as (_ & (H1 & _ & _ & H2 & _) & (H3 & _ & _ & H4 & _)).
  - apply default_Some. by vm_compute.
  - by vm_compute.
  - apply default_Some. by vm_compute.
  - by vm_compute.
  - by vm_compute.
  - by vm_compute.
  - by vm_compute.
  - cbv zeta. split; [by vm_compute|]. split; [exact H1|]. split; [exact H2|].
    split; [exact H3 | exact H4].
Defined.

(** X21.  While an animated close is under way (from the call until it
    completes) the Item is still presented as open: it keeps its class
    list with [is-open], its toggle button with [aria-expanded] as it
    was, and its panel's [hidden] flag; what marks the close is the
    closing flag, the inline [max-height: 0px !important] set by the
    frame callback, and the one fallback timer of [duration * 1000 + 100]
    milliseconds added to the pending timers. *)
Theorem X21_closing_state (this : instance) (i : nat) (w : world) (it : item)
    (c : content_el) :
  doc w !! i = Some it → isSome (i_toggle it) = true → i_content it = Some c →
  item_closing it = false → frames w = [] →
  let s := _getSettings (defaults this) (reducedMotion w) (i_attributes it) in
  num_gt0 (duration s) = true →
  let w1 := run_frame (_closeItem this i w) in
  ∃ it1 c1,
    doc w1 !! i = Some it1 ∧ i_content it1 = Some c1
    ∧ i_classList it1 = i_classList it ∧ i_toggle it1 = i_toggle it
    ∧ c_hidden c1 = c_hidden c
    ∧ item_closing it1 = true
    ∧ c_style c1 !! "max-height" = Some (css_str "0px", true)
    ∧ timers w1
      = timers w
        ++ [{| callback := fallbackTimeout (nextClosure w) i s;
               delay := num_add (num_mul (duration s) (num 1000)) (num 100) |};
            {| callback := logProbe; delay := num 10 |};
            {| callback := logProbe; delay := num 100 |}]
    ∧ frames w1 = [].
Proof.
  intros Hit Ht Hc Hclosing Hfr s Hdur w1.
  assert (Hi : i < length (doc w)) by (by eapply lookup_lt_Some).
  assert (Hw1 : w1 = at_i i (doc w) (registry w) (reducedMotion w)
                       (closeFrame_item s
                          (addEventListener (transitionEndHandler (nextClosure w) s) false
                             (addEventListener (debugHandler (nextClosure w)) true
                                (lock_item s (c_scrollHeight c) it))))
                       []
                       (timers w
                        ++ [{| callback := fallbackTimeout (nextClosure w) i s;
                               delay := num_add (num_mul (duration s) (num 1000))
                                          (num 100) |};
                            {| callback := logProbe; delay := num 10 |};
                            {| callback := logProbe; delay := num 100 |}])
                       (hasCompleted w ∖ {[nextClosure w]}) (S (nextClosure w))).
  { unfold w1.
    assert (Hw : _closeItem this i w
                 = _closeItem this i
                     (at_i i (doc w) (registry w) (reducedMotion w) it []
                        (timers w) (hasCompleted w) (nextClosure w))).
    { rewrite <- Hfr. by rewrite <- (world_at_item w i it Hit). }
    rewrite Hw.
    rewrite (closeItem_at this i (doc w) (registry w) (reducedMotion w) Hi it
               (c_scrollHeight c)); [|done|by rewrite Hc|done].
    fold s. rewrite Hdur. cbn [app]. rewrite run_closeFrame_at by done.
    by rewrite <- app_assoc. }
  rewrite Hw1. unfold at_i. cbn [doc timers frames].
  rewrite list_lookup_insert_eq by done.
  destruct it as [a cl st ot oc cc]. cbn [i_content] in Hc. subst oc.
  unfold closeFrame_item, lock_item.
  destruct (contentFade s).
  - eexists _, _. split; [reflexivity|]. split; [reflexivity|].
    split; [done|]. split; [by destruct ot|]. split; [done|].
    split; [item_simpl; by rewrite lookup_insert_eq|].
    split; [|done]. cbn [c_style with_c_children with_c_style with_c_listeners
                         with_c_classList with_c_dataset style_setImportant].
    by rewrite lookup_insert_eq.
  - eexists _, _. split; [reflexivity|]. split; [reflexivity|].
    split; [done|]. split; [by destruct ot|]. split; [done|].
    split; [item_simpl; by rewrite lookup_insert_eq|].
    split; [|done]. cbn [c_style with_c_children with_c_style with_c_listeners
                         with_c_classList with_c_dataset style_setImportant].
    by rewrite lookup_insert_eq.
Qed.

Lemma X21_closing_state_witness :
  ∃ it1 c1,
    doc (run_frame (_closeItem single_container 0 open_world)) !! 0%nat = Some it1
    ∧ i_content it1 = Some c1
    ∧ classList_contains (i_classList it1) "is-open" = true
    ∧ c_hidden c1 = false
    ∧ c_style c1 !! "max-height" = Some (css_str "0px", true).
Proof.
  destruct (X21_closing_state single_container 0 open_world
              (default (sample_item ∅ 0 0 0) (doc open_world !! 0%nat))
              (default (sample_content 0 0)
                 (i_content (default (sample_item ∅ 0 0 0) (doc open_world !! 0%nat)))))
    as (it1 & c1 & H1 & H2 & H3 & _ & H5 & _ & H7 & _).
  - apply default_Some. by vm_compute.
  - by vm_compute.
  - apply default_Some. by vm_compute.
  - by vm_compute.
  - by vm_compute.
  - by vm_compute.
  - exists it1, c1. split; [exact H1|]. split; [exact H2|].
    split; [rewrite H3; by vm_compute|].
    split; [rewrite H5; by vm_compute | exact H7].
Defined.

(* ================================================================== *)
(** * What an Item presents                                             *)
(* ================================================================== *)

Lemma neutral_in_sync (f : item → item) (it : item) :
  neutral f → in_sync it → in_sync (f it).
Proof.
  intros Hf Hs t c Ht Hc. destruct (Hf it) as (Hcl & Htog & Hhid).
  rewrite Hcl. rewrite Htog in Ht. rewrite Hc in Hhid. cbn in Hhid.
  destruct (i_content it) as [c0|] eqn:Hc0; [|done]. cbn in Hhid.
  injection Hhid as Hhid. destruct (Hs t c0 Ht Hc0) as [H1 H2].
  split; [done | congruence].
Qed.

Lemma neutral_compose (f g : item → item) :
  neutral f → neutral g → neutral (λ it, f (g it)).
Proof.
  intros Hf Hg it. destruct (Hf (g it)) as (? & ? & ?), (Hg it) as (? & ? & ?).
  repeat split; congruence.
Qed.

Lemma neutral_if (b : bool) (f g : item → item) :
  neutral f → neutral g → neutral (λ it, if b then f it else g it).
Proof. by destruct b. Qed.

Lemma neutral_id : neutral (λ it, it).
Proof. done. Qed.

Lemma neutral_content (f : content_el → content_el) :
  (∀ c, c_hidden (f c) = c_hidden c) → neutral (with_i_content f).
Proof.
  intros Hf it. split; [done|]. split; [done|]. cbn.
  destruct (i_content it); [|done]. cbn. by rewrite Hf.
Qed.

Lemma neutral_content_style (p : string) (v : css_value) : neutral (content_style p v).
Proof. by apply neutral_content. Qed.

Lemma neutral_content_styleImportant (p : string) (v : css_value) :
  neutral (content_styleImportant p v).
Proof. by apply neutral_content. Qed.

Lemma neutral_addEventListener (l : listener) (b : bool) : neutral (addEventListener l b).
Proof. by apply neutral_content. Qed.

Lemma neutral_removeEventListener (l : listener) (b : bool) :
  neutral (removeEventListener l b).
Proof. by apply neutral_content. Qed.

Lemma neutral_forEach_animatable (f : nat → style → style) :
  neutral (forEach_animatable f).
Proof. by apply neutral_content. Qed.

Lemma neutral_fadeIn (s : settings) : neutral (_fadeInChildren s).
Proof. apply neutral_forEach_animatable. Qed.

Lemma neutral_fadeOut (s : settings) : neutral (_fadeOutChildren s).
Proof. apply neutral_forEach_animatable. Qed.

Lemma world_in_sync_doc (w w' : world) :
  doc w' = doc w → world_in_sync w → world_in_sync w'.
Proof. intros Hd Hs i it. rewrite Hd. apply Hs. Qed.

Lemma with_item_in_sync (i : nat) (f : item → item) (w : world) :
  (∀ it, in_sync it → in_sync (f it)) →
  world_in_sync w → world_in_sync (with_item i f w).
Proof.
  intros Hf Hs j it. unfold with_item. cbn [doc with_doc].
  destruct (decide (j = i)) as [->|Hne].
  - rewrite list_lookup_alter_eq. destruct (doc w !! i) as [it0|] eqn:H0; [|done].
    cbn. intros [= <-]. apply Hf. by eapply Hs.
  - rewrite list_lookup_alter_ne by done. apply Hs.
Qed.

Lemma at_i_in_sync (i : nat) (w : world) (it' : item) (F : list frame_callback)
    (T : list timer) (H : gset nat) (n : nat) (r : gmap nat instance) (b : bool) :
  world_in_sync w → in_sync it' → world_in_sync (at_i i (doc w) r b it' F T H n).
Proof.
  intros Hs Hit j it. unfold at_i. cbn [doc].
  destruct (decide (j = i)) as [->|Hne].
  - destruct (decide (i < length (doc w))).
    + rewrite list_lookup_insert_eq by done. by intros [= <-].
    + rewrite list_insert_ge by lia. apply Hs.
  - rewrite list_lookup_insert_ne by done. apply Hs.
Qed.

Lemma cleanup_item_in_sync (s : settings) (it : item) : in_sync (cleanup_item s it).
Proof.
  intros t c Ht Hc. destruct it as [a cl st ot oc cc].
  assert (Hclass : classList_contains (classList_remove "is-open" cl) "is-open" = false).
  { unfold classList_contains, classList_remove. apply bool_decide_eq_false_2.
    set_solver. }
  unfold cleanup_item in *.
  destruct (contentFade s); cbn in Ht, Hc |- *;
    destruct ot as [t0|], oc as [c0|]; try done;
    cbn in Ht, Hc; injection Ht as <-; injection Hc as <-;
    cbn; rewrite Hclass, lookup_insert_eq; done.
Qed.

Lemma open_item_in_sync (s : settings) (dur : number) (instant : bool) (k : nat)
    (it : item) :
  in_sync (open_item s dur instant k it).
Proof.
  intros t c Ht Hc. destruct it as [a cl st ot oc cc].
  assert (Hclass : classList_contains (classList_add "is-open" cl) "is-open" = true).
  { unfold classList_contains, classList_add. apply bool_decide_eq_true_2. set_solver. }
  unfold open_item in *.
  destruct (num_gt0 dur), (contentFade s && negb instant); cbn in Ht, Hc |- *;
    destruct ot as [t0|], oc as [c0|]; try done;
    cbn in Ht, Hc; injection Ht as <-; injection Hc as <-;
    cbn; rewrite Hclass, lookup_insert_eq; done.
Qed.

Lemma neutral_lock_item (s : settings) (h : Z) : neutral (lock_item s h).
Proof.
  intros it. destruct it as [a cl st ot [c|] cc]; unfold lock_item; cbn;
    by destruct (contentFade s).
Qed.

Lemma cleanup_in_sync (k i : nat) (s : settings) (w : world) :
  world_in_sync w → world_in_sync (cleanup k i s w).
Proof.
  intros Hs. unfold cleanup. destruct (bool_decide (k ∈ hasCompleted w)); [done|].
  apply with_item_in_sync; [|by apply (world_in_sync_doc w)].
  intros it _. apply (cleanup_item_in_sync s it).
Qed.

Lemma openItem_in_sync (this : instance) (i : nat) (instant : bool) (w : world) :
  world_in_sync w → world_in_sync (_openItem this i instant w).
Proof.
  intros Hs. destruct (doc w !! i) as [it|] eqn:Hit.
  - destruct (i_toggle it) as [t|] eqn:Ht.
    + destruct (i_content it) as [c|] eqn:Hc.
      * assert (Hi : i < length (doc w)) by (by eapply lookup_lt_Some).
        rewrite (world_at_item w i it Hit) at 1.
        rewrite (openItem_at this i (doc w) (registry w) (reducedMotion w) Hi
                   instant it t c) by done.
        apply at_i_in_sync; [done | apply open_item_in_sync].
      * unfold _openItem. by rewrite Hit, Ht, Hc.
    + unfold _openItem. by rewrite Hit, Ht.
  - unfold _openItem. by rewrite Hit.
Qed.

Lemma closeItem_in_sync (this : instance) (i : nat) (w : world) :
  world_in_sync w → world_in_sync (_closeItem this i w).
Proof.
  intros Hs. destruct (is_closing w i) eqn:Hclosing.
  { by rewrite closeItem_noop. }
  destruct (doc w !! i) as [it|] eqn:Hit.
  - destruct (i_toggle it) as [t|] eqn:Ht.
    + destruct (i_content it) as [c|] eqn:Hc.
      * assert (Hi : i < length (doc w)) by (by eapply lookup_lt_Some).
        rewrite is_closing_item, Hit in Hclosing. cbn [from_option] in Hclosing.
        rewrite (world_at_item w i it Hit) at 1.
        rewrite (closeItem_at this i (doc w) (registry w) (reducedMotion w) Hi it
                   (c_scrollHeight c)); [|by rewrite Ht|by rewrite Hc|done].
        destruct (num_gt0 _).
        -- apply at_i_in_sync; [done|].
           apply (neutral_in_sync
                    (λ it,
                       addEventListener (transitionEndHandler (nextClosure w) _) false
                         (addEventListener (debugHandler (nextClosure w)) true
                            (lock_item _ (c_scrollHeight c) it))));
             [|by eapply Hs].
           intros x. destruct (neutral_lock_item
                                 (_getSettings (defaults this) (reducedMotion w)
                                    (i_attributes it))
                                 (c_scrollHeight c) x) as (? & ? & ?).
           destruct x as [? ? ? ? [?|] ?]; done.
        -- apply at_i_in_sync; [done | apply cleanup_item_in_sync].
      * unfold _closeItem. by rewrite Hit, Ht, Hc.
    + unfold _closeItem. by rewrite Hit, Ht.
  - unfold _closeItem. by rewrite Hit.
Qed.

Lemma foldl_in_sync {A} (f : world → A → world) (l : list A) (w : world) :
  (∀ w x, world_in_sync w → world_in_sync (f w x)) →
  world_in_sync w → world_in_sync (foldl f w l).
Proof.
  intros Hf. revert w. induction l as [|a l IH]; intros w Hs; [done|].
  cbn [foldl]. by apply IH, Hf.
Qed.

Lemma toggle_in_sync (this : instance) (i : nat) (w w' : world) :
  _toggle this i w = Some w' → world_in_sync w → world_in_sync w'.
Proof.
  unfold _toggle. intros Hw' Hs.
  assert (H1 : world_in_sync
                 (if is_open w i then _closeItem this i w else _openItem this i false w)).
  { destruct (is_open w i); [by apply closeItem_in_sync | by apply openItem_in_sync]. }
  revert Hw'. generalize dependent (if is_open w i then _closeItem this i w
                                     else _openItem this i false w).
  intros w1 H1.
  assert (Hloop : ∀ w2 g, world_in_sync w2 →
            world_in_sync (if negb (is_open w i) && autoClose this
                           then foldl (autoClose_sibling this i g) w2 (items this)
                           else w2)).
  { intros w2 g H2. destruct (negb (is_open w i) && autoClose this); [|done].
    apply foldl_in_sync; [|done]. intros w3 x H3. unfold autoClose_sibling.
    destruct (negb (bool_decide (x = i)) && is_open w3 x); [|done].
    destruct (truthy (linkGroup w3 x) && bool_decide (linkGroup w3 x = g)); [done|].
    by apply closeItem_in_sync. }
  assert (Hsync : ∀ g w2, _syncLinkedGroup this g i (negb (is_open w i)) w1 = Some w2 →
            world_in_sync w2).
  { intros g w2. unfold _syncLinkedGroup.
    destruct (querySelectorAll_linkGroup w1 g) as [l|]; [|done].
    cbn [mbind option_bind]. intros [= <-].
    apply foldl_in_sync; [|done]. intros w3 x H3.
    unfold syncLinked_item, _openItemGlobal, _closeItemGlobal.
    destruct (bool_decide (x = i)); [done|].
    destruct (negb (is_open w i) && negb (is_open w3 x)).
    { destruct (instanceForItem w3 x); by apply openItem_in_sync. }
    destruct (negb (negb (is_open w i)) && is_open w3 x); [|done].
    destruct (instanceForItem w3 x); by apply closeItem_in_sync. }
  destruct (linkGroup w1 i) as [g|]; cbn [mbind option_bind].
  - destruct (truthy (Some g)); cbn [mbind option_bind].
    + destruct (_syncLinkedGroup _ _ _ _ _) as [w2|] eqn:Hw2; [|done].
      cbn [mbind option_bind]. intros [= <-]. apply Hloop. by eapply Hsync.
    + intros [= <-]. by apply Hloop.
  - intros [= <-]. by apply Hloop.
Qed.

Ltac neutral_tac :=
  let it := fresh "it" in
  intros it; destruct it as [? ? ? ? [?|] ?];
  repeat match goal with |- context [if ?b then _ else _] => destruct b end;
  done.

Lemma with_item_neutral (i : nat) (f : item → item) (w : world) :
  neutral f → world_in_sync w → world_in_sync (with_item i f w).
Proof.
  intros Hf. apply with_item_in_sync. intros it. by apply neutral_in_sync.
Qed.

Lemma run_frame_in_sync (w : world) : world_in_sync w → world_in_sync (run_frame w).
Proof.
  intros Hs. unfold run_frame. apply foldl_in_sync; [|by apply (world_in_sync_doc w)].
  intros w1 [i dur s h instant|i s] H1; cbn [run_frame_callback].
  - unfold run_openFrame. apply with_item_neutral; [|done]. neutral_tac.
  - unfold run_closeFrame.
    assert (H2 : world_in_sync
                   (setTimeout logProbe (num 100)
                      (setTimeout logProbe (num 10)
                         (with_item i
                            (λ it, content_styleImportant "max-height" (css_str "0px")
                                     (content_style "transition"
                                        (css_max_height (duration s) (easing s)) it))
                            w1)))).
    { eapply world_in_sync_doc; [reflexivity|].
      apply with_item_neutral; [|done]. neutral_tac. }
    destruct (contentFade s); [|done].
    apply with_item_neutral; [|done]. neutral_tac.
Qed.

Lemma run_fallbackTimeout_in_sync (k i : nat) (s : settings) (w : world) :
  world_in_sync w → world_in_sync (run_fallbackTimeout k i s w).
Proof.
  intros Hs. unfold run_fallbackTimeout. apply cleanup_in_sync.
  apply with_item_neutral; [neutral_tac|].
  apply with_item_neutral; [neutral_tac|]. done.
Qed.

Lemma dispatch_in_sync (i : nat) (e : transition_event) (w : world) :
  world_in_sync w → world_in_sync (dispatch_transitionend i e w).
Proof.
  intros Hs. unfold dispatch_transitionend. apply foldl_in_sync; [|done].
  intros w1 r H1. unfold run_listener. destruct (existsb _ _); [|done].
  destruct (fst r) as [k|k|k s]; [|done|].
  - unfold run_onEnd. destruct (negb _); [done|].
    apply with_item_neutral; [neutral_tac | done].
  - unfold run_transitionEndHandler. destruct (_ || _); [done|].
    apply cleanup_in_sync. eapply world_in_sync_doc; [reflexivity|].
    apply with_item_neutral; [neutral_tac|].
    apply with_item_neutral; [neutral_tac|]. done.
Qed.

Lemma recalcOpenHeights_in_sync (this : instance) (w : world) :
  world_in_sync w → world_in_sync (_recalcOpenHeights this w).
Proof.
  intros Hs. unfold _recalcOpenHeights. apply foldl_in_sync; [|done].
  intros w1 x H1. unfold recalc_item. destruct (negb (is_open w1 x)); [done|].
  destruct (content_of w1 x) as [c|]; [|done].
  destruct (bool_decide _); [done|]. destruct (negb _); [|done].
  apply with_item_neutral; [neutral_tac | done].
Qed.

Lemma handle_in_sync (ev : event) (w w' : world) :
  is_Hydrate ev = false → handle ev w = Some w' →
  world_in_sync w → world_in_sync w'.
Proof.
  intros Hev Hh Hs. destruct ev as [| this i | | i e | n | this | b | c];
    try discriminate Hev; cbn [handle] in Hh.
  - by eapply toggle_in_sync.
  - injection Hh as <-. by apply run_frame_in_sync.
  - injection Hh as <-. by apply dispatch_in_sync.
  - injection Hh as <-. unfold fire_timer. destruct (timers w !! n) as [t|]; [|done].
    destruct (callback t) as [k i s|]; cbn [run_timer_callback].
    + apply run_fallbackTimeout_in_sync. by apply (world_in_sync_doc w).
    + by apply (world_in_sync_doc w).
  - injection Hh as <-. by apply recalcOpenHeights_in_sync.
  - by injection Hh as <-.
  - by injection Hh as <-.
Qed.

(** X22.  What an Item presents never disagrees with its class: if, for
    every Item that has toggle button and panel, [aria-expanded] on the
    button is ["true"] exactly when the Item carries [is-open] and the
    panel is [hidden] exactly when it does not, then the same holds
    after any run of clicks, animation frames, [transitionend] events,
    timeouts, resize reports, motion-preference changes and
    unregistrations. *)
Theorem X22_presentation_in_sync (evs : list event) (w w' : world) :
  forallb (λ ev, negb (is_Hydrate ev)) evs = true →
  run evs w = Some w' → world_in_sync w → world_in_sync w'.
Proof.
  revert w. induction evs as [|ev evs IH]; intros w Hevs Hrun Hs.
  { by injection Hrun as <-. }
  cbn [forallb] in Hevs. apply andb_prop in Hevs as [Hev Hevs].
  apply negb_true_iff in Hev. cbn [run] in Hrun.
  destruct (handle ev w) as [w1|] eqn:Hh; [|done]. cbn [mbind option_bind] in Hrun.
  apply (IH w1); [done | done |]. by eapply handle_in_sync.
Qed.

Lemma hydrated_single_in_sync : world_in_sync hydrated_single.
Proof.
  intros [|i] it Hit; [|by vm_compute in Hit].
  assert (Hitem : doc hydrated_single !! 0%nat = Some hydrated_item).
  { apply (default_Some (sample_item ∅ 0 120 120) (doc hydrated_single !! 0%nat)).
    by vm_compute. }
  rewrite Hitem in Hit. injection Hit as <-.
  intros t c Ht Hc.
  assert (Ht' : i_toggle hydrated_item
                = Some (default {| t_id := ""; t_attributes := ∅ |}
                          (i_toggle hydrated_item)))
    by (apply default_Some; by vm_compute).
  assert (Hc' : i_content hydrated_item = Some hydrated_content)
    by (apply (default_Some (sample_content 120 120)); by vm_compute).
  rewrite Ht' in Ht. rewrite Hc' in Hc. injection Ht as <-. injection Hc as <-.
  split; by vm_compute.
Qed.

Lemma X22_presentation_in_sync_witness :
  run open_and_close_clicks hydrated_single
  = Some (default hydrated_single (run open_and_close_clicks hydrated_single))
  ∧ world_in_sync (default hydrated_single (run open_and_close_clicks hydrated_single)).
Proof.
  assert (Hrun : run open_and_close_clicks hydrated_single
                 = Some (default hydrated_single
                           (run open_and_close_clicks hydrated_single)))
    by (apply default_Some; by vm_compute).
  split; [exact Hrun|].
  apply (X22_presentation_in_sync open_and_close_clicks hydrated_single).
  - reflexivity.
  - exact Hrun.
  - exact hydrated_single_in_sync.
Defined.

(* ================================================================== *)
(** * The saved markup, read back                                       *)
(* ================================================================== *)

Lemma props_lookup (entries : list (string * option data_prop)) (m : gmap string data_prop)
    (k : string) :
  foldl (λ m e, set_prop (fst e) (snd e) m) m entries !! k = entry_of k entries (m !! k).
Proof.
  revert m. induction entries as [|[k' v] es IH]; intros m; [done|].
  cbn [foldl entry_of fst snd]. rewrite IH. f_equal. unfold set_prop.
  destruct (String.eqb_spec k' k) as [->|Hne].
  - destruct v; [by rewrite lookup_insert_eq | by rewrite lookup_delete_eq].
  - destruct v; [by rewrite lookup_insert_ne | by rewrite lookup_delete_ne].
Qed.

Lemma props_of_lookup (entries : list (string * option data_prop)) (k : string) :
  props_of entries !! k = entry_of k entries None.
Proof. unfold props_of. by rewrite props_lookup, lookup_empty. Qed.

Ltac prop_lookup :=
  unfold rendered; rewrite ?lookup_fmap, ?props_of_lookup;
  cbv [entry_of fst snd String.eqb Ascii.eqb Bool.eqb bool_prop];
  cbn [fmap option_fmap option_map].

Lemma bool_string_read (b : bool) :
  bool_decide ((if b then "true" else "false") = "true") = b.
Proof. by destruct b. Qed.

(** X23.  The view script reads back from the saved Container what the
    block attributes say: auto-close, allow-multiple and content fade as
    the booleans saved, the easing as the saved easing value (the custom
    easing when the easing is ['custom'] and a custom easing is given,
    else the easing itself, so the literal ['custom'] when none is
    given), with ['ease'] when no easing is saved, and each number as
    [parseFloat] of its rendering, with the script's own fallback when
    it is not saved. *)
Theorem X23_container_markup_read_back (toString : number → string) (a : container_block)
    (c : nat) (children : list nat) :
  let this := construct c (rendered toString (containerSave a)) children in
  autoClose this = cb_autoClose a
  ∧ allowMultiple this = cb_allowMultipleOpen a
  ∧ contentFade (defaults this) = cb_contentFade a
  ∧ easing (defaults this)
    = default "ease" (easingValue (cb_animationEasing a) (cb_customEasing a))
  ∧ duration (defaults this)
    = read_number toString (Finite (2 # 5)) (cb_animationDuration a)
  ∧ fadeDuration (defaults this)
    = read_number toString (Finite (3 # 10)) (cb_contentFadeDuration a)
  ∧ slideDistance (defaults this)
    = read_number toString (num 10) (cb_contentSlideDistance a)
  ∧ stagger (defaults this) = read_number toString (num 0) (cb_staggerDelay a).
Proof.
  cbn zeta. destruct a as [ac am ad ae ace cf cfd csd sd ip ir].
  unfold containerSave. cbn [cb_autoClose cb_allowMultipleOpen cb_animationDuration
    cb_animationEasing cb_customEasing cb_contentFade cb_contentFadeDuration
    cb_contentSlideDistance cb_staggerDelay cb_iconPosition cb_iconRotation].
  generalize (easingValue ae ace). intros e.
  unfold construct, container_defaults, dataNum, dataStr, dataBool, getAttribute,
    read_number.
  cbn [autoClose allowMultiple defaults duration easing contentFade fadeDuration
       slideDistance stagger mbind option_bind].
  eval_attr_names.
  prop_lookup. rewrite !bool_string_read.
  by destruct ad, e, cfd, csd, sd.
Qed.

Example custom_easing_saved_verbatim :
  easing (defaults (construct 0 (rendered (λ _, "0.4") (containerSave custom_easing_block))
                      []))
  = "custom".
Proof. by vm_compute. Qed.

Lemma set_prop_lookup (k' : string) (v : option data_prop) (m : gmap string data_prop) (k : string) :
  set_prop k' v m !! k = if String.eqb k' k then v else m !! k.
Proof.
  unfold set_prop. destruct (String.eqb_spec k' k) as [->|Hne].
  - destruct v; [by rewrite lookup_insert_eq | by rewrite lookup_delete_eq].
  - destruct v; [by rewrite lookup_insert_ne | by rewrite lookup_delete_ne].
Qed.

(** The conditional assignments of [itemSave] amount to one object
    literal whose entries are undefined where the condition fails. *)
Lemma itemSave_entries (a : item_block) :
  itemSave a
  = props_of
      [ ("data-item-id", prop_str <$> ib_itemId a);
        ("data-open-default", bool_prop (ib_openByDefault a));
        ("data-link-group",
         if truthy (ib_linkGroupId a) then prop_str <$> ib_linkGroupId a else None);
        ("data-duration",
         if ib_overrideAnimationDuration a then prop_num <$> ib_animationDuration a
         else None);
        ("data-easing",
         if ib_overrideAnimationEasing a
         then prop_str <$> easingValue (ib_animationEasing a) (ib_customEasing a)
         else None);
        ("data-content-fade",
         if ib_overrideContentFade a then bool_prop (ib_contentFade a) else None);
        ("data-fade-duration",
         if ib_overrideContentFade a then prop_num <$> ib_contentFadeDuration a
         else None);
        ("data-slide-distance",
         if ib_overrideContentFade a then prop_num <$> ib_contentSlideDistance a
         else None);
        ("data-stagger",
         if ib_overrideContentFade a then prop_num <$> ib_staggerDelay a else None) ].
Proof.
  apply map_eq. intros k. rewrite props_of_lookup. unfold itemSave.
  destruct (truthy _), (ib_overrideAnimationDuration a),
    (ib_overrideAnimationEasing a), (ib_overrideContentFade a);
    cbn zeta; rewrite ?set_prop_lookup, props_of_lookup; cbv [entry_of fst snd];
    repeat (match goal with
            | |- context [String.eqb ?s k] =>
                destruct (String.eqb_spec s k) as [<-|?]
            end; [by cbv [String.eqb Ascii.eqb Bool.eqb]|]);
    done.
Qed.

(** What the saved Item carries under each [data-*] name. *)
Lemma itemSave_lookup (toString : number → string) (a : item_block) :
  let attrs := rendered toString (itemSave a) in
  attrs !! "data-item-id" = ib_itemId a
  ∧ attrs !! "data-open-default" = Some (if ib_openByDefault a then "true" else "false")
  ∧ attrs !! "data-link-group"
    = (if truthy (ib_linkGroupId a) then ib_linkGroupId a else None)
  ∧ attrs !! "data-duration"
    = (if ib_overrideAnimationDuration a then toString <$> ib_animationDuration a
       else None)
  ∧ attrs !! "data-easing"
    = (if ib_overrideAnimationEasing a
       then easingValue (ib_animationEasing a) (ib_customEasing a) else None)
  ∧ attrs !! "data-content-fade"
    = (if ib_overrideContentFade a
       then Some (if ib_contentFade a then "true" else "false") else None)
  ∧ attrs !! "data-fade-duration"
    = (if ib_overrideContentFade a then toString <$> ib_contentFadeDuration a else None)
  ∧ attrs !! "data-slide-distance"
    = (if ib_overrideContentFade a then toString <$> ib_contentSlideDistance a
       else None)
  ∧ attrs !! "data-stagger"
    = (if ib_overrideContentFade a then toString <$> ib_staggerDelay a else None).
Proof.
  cbn zeta. rewrite itemSave_entries. generalize (easingValue (ib_animationEasing a)
    (ib_customEasing a)). intros e. prop_lookup.
  split; [by destruct (ib_itemId a)|].
  split; [by destruct (ib_openByDefault a)|].
  split; [by destruct (truthy _), (ib_linkGroupId a)|].
  split; [by destruct (ib_overrideAnimationDuration a), (ib_animationDuration a)|].
  split; [by destruct (ib_overrideAnimationEasing a), e|].
  split; [by destruct (ib_overrideContentFade a), (ib_contentFade a)|].
  split; [by destruct (ib_overrideContentFade a), (ib_contentFadeDuration a)|].
  split; [by destruct (ib_overrideContentFade a), (ib_contentSlideDistance a)|].
  by destruct (ib_overrideContentFade a), (ib_staggerDelay a).
Qed.

(** X24.  The view script reads back from the saved Item what the block
    attributes say: open-by-default and the item id as saved; a link
    group exactly when the group id is non-empty; and, resolving the
    settings against any Container defaults, each animation setting is
    the Item's own value exactly when its override switch is on (the
    content-fade switch governing fade, fade duration, slide distance
    and stagger together) and the Container default otherwise, numbers
    being [parseFloat] of their rendering. *)
Theorem X24_item_markup_read_back (toString : number → string) (a : item_block)
    (d : settings) (reduced : bool) :
  let attrs := rendered toString (itemSave a) in
  dataBool (Some attrs) "open-default" false = ib_openByDefault a
  ∧ attrs !! "data-item-id" = ib_itemId a
  ∧ attrs !! "data-link-group"
    = (if truthy (ib_linkGroupId a) then ib_linkGroupId a else None)
  ∧ _getSettings d reduced attrs
    = {| duration :=
           if reduced then num 0
           else read_number toString (duration d)
                  (if ib_overrideAnimationDuration a then ib_animationDuration a
                   else None);
         easing :=
           default (easing d)
             (if ib_overrideAnimationEasing a
              then easingValue (ib_animationEasing a) (ib_customEasing a) else None);
         contentFade :=
           if ib_overrideContentFade a then ib_contentFade a else contentFade d;
         fadeDuration :=
           if reduced then num 0
           else read_number toString (fadeDuration d)
                  (if ib_overrideContentFade a then ib_contentFadeDuration a else None);
         slideDistance :=
           read_number toString (slideDistance d)
             (if ib_overrideContentFade a then ib_contentSlideDistance a else None);
         stagger :=
           if reduced then num 0
           else read_number toString (stagger d)
                  (if ib_overrideContentFade a then ib_staggerDelay a else None) |}.
Proof.
  cbn zeta.
  destruct (itemSave_lookup toString a)
    as (Hid & Hod & Hlg & Hdur & Heas & Hcf & Hfd & Hsl & Hst).
  unfold _getSettings, hasAttribute, dataNum, dataStr, dataBool, getAttribute, read_number.
  cbn [mbind option_bind]. eval_attr_names.
  rewrite Hid, Hod, Hlg, Hdur, Heas, Hcf, Hfd, Hsl, Hst, bool_string_read.
  do 3 (split; [done|]). f_equal.
  - by destruct reduced, (ib_overrideAnimationDuration a), (ib_animationDuration a).
  - by destruct (ib_overrideAnimationEasing a),
      (easingValue (ib_animationEasing a) (ib_customEasing a)).
  - destruct (ib_overrideContentFade a); [|done]. by rewrite bool_string_read.
  - by destruct reduced, (ib_overrideContentFade a), (ib_contentFadeDuration a).
  - by destruct (ib_overrideContentFade a), (ib_contentSlideDistance a).
  - by destruct reduced, (ib_overrideContentFade a), (ib_staggerDelay a).
Qed.

Example pricing_item_read_back :
  let attrs := rendered (λ _, "0.5") (itemSave pricing_item_block) in
  attrs !! "data-link-group" = Some "pricing-details"
  ∧ attrs !! "data-duration" = None
  ∧ contentFade (_getSettings (container_defaults ∅) false attrs) = false
  ∧ duration (_getSettings (container_defaults ∅) false attrs) = Finite (2 # 5).
Proof. by vm_compute. Qed.
